(** * Contact-book assistant: records, validation and the birthday window

    A shallow embedding of [main.py]: the field classes [Phone] and
    [Birthday], the class [Record] with its phone and birthday methods, the
    class [AddressBook] with [get_upcoming_birthdays], the part of
    Python's [datetime] module those methods call, the command handlers
    under [input_error], [save_data] and [load_data] on a model of the
    files, and the loop of [main] on what [input] delivers.

    Conventions.
    - A Python [str] is a Rocq [string]; a character is read as the code
      point of the same number (U+0000 to U+00FF).
    - An exception is a value of [exn]; a call that may raise returns a
      [result].  A method that mutates [self] takes the record and gives
      back the record after the call together with that result, so the
      state left behind by a call that raised can be observed.
    - Integers are [Z]; Python's [//] and [%] with a positive divisor are
      [Z.div] and [Z.modulo]. *)

From Stdlib Require Import ZArith List String Ascii Bool Lia.
Import ListNotations.

Open Scope Z_scope.

(** ** Exceptions and results *)

Inductive exn : Type :=
| ValueError
| OverflowError.

Inductive result (A : Type) : Type :=
| Return (a : A)
| Raise (e : exn).

Arguments Return {A} a.
Arguments Raise {A} e.

Definition bind {A B : Type} (c : result A) (k : A -> result B) : result B :=
  match c with
  | Return a => k a
  | Raise e => Raise e
  end.

Declare Scope result_scope.
Delimit Scope result_scope with result.
Notation "x <- c ;; k" := (bind c (fun x => k))
  (at level 61, c at next level, right associativity) : result_scope.
Open Scope result_scope.

(** ** The [datetime.date] operations used by the program

    Transcribed from the reference implementation of the [datetime]
    module; the names are the ones used there. *)

Module Datetime.

Definition MINYEAR : Z := 1.
Definition MAXYEAR : Z := 9999.
Definition _MAXORDINAL : Z := 3652059.

Definition _DAYS_IN_MONTH (month : Z) : Z :=
  match month with
  | 1 => 31 | 2 => 28 | 3 => 31 | 4 => 30 | 5 => 31 | 6 => 30
  | 7 => 31 | 8 => 31 | 9 => 30 | 10 => 31 | 11 => 30 | 12 => 31
  | _ => -1
  end.

Definition _DAYS_BEFORE_MONTH (month : Z) : Z :=
  match month with
  | 1 => 0 | 2 => 31 | 3 => 59 | 4 => 90 | 5 => 120 | 6 => 151
  | 7 => 181 | 8 => 212 | 9 => 243 | 10 => 273 | 11 => 304 | 12 => 334
  | _ => -1
  end.

Definition _is_leap (year : Z) : bool :=
  (year mod 4 =? 0) && (negb (year mod 100 =? 0) || (year mod 400 =? 0)).

Definition _days_before_year (year : Z) : Z :=
  let y := year - 1 in
  y * 365 + y / 4 - y / 100 + y / 400.

Definition _days_in_month (year month : Z) : Z :=
  if (month =? 2) && _is_leap year then 29 else _DAYS_IN_MONTH month.

Definition _days_before_month (year month : Z) : Z :=
  _DAYS_BEFORE_MONTH month + (if (2 <? month) && _is_leap year then 1 else 0).

Definition _ymd2ord (year month day : Z) : Z :=
  _days_before_year year + _days_before_month year month + day.

Definition _DI400Y : Z := Eval cbv in _days_before_year 401.
Definition _DI100Y : Z := Eval cbv in _days_before_year 101.
Definition _DI4Y : Z := Eval cbv in _days_before_year 5.

(** [_ord2ymd n]: ordinal to (year, month, day), 01-Jan-0001 being day 1. *)
Definition _ord2ymd (n : Z) : Z * Z * Z :=
  let n := n - 1 in
  let n400 := n / _DI400Y in
  let n := n mod _DI400Y in
  let year := n400 * 400 + 1 in
  let n100 := n / _DI100Y in
  let n := n mod _DI100Y in
  let n4 := n / _DI4Y in
  let n := n mod _DI4Y in
  let n1 := n / 365 in
  let n := n mod 365 in
  let year := year + (n100 * 100 + n4 * 4 + n1) in
  if (n1 =? 4) || (n100 =? 4) then (year - 1, 12, 31)
  else
    let leapyear := (n1 =? 3) && (negb (n4 =? 24) || (n100 =? 3)) in
    let month := Z.shiftr (n + 50) 5 in
    let preceding :=
      _DAYS_BEFORE_MONTH month + (if (2 <? month) && leapyear then 1 else 0) in
    if n <? preceding then
      let month := month - 1 in
      let preceding :=
        preceding
        - (_DAYS_IN_MONTH month + (if (month =? 2) && leapyear then 1 else 0)) in
      (year, month, n - preceding + 1)
    else (year, month, n - preceding + 1).

(** A [date] object: the three fields the class stores. *)
Record date : Type := mkdate { year : Z; month : Z; day : Z }.

(** [_check_date_fields]: the test the constructor applies. *)
Definition _check_date_fields (y m d : Z) : bool :=
  (MINYEAR <=? y) && (y <=? MAXYEAR)
  && (1 <=? m) && (m <=? 12)
  && (1 <=? d) && (d <=? _days_in_month y m).

(** [date(year, month, day)]. *)
Definition date_new (y m d : Z) : result date :=
  if _check_date_fields y m d then Return (mkdate y m d) else Raise ValueError.

(** [self.replace(year=y)]. *)
Definition replace_year (self : date) (y : Z) : result date :=
  date_new y (month self) (day self).

Definition toordinal (self : date) : Z :=
  _ymd2ord (year self) (month self) (day self).

Definition fromordinal (n : Z) : date :=
  let '(y, m, d) := _ord2ymd n in mkdate y m d.

(** [self.weekday()]: Monday is 0, Sunday is 6. *)
Definition weekday (self : date) : Z := (toordinal self + 6) mod 7.

(** [self < other]: the fields are compared as the tuple
    (year, month, day). *)
Definition date_lt (self other : date) : bool :=
  (year self <? year other)
  || ((year self =? year other)
      && ((month self <? month other)
          || ((month self =? month other) && (day self <? day other)))).

(** [(self - other).days] for two dates. *)
Definition days_between (self other : date) : Z :=
  toordinal self - toordinal other.

(** [self + timedelta(days=n)]. *)
Definition add_days (self : date) (n : Z) : result date :=
  let o := toordinal self + n in
  if (0 <? o) && (o <=? _MAXORDINAL) then Return (fromordinal o)
  else Raise OverflowError.

End Datetime.

(** ** Strings *)

Definition code (c : ascii) : Z := Z.of_N (N_of_ascii c).

Definition in_range (lo hi c : ascii) : bool :=
  (code lo <=? code c) && (code c <=? code hi).

(** Decimal digits, the class [\d] of the [re] module: below U+0100 these
    are "0" to "9" only. *)
Definition is_decimal (c : ascii) : bool := in_range "0" "9" c.

(** The characters [str.isdigit] accepts: the decimal digits and, below
    U+0100, the superscripts U+00B2, U+00B3 and U+00B9. *)
Definition isdigit_char (c : ascii) : bool :=
  is_decimal c || (code c =? 178) || (code c =? 179) || (code c =? 185).

(** [s.isdigit()]: every character is a digit and there is at least one. *)
Definition isdigit (s : string) : bool :=
  match list_ascii_of_string s with
  | [] => false
  | cs => forallb isdigit_char cs
  end.

(** [len(s)]. *)
Definition len (s : string) : Z := Z.of_nat (String.length s).

(** ** [datetime.strptime(value, "%d.%m.%Y")]

    [_strptime] turns the format into a regular expression, matches it at
    the start of the data, demands that the match reaches the end, converts
    the groups with [int] and builds a date, which checks the fields.  The
    expression for this format is
    [(3[0-1]|[1-2]\d|0[1-9]|[1-9]| [1-9])\.(1[0-2]|0[1-9]|[1-9])\.(\d\d\d\d)]. *)

Module Strptime.

Inductive atom : Type :=
| Lit (c : ascii)            (* one given character *)
| Range (lo hi : ascii)      (* [lo-hi] *)
| Digit.                     (* \d *)

Inductive item : Type :=
| Group (alternatives : list (list atom))   (* (a1|a2|...) *)
| Char (c : ascii).                         (* an escaped literal *)

Definition directive_d : item :=
  Group [ [Lit "3"; Range "0" "1"];
          [Range "1" "2"; Digit];
          [Lit "0"; Range "1" "9"];
          [Range "1" "9"];
          [Lit " "; Range "1" "9"] ].

Definition directive_m : item :=
  Group [ [Lit "1"; Range "0" "2"];
          [Lit "0"; Range "1" "9"];
          [Range "1" "9"] ].

Definition directive_Y : item :=
  Group [ [Digit; Digit; Digit; Digit] ].

(** The compiled form of ["%d.%m.%Y"]. *)
Definition format_regex : list item :=
  [directive_d; Char "."; directive_m; Char "."; directive_Y].

Definition match_atom (a : atom) (c : ascii) : bool :=
  match a with
  | Lit x => Ascii.eqb c x
  | Range lo hi => in_range lo hi c
  | Digit => is_decimal c
  end.

(** One alternative against the head of [s]: the text it consumed and the
    rest. *)
Fixpoint match_atoms (atoms : list atom) (s : list ascii)
  : option (list ascii * list ascii) :=
  match atoms with
  | [] => Some ([], s)
  | a :: atoms' =>
      match s with
      | c :: s' =>
          if match_atom a c then
            match match_atoms atoms' s' with
            | Some (text, rest) => Some (c :: text, rest)
            | None => None
            end
          else None
      | [] => None
      end
  end.

(** Backtracking match of a sequence of items at the head of [s]: the
    alternatives of a group are tried in order and the first one after
    which the remaining items match is kept.  The result is the text of
    every group and what follows the match. *)
Fixpoint match_items (items : list item) (s : list ascii)
  : option (list (list ascii) * list ascii) :=
  match items with
  | [] => Some ([], s)
  | Char x :: items' =>
      match s with
      | c :: s' => if Ascii.eqb c x then match_items items' s' else None
      | [] => None
      end
  | Group alternatives :: items' =>
      (fix try (alts : list (list atom)) :=
         match alts with
         | [] => None
         | alt :: alts' =>
             match match_atoms alt s with
             | Some (text, rest) =>
                 match match_items items' rest with
                 | Some (groups, rest') => Some (text :: groups, rest')
                 | None => try alts'
                 end
             | None => try alts'
             end
         end) alternatives
  end.

(** [int(text)] for a decimal literal, leading blanks skipped. *)
Fixpoint digits_value (acc : Z) (s : list ascii) : result Z :=
  match s with
  | [] => Return acc
  | c :: s' =>
      if is_decimal c then digits_value (acc * 10 + (code c - 48)) s'
      else Raise ValueError
  end.

Fixpoint int (s : list ascii) : result Z :=
  match s with
  | [] => Raise ValueError
  | c :: s' =>
      if Ascii.eqb c " " then int s' else digits_value 0 s
  end.

(** [datetime.strptime(data_string, "%d.%m.%Y").date()]. *)
Definition strptime (data_string : string) : result Datetime.date :=
  match match_items format_regex (list_ascii_of_string data_string) with
  | None => Raise ValueError
  | Some (groups, rest) =>
      match rest with
      | _ :: _ => Raise ValueError
      | [] =>
          match groups with
          | [d; m; Y] =>
              year <- int Y ;;
              month <- int m ;;
              day <- int d ;;
              Datetime.date_new year month day
          | _ => Raise ValueError
          end
      end
  end.

End Strptime.

(** ** [date.strftime("%d.%m.%Y")]

    The text comes from the [strftime] of the C library: day and month on
    two digits, and for [%Y] the year in decimal as glibc writes it,
    without padding.  The year has four digits from 1000 on and fewer
    before: 3 January 999 is written [03.01.999]. *)

Definition digit_char (n : Z) : ascii := ascii_of_N (Z.to_N (48 + n mod 10)).

Definition zero_padded (width : nat) (n : Z) : list ascii :=
  rev (map (fun k => digit_char (n / 10 ^ Z.of_nat k)) (seq 0 width)).

(** The number of decimal digits of a year, [MINYEAR] to [MAXYEAR]. *)
Definition decimal_width (n : Z) : nat :=
  if n <? 10 then 1%nat
  else if n <? 100 then 2%nat
  else if n <? 1000 then 3%nat
  else 4%nat.

(** [n] in decimal, without leading zeros. *)
Definition decimal (n : Z) : list ascii := zero_padded (decimal_width n) n.

Definition strftime (d : Datetime.date) : string :=
  string_of_list_ascii
    (zero_padded 2 (Datetime.day d) ++ ["."%char]
     ++ zero_padded 2 (Datetime.month d) ++ ["."%char]
     ++ decimal (Datetime.year d)).

(** ** The field classes

    A [Field] object holds one attribute, [value]; [Name], [Phone] and
    [Birthday] add nothing but a test in the constructor.  An object is
    represented by its [value]: the program never assigns to [value] after
    construction and never stores one field object in two places. *)

(** [Name(value)]. *)
Definition Name (value : string) : string := value.

(** [Phone(value)]: [len(value) == 10 and value.isdigit()], else
    [ValueError]. *)
Definition Phone (value : string) : result string :=
  if (len value =? 10) && isdigit value then Return value
  else Raise ValueError.

(** [Birthday(value)]: the value is stored when [strptime] accepts it; the
    [ValueError] of [strptime] is replaced by another [ValueError]. *)
Definition Birthday (value : string) : result string :=
  match Strptime.strptime value with
  | Return _ => Return value
  | Raise ValueError => Raise ValueError
  | Raise e => Raise e
  end.

(** ** class Record *)

Record record : Type := mkRecord {
  name : string;                (* self.name.value *)
  phones : list string;         (* the values of self.phones, in order *)
  birthday : option string      (* self.birthday: None or its value *)
}.

(** A method that may mutate [self]: the record after the call and the
    value returned or the exception raised. *)
Definition method (A : Type) : Type := record -> record * result A.

Definition mreturn {A : Type} (a : A) : method A := fun self => (self, Return a).

Definition mraise {A : Type} (e : exn) : method A := fun self => (self, Raise e).

Definition mbind {A B : Type} (c : method A) (k : A -> method B) : method B :=
  fun self =>
    match c self with
    | (self', Return a) => k a self'
    | (self', Raise e) => (self', Raise e)
    end.

(** A call that does not touch [self] and may raise. *)
Definition mlift {A : Type} (c : result A) : method A := fun self => (self, c).

Declare Scope method_scope.
Delimit Scope method_scope with method.
Notation "x <- c ;; k" := (mbind c (fun x => k))
  (at level 61, c at next level, right associativity) : method_scope.
Notation "c ;; k" := (mbind c (fun _ => k))
  (at level 61, right associativity) : method_scope.

(** [Record(name)]. *)
Definition Record__init__ (n : string) : record :=
  mkRecord (Name n) [] None.

(** [self.phones.append(Phone(phone))]: the phone is built first, so
    nothing is appended when the constructor raises. *)
Definition add_phone (phone : string) : method unit :=
  (p <- mlift (Phone phone) ;;
   fun self => (mkRecord (name self) (phones self ++ [p]) (birthday self),
                Return tt))%method.

(** The loop of [find_phone]: the first phone whose value equals [phone]. *)
Fixpoint find_phone_in (l : list string) (phone : string) : option string :=
  match l with
  | [] => None
  | phone_obj :: l' =>
      if String.eqb phone_obj phone then Some phone_obj
      else find_phone_in l' phone
  end.

Definition find_phone (self : record) (phone : string) : option string :=
  find_phone_in (phones self) phone.

(** [list.remove(x)] for a phone object [x] of the list: the first
    occurrence goes.  Phone objects compare by identity, and the object
    [find_phone] returns is the first one with that value, so the element
    removed is the first one with the value [phone]. *)
Fixpoint list_remove (l : list string) (phone : string) : list string :=
  match l with
  | [] => []
  | phone_obj :: l' =>
      if String.eqb phone_obj phone then l'
      else phone_obj :: list_remove l' phone
  end.

(** [self.phones.remove(self.find_phone(phone))]: when [find_phone] gives
    [None], [list.remove(None)] raises [ValueError], no element being equal
    to [None]. *)
Definition remove_phone (phone : string) : method unit :=
  fun self =>
    match find_phone self phone with
    | Some _ =>
        (mkRecord (name self) (list_remove (phones self) phone) (birthday self),
         Return tt)
    | None => mraise ValueError self
    end.

(** [edit_phone]: a phone object is always true, so the test is
    [find_phone(old_phone) is not None]. *)
Definition edit_phone (old_phone new_phone : string) : method unit :=
  fun self =>
    match find_phone self old_phone with
    | Some _ =>
        (add_phone new_phone ;; remove_phone old_phone)%method self
    | None => mraise ValueError self
    end.

(** [self.birthday = Birthday(birthday)]. *)
Definition add_birthday (b : string) : method unit :=
  (v <- mlift (Birthday b) ;;
   fun self => (mkRecord (name self) (phones self) (Some v), Return tt))%method.

(** ** class AddressBook

    [self.data] is a [dict]: keys are unique and [values()] goes through
    the entries in the order in which their keys were first inserted. *)

Definition AddressBook : Type := list (string * record).

(** [self.data[key] = r]: an existing key keeps its place. *)
Fixpoint dict_set (data : AddressBook) (key : string) (r : record)
  : AddressBook :=
  match data with
  | [] => [(key, r)]
  | (k, v) :: data' =>
      if String.eqb k key then (k, r) :: data'
      else (k, v) :: dict_set data' key r
  end.

Definition add_record (book : AddressBook) (r : record) : AddressBook :=
  dict_set book (name r) r.

(** [self.data.get(name)]. *)
Fixpoint find (book : AddressBook) (n : string) : option record :=
  match book with
  | [] => None
  | (k, v) :: book' => if String.eqb k n then Some v else find book' n
  end.

(** [if name in self.data: del self.data[name]]. *)
Fixpoint delete (book : AddressBook) (n : string) : AddressBook :=
  match book with
  | [] => []
  | (k, v) :: book' =>
      if String.eqb k n then book' else (k, v) :: delete book' n
  end.

(** [self.data.values()]. *)
Definition values (book : AddressBook) : list record := map snd book.

(** *** [get_upcoming_birthdays]

    [today] stands for [datetime.today().date()].  The body of the loop is
    cut into three steps: projection, window test, weekend move. *)

(** Lines 127 to 130: the birthday in the year of [today], or in the next
    year when that date is before [today]. *)
Definition project (today birthday_date : Datetime.date)
  : result Datetime.date :=
  birthday_this_year <-
    Datetime.replace_year birthday_date (Datetime.year today) ;;
  if Datetime.date_lt birthday_this_year today
  then Datetime.replace_year birthday_date (Datetime.year today + 1)
  else Return birthday_this_year.

(** Line 132: [0 <= (birthday_this_year - today).days <= 7]. *)
Definition in_window (today birthday_this_year : Datetime.date) : bool :=
  let days := Datetime.days_between birthday_this_year today in
  (0 <=? days) && (days <=? 7).

(** Lines 133 to 135: a date on Saturday or Sunday is moved forward by
    [7 - weekday()] days. *)
Definition congratulation (birthday_this_year : Datetime.date)
  : result Datetime.date :=
  let congratulation_date := birthday_this_year in
  if 5 <=? Datetime.weekday congratulation_date
  then Datetime.add_days congratulation_date
         (7 - Datetime.weekday congratulation_date)
  else Return congratulation_date.

(** An element of the list returned: the values under the keys ["name"]
    and ["birthday"]. *)
Record entry : Type := mkEntry { entry_name : string; entry_birthday : string }.

(** The body of the loop for one record: [None] when nothing is appended. *)
Definition upcoming_entry (today : Datetime.date) (r : record)
  : result (option entry) :=
  match birthday r with
  | None => Return None
  | Some value =>
      birthday_date <- Strptime.strptime value ;;
      birthday_this_year <- project today birthday_date ;;
      if in_window today birthday_this_year then
        congratulation_date <- congratulation birthday_this_year ;;
        Return (Some (mkEntry (name r) (strftime congratulation_date)))
      else Return None
  end.

(** The loop: an exception in the body ends the call. *)
Fixpoint upcoming_loop (today : Datetime.date) (records : list record)
  (upcoming_birthdays : list entry) : result (list entry) :=
  match records with
  | [] => Return upcoming_birthdays
  | r :: records' =>
      e <- upcoming_entry today r ;;
      upcoming_loop today records'
        (match e with
         | Some x => upcoming_birthdays ++ [x]
         | None => upcoming_birthdays
         end)
  end.

Definition get_upcoming_birthdays (today : Datetime.date) (book : AddressBook)
  : result (list entry) :=
  upcoming_loop today (values book) [].

(** ** Text

    The string methods the command line uses, on characters below
    U+0100. *)

(** [c.isspace()]: the separators of [str.split()] and [str.strip()]. *)
Definition isspace_char (c : ascii) : bool :=
  let n := code c in
  ((9 <=? n) && (n <=? 13)) || ((28 <=? n) && (n <=? 32))
  || (n =? 133) || (n =? 160).

(** [s.split()]: the maximal runs of characters that are not whitespace.
    [word] holds the characters of the current run, last one first. *)
Fixpoint split_chars (cs : list ascii) (word : list ascii) : list string :=
  match cs with
  | [] =>
      match word with
      | [] => []
      | _ :: _ => [string_of_list_ascii (rev word)]
      end
  | c :: cs' =>
      if isspace_char c then
        match word with
        | [] => split_chars cs' []
        | _ :: _ => string_of_list_ascii (rev word) :: split_chars cs' []
        end
      else split_chars cs' (c :: word)
  end.

Definition split (s : string) : list string :=
  split_chars (list_ascii_of_string s) [].

(** [s.strip()]. *)
Fixpoint lstrip_chars (cs : list ascii) : list ascii :=
  match cs with
  | c :: cs' => if isspace_char c then lstrip_chars cs' else cs
  | [] => []
  end.

Definition strip (s : string) : string :=
  string_of_list_ascii
    (rev (lstrip_chars (rev (lstrip_chars (list_ascii_of_string s))))).

(** [s.lower()]: "A" to "Z" and the capital letters U+00C0 to U+00DE
    (U+00D7, the multiplication sign, is no letter) move up by 32. *)
Definition lower_char (c : ascii) : ascii :=
  let n := code c in
  if ((65 <=? n) && (n <=? 90))
     || ((192 <=? n) && (n <=? 222) && negb (n =? 215))
  then ascii_of_N (Z.to_N (n + 32))
  else c.

Definition lower (s : string) : string :=
  string_of_list_ascii (map lower_char (list_ascii_of_string s)).

(** [sep.join(items)]. *)
Definition join (sep : string) (items : list string) : string :=
  String.concat sep items.

Definition newline : string := String (ascii_of_N 10) EmptyString.

(** The characters of a string, each as a string: what unpacking or
    iterating over a [str] gives. *)
Definition characters (s : string) : list string :=
  map (fun c => String c EmptyString) (list_ascii_of_string s).

(** ** [__str__] *)

(** [Record.__str__]. *)
Definition Record__str__ (self : record) : string :=
  let birthday_text :=
    match birthday self with
    | Some value => (", birthday: " ++ value)%string
    | None => ""%string
    end in
  ("Contact name: " ++ name self ++ ", phones: "
   ++ join "; " (phones self) ++ birthday_text)%string.

(** [AddressBook.__str__]. *)
Definition AddressBook__str__ (self : AddressBook) : string :=
  join newline (map Record__str__ (values self)).

(** ** The command line *)

Module Bot.

(** The exceptions the program can meet: those of the data model, the two
    others [input_error] names, [EOFError] from [input], and those of the
    files: [FileNotFoundError], [OSError] for every other refusal of
    [open], and [UnpicklingError], which stands for whatever [pickle.load]
    raises on a file it cannot read.  All of them are subclasses of
    [Exception]. *)
Inductive exception : Type :=
| Builtin (e : exn)
| IndexError
| KeyError
| EOFError
| FileNotFoundError
| OSError
| UnpicklingError.

Inductive outcome (A : Type) : Type :=
| Done (a : A)
| Failed (e : exception).

Arguments Done {A} a.
Arguments Failed {A} e.

(** A text shown to the user.  [Unexpected e] is the text the last
    [except] clause of [input_error] builds from an exception [e] that is
    none of the three it names; its first word is not in the range of
    characters modelled. *)
Inductive message : Type :=
| Text (s : string)
| Unexpected (e : exception).

(** [input_error(func)]: what [inner] returns given what [func] did. *)
Definition input_error {A : Type} (o : outcome A) : A + message :=
  match o with
  | Done a => inl a
  | Failed (Builtin ValueError) => inr (Text "Give me corect data please.")
  | Failed IndexError => inr (Text "Enter user name please")
  | Failed KeyError => inr (Text "Contact not found")
  | Failed e => inr (Unexpected e)
  end.

(** A handler body: the book after the call and what the body did.  The
    records are objects the book shares with the handler, so a method
    called on the record found under [key] changes the book. *)
Definition body : Type := AddressBook -> AddressBook * outcome string.

Definition call_method (key : string) (record : record) (m : method unit)
  (book : AddressBook) : AddressBook * result unit :=
  let '(record', res) := m record in (dict_set book key record', res).

(** [add_contact]: lines 175 to 185. *)
Definition add_contact (args : list string) : body :=
  fun book =>
    match args with
    | name :: phone :: _ =>
        let '(record, book, message) :=
          match find book name with
          | None =>
              let record := Record__init__ name in
              (record, add_record book record, "Contact added."%string)
          | Some record => (record, book, "Contact updated."%string)
          end in
        match phone with
        | EmptyString => (book, Done message)
        | String _ _ =>
            if negb (existsb (String.eqb phone) (phones record)) then
              match call_method name record (add_phone phone) book with
              | (book, Return _) => (book, Done message)
              | (book, Raise e) => (book, Failed (Builtin e))
              end
            else (book, Done message)
        end
    | _ => (book, Failed (Builtin ValueError))
    end.

(** [change_contact]: lines 190 to 195. *)
Definition change_contact (args : list string) : body :=
  fun book =>
    match args with
    | [name; old_phone; new_phone] =>
        match find book name with
        | Some record =>
            match call_method name record
                    (edit_phone old_phone new_phone) book with
            | (book, Return _) =>
                (book,
                 Done ("Phone number for " ++ name ++ " changed from "
                       ++ old_phone ++ " to " ++ new_phone ++ ".")%string)
            | (book, Raise e) => (book, Failed (Builtin e))
            end
        | None => (book, Done "Contact not found."%string)
        end
    | _ => (book, Failed (Builtin ValueError))
    end.

(** [show_phone]: lines 200 to 205. *)
Definition show_phone (args : list string) : body :=
  fun book =>
    match args with
    | name :: _ =>
        match find book name with
        | Some record =>
            let phones_text := join "; " (phones record) in
            match phones_text with
            | String _ _ =>
                (book, Done (name ++ "'s phones: " ++ phones_text)%string)
            | EmptyString =>
                (book, Done (name ++ " has no phone numbers.")%string)
            end
        | None => (book, Done "Contact not found."%string)
        end
    | [] => (book, Failed IndexError)
    end.

(** [add_birthday]: lines 210 to 215. *)
Definition add_birthday (args : list string) : body :=
  fun book =>
    match args with
    | [name; birthday] =>
        match find book name with
        | Some record =>
            match call_method name record
                    (add_birthday birthday) book with
            | (book, Return _) => (book, Done "Birthday added."%string)
            | (book, Raise e) => (book, Failed (Builtin e))
            end
        | None => (book, Done "Contact not found."%string)
        end
    | _ => (book, Failed (Builtin ValueError))
    end.

(** [show_birthday]: lines 220 to 224. *)
Definition show_birthday (args : list string) : body :=
  fun book =>
    match args with
    | name :: _ =>
        match find book name with
        | Some record =>
            match birthday record with
            | Some value => (book, Done value)
            | None => (book, Done "Birthday not found for this contact."%string)
            end
        | None => (book, Done "Birthday not found for this contact."%string)
        end
    | [] => (book, Failed IndexError)
    end.

(** [birthdays]: lines 229 to 232, with [today] for the date
    [get_upcoming_birthdays] reads. *)
Definition birthdays (today : Datetime.date) (args : list string) : body :=
  fun book =>
    match get_upcoming_birthdays today book with
    | Return upcoming =>
        match upcoming with
        | _ :: _ =>
            (book,
             Done (join newline
                     (map (fun b => (entry_name b ++ ": " ++ entry_birthday b)%string)
                        upcoming)))
        | [] => (book, Done "No upcoming birthdays."%string)
        end
    | Raise e => (book, Failed (Builtin e))
    end.

(** [parse_input]: lines 237 to 239, under [input_error]. *)
Definition parse_input (user_input : string) : list string + message :=
  input_error
    match split user_input with
    | cmd :: args => Done (lower (strip cmd) :: args)
    | [] => Failed (Builtin ValueError)
    end.

(** *** Files and [pickle]

    What the program sees of the file system: the content of the regular
    files, by path, and the paths [open] refuses in a mode with an
    [OSError] other than [FileNotFoundError] (a directory, a file or a
    directory without the permission).  A file [open] accepts for writing
    is written in full: a disk that fills while [pickle.dump] writes is
    not modelled. *)
Inductive mode : Type :=
| rb
| wb.

Record filesystem : Type := mkfilesystem {
  content : string -> option (list Byte.byte);
  refuses : string -> mode -> bool
}.

(** [open(filename, "rb")] and reading the file to its end. *)
Definition read_file (files : filesystem) (filename : string)
  : outcome (list Byte.byte) :=
  if refuses files filename rb then Failed OSError
  else match content files filename with
       | Some data => Done data
       | None => Failed FileNotFoundError
       end.

(** [open(filename, "wb")], which creates the file or empties it, and
    writing [data]. *)
Definition write_file (files : filesystem) (filename : string)
  (data : list Byte.byte) : filesystem * outcome unit :=
  if refuses files filename wb then (files, Failed OSError)
  else (mkfilesystem
          (fun path =>
             if String.eqb path filename then Some data
             else content files path)
          (refuses files),
        Done tt).

(** The two functions of the [pickle] module, on address books:
    [pickle_dumps] gives the bytes [pickle.dump] writes and [pickle_loads]
    the book [pickle.load] builds from the bytes of a file, if it builds
    one.  The stream is not described; what the documentation of the
    module promises of it is stated as [pickle_round_trip] where it is
    needed. *)
Class Pickle : Type := {
  pickle_dumps : AddressBook -> list Byte.byte;
  pickle_loads : list Byte.byte -> option AddressBook
}.

(** What the program does to the outside: a text printed by the view, or
    a call of [save_data] with the book.  The prompt [input] writes is not
    among the events. *)
Inductive event : Type :=
| Print (m : message)
| Save (book : AddressBook).

(** Where the loop of [main] stands after a command: at the prompt again
    with the book as it is now, out of the loop with the files as
    [save_data] left them, or stopped by an exception that nothing
    catches. *)
Inductive status : Type :=
| Running (book : AddressBook)
| Terminated (files : filesystem)
| Uncaught (e : exception).

(** What one call of [input] does: it returns a line, on the day [today],
    or it raises [EOFError] because the input has ended. *)
Inductive input : Type :=
| Line (today : Datetime.date) (user_input : string)
| EndOfInput.

(** [ConsoleView.display_message] on what a wrapped handler returned. *)
Definition display_message (r : string + message) : event :=
  match r with
  | inl s => Print (Text s)
  | inr m => Print m
  end.

(** [ConsoleView.display_contacts]: two calls of [print]. *)
Definition display_contacts (book : AddressBook) : list event :=
  [ Print (Text "Contacts:");
    Print (Text match book with
                | [] => "No contacts found."%string
                | _ :: _ => join newline (map Record__str__ (values book))
                end) ].

Definition help_text : string :=
"Available commands:
    add [name] [phone] - Add a new contact or update an existing one.
    change [name] [old_phone] [new_phone] - Change the phone number of a contact.
    phone [name] - Show the phone numbers of a contact.
    all - Show all contacts.
    add-birthday [name] [birthday] - Add a birthday to a contact.
    show-birthday [name] - Show the birthday of a contact.
    birthdays - Show upcoming birthdays within 7 days.
    hello - Get a greeting from the bot.
    close or exit - Exit the program.".

(** A handler called from the loop: its reply is shown and the loop goes
    on with the book the handler left. *)
Definition handled (h : body) (book : AddressBook) : list event * status :=
  let '(book', o) := h book in
  ([display_message (input_error o)], Running book').

Section Persistence.

Context {pickle : Pickle}.

(** [save_data(book, filename)]: lines 145 and 146.  [None] for
    [filename] is a call without that argument. *)
Definition save_data (book : AddressBook) (filename : option string)
  (files : filesystem) : filesystem * outcome unit :=
  let filename :=
    match filename with
    | Some given => given
    | None => "addressbook.pkl"%string
    end in
  write_file files filename (pickle_dumps book).

(** [load_data(filename)]: lines 150 to 154.  Of the exceptions of [open]
    and [pickle.load] only [FileNotFoundError] is caught. *)
Definition load_data (filename : option string) (files : filesystem)
  : outcome AddressBook :=
  let filename :=
    match filename with
    | Some given => given
    | None => "addressbook.pkl"%string
    end in
  match read_file files filename with
  | Done data =>
      match pickle_loads data with
      | Some book => Done book
      | None => Failed UnpicklingError
      end
  | Failed FileNotFoundError => Done []
  | Failed e => Failed e
  end.

(** The chain of tests on [command] in the loop of [main].  An exception
    of [save_data] leaves the loop and [main]: nothing is said after
    it. *)
Definition dispatch (files : filesystem) (today : Datetime.date)
  (command : string) (args : list string) (book : AddressBook)
  : list event * status :=
  if existsb (String.eqb command) ["close"; "exit"]%string then
    match save_data book None files with
    | (files', Done _) =>
        ([Save book; Print (Text "Good bye!")], Terminated files')
    | (_, Failed e) => ([Save book], Uncaught e)
    end
  else if String.eqb command "hello" then
    ([Print (Text "How can I help you?")], Running book)
  else if String.eqb command "add" then handled (add_contact args) book
  else if String.eqb command "change" then handled (change_contact args) book
  else if String.eqb command "phone" then handled (show_phone args) book
  else if String.eqb command "all" then (display_contacts book, Running book)
  else if String.eqb command "add-birthday" then
    handled (add_birthday args) book
  else if String.eqb command "show-birthday" then
    handled (show_birthday args) book
  else if String.eqb command "birthdays" then
    handled (birthdays today args) book
  else if String.eqb command "help" then
    ([Print (Text help_text)], Running book)
  else ([Print (Text "Invalid command.")], Running book).

(** One turn of the loop on the line [input] returned.  The line
    [command, *args = parse_input(user_input)] unpacks a tuple, or the
    message of [input_error], a string, into its characters; unpacking
    nothing raises [ValueError].  The first character of an [Unexpected]
    text is no command. *)
Definition main_step (files : filesystem) (today : Datetime.date)
  (user_input : string) (book : AddressBook) : list event * status :=
  match parse_input user_input with
  | inl (command :: args) => dispatch files today command args book
  | inl [] => ([], Uncaught (Builtin ValueError))
  | inr (Text s) =>
      match characters s with
      | command :: args => dispatch files today command args book
      | [] => ([], Uncaught (Builtin ValueError))
      end
  | inr (Unexpected _) => ([Print (Text "Invalid command.")], Running book)
  end.

(** The loop, on what the calls of [input] have done so far.  When the
    list runs out the program is inside [input], waiting: the status is
    [Running].  [EOFError] is caught nowhere and leaves [main]. *)
Fixpoint main_loop (files : filesystem) (inputs : list input)
  (book : AddressBook) : list event * status :=
  match inputs with
  | [] => ([], Running book)
  | EndOfInput :: _ => ([], Uncaught EOFError)
  | Line today user_input :: inputs' =>
      match main_step files today user_input book with
      | (events, Running book') =>
          let '(events', st) := main_loop files inputs' book' in
          (events ++ events', st)
      | (events, st) => (events, st)
      end
  end.

(** [main]: an exception of [load_data] leaves it before anything is
    shown. *)
Definition main (files : filesystem) (inputs : list input)
  : list event * status :=
  match load_data None files with
  | Done book =>
      let '(events, st) := main_loop files inputs book in
      (Print (Text "Welcome to the assistant bot!") :: events, st)
  | Failed e => ([], Uncaught e)
  end.

End Persistence.

End Bot.

(** ** Predicates and tests used in the statements and proofs *)

(** A date the constructor accepts. *)
Definition valid_date (d : Datetime.date) : Prop :=
  Datetime._check_date_fields
    (Datetime.year d) (Datetime.month d) (Datetime.day d) = true.

(** A bounded search: a test that holds on [start .. start+n-1] by
    computation holds for every integer of that range. *)
Fixpoint all_from (P : Z -> bool) (start : Z) (n : nat) : bool :=
  match n with
  | O => true
  | S k => P start && all_from P (start + 1) k
  end.

(** The last step of [_ord2ymd]: month and day from the offset [n] in the
    year, and the test that they are right. *)
Definition month_part (leapyear : bool) (n : Z) : Z * Z :=
  let month := Z.shiftr (n + 50) 5 in
  let preceding :=
    Datetime._DAYS_BEFORE_MONTH month + (if (2 <? month) && leapyear then 1 else 0) in
  if n <? preceding then
    let month := month - 1 in
    let preceding :=
      preceding
      - (Datetime._DAYS_IN_MONTH month + (if (month =? 2) && leapyear then 1 else 0)) in
    (month, n - preceding + 1)
  else (month, n - preceding + 1).

Definition month_part_ok (leapyear : bool) (n : Z) : bool :=
  let '(m, d) := month_part leapyear n in
  (1 <=? m) && (m <=? 12) && (1 <=? d)
  && (d <=? (if (m =? 2) && leapyear then 29 else Datetime._DAYS_IN_MONTH m))
  && (Datetime._DAYS_BEFORE_MONTH m + (if (2 <? m) && leapyear then 1 else 0) + d =? n + 1).

(** What one turn of the loop of [get_upcoming_birthdays] appends. *)
Definition appended (e : option entry) : list entry :=
  match e with Some x => [x] | None => [] end.

(** A string of exactly ten characters, each a digit for [str.isdigit]. *)
Definition ten_digits (s : string) : Prop :=
  String.length s = 10%nat
  /\ forall c, In c (list_ascii_of_string s) -> isdigit_char c = true.





(** The invariant of the data model: every stored phone is ten digits and
    the stored birthday, if any, is accepted by [strptime]. *)
Definition record_ok (r : record) : Prop :=
  (forall p, In p (phones r) -> ten_digits p)
  /\ (forall b, birthday r = Some b ->
      exists d, Strptime.strptime b = Return d).

(** The calls that change a record, and the states they lead to from a
    new record.  The state after a call that raised counts as well. *)
Inductive call : Type :=
| Call_add_phone (phone : string)
| Call_remove_phone (phone : string)
| Call_edit_phone (old_phone new_phone : string)
| Call_add_birthday (b : string).

Definition run (c : call) : method unit :=
  match c with
  | Call_add_phone phone => add_phone phone
  | Call_remove_phone phone => remove_phone phone
  | Call_edit_phone old_phone new_phone => edit_phone old_phone new_phone
  | Call_add_birthday b => add_birthday b
  end.

Inductive reachable : record -> Prop :=
| reachable_init (n : string) : reachable (Record__init__ n)
| reachable_call (r : record) (c : call) :
    reachable r -> reachable (fst (run c r)).

(** A book as the program keeps it: one entry per key, every record
    stored under its own name, every record within the invariant of the
    data model. *)
Definition keys (book : AddressBook) : list string := map fst book.

Definition book_ok (book : AddressBook) : Prop :=
  NoDup (keys book)
  /\ forall k r, In (k, r) book -> name r = k /\ record_ok r.

(** No character of the string is whitespace, and there is at least
    one: a word, as [split] produces them. *)
Definition word (s : string) : Prop :=
  s <> EmptyString
  /\ forall c, In c (list_ascii_of_string s) -> isspace_char c = false.

(** An event that is not the text built from an unexpected exception. *)
Definition plain (ev : Bot.event) : Prop :=
  match ev with
  | Bot.Print (Bot.Unexpected _) => False
  | _ => True
  end.

(** What every turn of the loop of [main] keeps to, [book] being the book
    before the turn: nothing printed comes from an unexpected exception;
    the loop goes on with a book within the invariant if it was, having
    saved nothing, or it has called [save_data] with [book] and ends:
    with a good bye if the call returned, with its exception if not.  No
    other exception is left uncaught. *)
Definition well_behaved {pickle : Bot.Pickle} (files : Bot.filesystem)
  (book : AddressBook) (res : list Bot.event * Bot.status) : Prop :=
  let '(events, st) := res in
  Forall plain events
  /\ match st with
     | Bot.Running b =>
         (book_ok book -> book_ok b)
         /\ (forall b', ~ In (Bot.Save b') events)
     | Bot.Terminated files' =>
         events = [Bot.Save book; Bot.Print (Bot.Text "Good bye!")]
         /\ Bot.save_data book None files = (files', Bot.Done tt)
     | Bot.Uncaught e =>
         events = [Bot.Save book]
         /\ snd (Bot.save_data book None files) = Bot.Failed e
     end.

(** The promise of the documentation of [pickle]: what [pickle.load]
    builds from the bytes [pickle.dump] wrote for a book is a book with
    the same records. *)
Definition pickle_round_trip {pickle : Bot.Pickle} : Prop :=
  forall book : AddressBook,
    Bot.pickle_loads (Bot.pickle_dumps book) = Some book.

(** The file [main] loads and saves can be opened. *)
Definition accessible (files : Bot.filesystem) (filename : string) : Prop :=
  Bot.refuses files filename Bot.rb = false
  /\ Bot.refuses files filename Bot.wb = false.

(** The texts the three directives of "%d.%m.%Y" accept, said without the
    order of the alternatives. *)
Definition day_text (t : list ascii) : bool :=
  match t with
  | [a; b] =>
      (Ascii.eqb a "3" && in_range "0" "1" b)
      || (in_range "1" "2" a && is_decimal b)
      || (Ascii.eqb a "0" && in_range "1" "9" b)
      || (Ascii.eqb a " " && in_range "1" "9" b)
  | [b] => in_range "1" "9" b
  | _ => false
  end.

Definition month_text (t : list ascii) : bool :=
  match t with
  | [a; b] =>
      (Ascii.eqb a "1" && in_range "0" "2" b)
      || (Ascii.eqb a "0" && in_range "1" "9" b)
  | [b] => in_range "1" "9" b
  | _ => false
  end.

Definition year_text (t : list ascii) : bool :=
  match t with
  | [a; b; c; d] => is_decimal a && is_decimal b && is_decimal c && is_decimal d
  | _ => false
  end.

(** A way to read [s] as the items, whatever the order of the
    alternatives: the text of each group and what is left of [s]. *)
Inductive parses : list Strptime.item -> list ascii -> list (list ascii)
                   -> list ascii -> Prop :=
| parses_nil (s : list ascii) : parses [] s [] s
| parses_char (c : ascii) (items : list Strptime.item) (s : list ascii)
    (groups : list (list ascii)) (rest : list ascii) :
    parses items s groups rest ->
    parses (Strptime.Char c :: items) (c :: s) groups rest
| parses_group (alts : list (list Strptime.atom)) (alt : list Strptime.atom)
    (items : list Strptime.item) (text s : list ascii)
    (groups : list (list ascii)) (rest : list ascii) :
    In alt alts ->
    Forall2 (fun a c => Strptime.match_atom a c = true) alt text ->
    parses items s groups rest ->
    parses (Strptime.Group alts :: items) (text ++ s) (text :: groups) rest.

(** ** A serialiser to run the examples with

    Any [Pickle] with the round trip would do.  This one writes a book as
    text and does not claim to write what [pickle] writes. *)

(** A record under its key as tagged items: the phones, the birthday if
    there is one, the name and the key. *)
Definition items_of_record (kr : string * record) : list (ascii * string) :=
  let '(key, r) := kr in
  map (fun p => ("p"%char, p)) (phones r)
  ++ match birthday r with
     | Some b => [("b"%char, b)]
     | None => []
     end
  ++ [("n"%char, name r); ("k"%char, key)].

(** Reading goes from the last item to the first: a key opens a record at
    the head of the book and the other items fill it. *)
Definition add_item (item : ascii * string) (book : AddressBook)
  : option AddressBook :=
  let '(tag, text) := item in
  if Ascii.eqb tag "k" then
    Some ((text, mkRecord EmptyString [] None) :: book)
  else
    match book with
    | [] => None
    | (key, r) :: rest =>
        if Ascii.eqb tag "n" then
          Some ((key, mkRecord text (phones r) (birthday r)) :: rest)
        else if Ascii.eqb tag "b" then
          Some ((key, mkRecord (name r) (phones r) (Some text)) :: rest)
        else if Ascii.eqb tag "p" then
          Some ((key, mkRecord (name r) (text :: phones r) (birthday r))
                  :: rest)
        else None
    end.

Fixpoint book_of_items (items : list (ascii * string))
  : option AddressBook :=
  match items with
  | [] => Some []
  | item :: items' =>
      match book_of_items items' with
      | Some book => add_item item book
      | None => None
      end
  end.

(** An item as text: a dot before every character, then the tag. *)
Fixpoint escaped (s rest : string) : string :=
  match s with
  | EmptyString => rest
  | String c s' => String "." (String c (escaped s' rest))
  end.

Fixpoint text_of_items (items : list (ascii * string)) : string :=
  match items with
  | [] => EmptyString
  | (tag, text) :: items' => escaped text (String tag (text_of_items items'))
  end.

Fixpoint items_of_text (s : string) (current : list ascii)
  : option (list (ascii * string)) :=
  match s with
  | EmptyString =>
      match current with
      | [] => Some []
      | _ :: _ => None
      end
  | String c s' =>
      if Ascii.eqb c "." then
        match s' with
        | String x s'' => items_of_text s'' (x :: current)
        | EmptyString => None
        end
      else
        option_map (cons (c, string_of_list_ascii (rev current)))
          (items_of_text s' [])
  end.

Definition text_pickle : Bot.Pickle :=
  {| Bot.pickle_dumps := fun book =>
       list_byte_of_string (text_of_items (flat_map items_of_record book));
     Bot.pickle_loads := fun data =>
       match items_of_text (string_of_list_byte data) [] with
       | Some items => book_of_items items
       | None => None
       end |}.

(** ** Sample data *)

(** A directory without files in which every file can be opened. *)
Definition no_files : Bot.filesystem :=
  Bot.mkfilesystem (fun _ => None) (fun _ _ => false).

Definition bob : record := mkRecord "Bob" ["1234567890"%string] None.

(** The files a session leaves that saved a book with Ann in it. *)
Definition ann_files : Bot.filesystem :=
  fst (Bot.save_data (pickle := text_pickle)
         [("Ann"%string, fst (add_birthday "29.02.2024" (Record__init__ "Ann")))]
         None no_files).



(** Ann's birthday is on the leap day, Bob's early in January. *)
Definition ann_leap_day : record := fst (add_birthday "29.02.2024" (Record__init__ "Ann")).

Definition bob_january : record := fst (add_birthday "03.01.2000" bob).

Definition leap_day_book : AddressBook :=
  add_record (add_record [] ann_leap_day) bob_january.

(** * Properties *)

(** ** The calendar *)

Section Calendar.

Import Datetime.

Lemma all_from_spec (P : Z -> bool) (n : nat) :
  forall start, all_from P start n = true ->
  forall z, start <= z < start + Z.of_nat n -> P z = true.
Proof.
  induction n as [|k IH]; intros start H z Hz; [lia|].
  cbn [all_from] in H. apply andb_true_iff in H. destruct H as [H0 H1].
  destruct (Z.eq_dec z start) as [->|Hne]; [assumption|].
  apply (IH (start + 1) H1). lia.
Qed.

(** The leap-year pattern repeats every 400 years. *)
Lemma is_leap_shift (y q : Z) : _is_leap (y + 400 * q) = _is_leap y.
Proof.
  unfold _is_leap.
  replace (y + 400 * q) with (y + (100 * q) * 4) at 1 by ring.
  replace (y + 400 * q) with (y + (4 * q) * 100) at 1 by ring.
  replace (y + 400 * q) with (y + q * 400) by ring.
  now rewrite !Z.mod_add by lia.
Qed.

Lemma days_before_year_shift (y q : Z) :
  _days_before_year (y + 400 * q) = _days_before_year y + _DI400Y * q.
Proof.
  unfold _days_before_year, _DI400Y. cbv zeta.
  replace (y + 400 * q - 1) with (y - 1 + 400 * q) by ring.
  replace (y - 1 + 400 * q) with (y - 1 + (100 * q) * 4) at 2 by ring.
  replace (y - 1 + 400 * q) with (y - 1 + (4 * q) * 100) at 2 by ring.
  replace (y - 1 + 400 * q) with (y - 1 + q * 400) at 2 by ring.
  rewrite !Z.div_add by lia. ring.
Qed.

Lemma ymd2ord_shift (y m d q : Z) :
  _ymd2ord (y + 400 * q) m d = _ymd2ord y m d + _DI400Y * q.
Proof.
  unfold _ymd2ord, _days_before_month.
  rewrite days_before_year_shift, is_leap_shift. ring.
Qed.

Lemma days_in_month_shift (y m q : Z) :
  _days_in_month (y + 400 * q) m = _days_in_month y m.
Proof. unfold _days_in_month. now rewrite is_leap_shift. Qed.

Lemma ord2ymd_shift (n q : Z) :
  _ord2ymd (n + _DI400Y * q)
  = let '(y, m, d) := _ord2ymd n in (y + 400 * q, m, d).
Proof.
  unfold _ord2ymd. cbv zeta.
  replace (n + _DI400Y * q - 1) with (n - 1 + q * _DI400Y) by ring.
  rewrite Z.div_add, Z.mod_add by (unfold _DI400Y; lia).
  repeat match goal with
         | |- context [if ?b then _ else _] => destruct b
         end; f_equal; try f_equal; ring.
Qed.

Lemma is_leap_spec (y : Z) :
  _is_leap y = true <-> y mod 4 = 0 /\ (y mod 100 <> 0 \/ y mod 400 = 0).
Proof.
  unfold _is_leap.
  rewrite andb_true_iff, orb_true_iff, negb_true_iff, !Z.eqb_eq, Z.eqb_neq.
  tauto.
Qed.

Lemma year_part (r : Z) :
  0 <= r < _DI400Y ->
  let n100 := r / _DI100Y in
  let r1 := r mod _DI100Y in
  let n4 := r1 / _DI4Y in
  let r2 := r1 mod _DI4Y in
  let n1 := r2 / 365 in
  let n := r2 mod 365 in
  0 <= n100 <= 4 /\ 0 <= n4 <= 24 /\ 0 <= n1 <= 4 /\ 0 <= n < 365
  /\ r = 36524 * n100 + 1461 * n4 + 365 * n1 + n
  /\ (n100 = 4 -> n4 = 0 /\ n1 = 0 /\ n = 0)
  /\ (n1 = 4 -> n4 <= 23 /\ n = 0).
Proof.
  unfold _DI400Y, _DI100Y, _DI4Y. intros Hr. cbv zeta.
  Z.div_mod_to_equations. lia.
Qed.

(** Days before a year written as 1 + 100a + 4b + c. *)
Lemma days_before_year_digits (a b c : Z) :
  0 <= a <= 3 -> 0 <= b <= 24 -> 0 <= c <= 3 ->
  _days_before_year (1 + (a * 100 + b * 4 + c)) = 36524 * a + 1461 * b + 365 * c.
Proof.
  intros Ha Hb Hc. unfold _days_before_year. cbv zeta.
  Z.div_mod_to_equations. lia.
Qed.

Lemma is_leap_digits (a b c : Z) :
  0 <= a <= 3 -> 0 <= b <= 24 -> 0 <= c <= 3 ->
  _is_leap (1 + (a * 100 + b * 4 + c))
  = (c =? 3) && (negb (b =? 24) || (a =? 3)).
Proof.
  intros Ha Hb Hc.
  destruct (_is_leap _) eqn:E.
  - apply is_leap_spec in E. symmetry.
    rewrite andb_true_iff, orb_true_iff, negb_true_iff, !Z.eqb_eq, Z.eqb_neq.
    Z.div_mod_to_equations. lia.
  - symmetry. apply not_true_is_false. intros H. apply not_true_iff_false in E.
    apply E. apply is_leap_spec.
    rewrite andb_true_iff, orb_true_iff, negb_true_iff, !Z.eqb_eq, Z.eqb_neq in H.
    Z.div_mod_to_equations. lia.
Qed.

Lemma month_part_checked (leapyear : bool) (n : Z) :
  0 <= n < 365 + (if leapyear then 1 else 0) ->
  month_part_ok leapyear n = true.
Proof.
  intros Hn. destruct leapyear.
  - apply (all_from_spec (month_part_ok true) 366 0); [|lia].
    vm_compute. reflexivity.
  - apply (all_from_spec (month_part_ok false) 365 0); [|lia].
    vm_compute. reflexivity.
Qed.

Lemma ord2ymd_month_part (n : Z) :
  _ord2ymd n =
  let n0 := n - 1 in
  let n400 := n0 / _DI400Y in
  let r := n0 mod _DI400Y in
  let n100 := r / _DI100Y in
  let r1 := r mod _DI100Y in
  let n4 := r1 / _DI4Y in
  let r2 := r1 mod _DI4Y in
  let n1 := r2 / 365 in
  let n' := r2 mod 365 in
  let y := n400 * 400 + 1 + (n100 * 100 + n4 * 4 + n1) in
  if (n1 =? 4) || (n100 =? 4) then (y - 1, 12, 31)
  else
    let '(m, d) :=
      month_part ((n1 =? 3) && (negb (n4 =? 24) || (n100 =? 3))) n' in
    (y, m, d).
Proof.
  unfold _ord2ymd, month_part. cbv zeta.
  repeat match goal with
         | |- context [if ?b then _ else _] => destruct b
         end; reflexivity.
Qed.

Lemma ord2ymd_cycle (r : Z) :
  0 <= r < _DI400Y ->
  let '(y, m, d) := _ord2ymd (r + 1) in
  1 <= y <= 400 /\ 1 <= m <= 12 /\ 1 <= d <= _days_in_month y m
  /\ _ymd2ord y m d = r + 1
  /\ (r <= 145730 -> y <= 399).
Proof.
  intros Hr. rewrite ord2ymd_month_part. cbv zeta.
  replace (r + 1 - 1) with r by ring.
  rewrite (Z.div_small r _DI400Y), (Z.mod_small r _DI400Y) by exact Hr.
  pose proof (year_part r Hr) as H. cbv zeta in H.
  set (n100 := r / _DI100Y) in *. set (r1 := r mod _DI100Y) in *.
  set (n4 := r1 / _DI4Y) in *. set (r2 := r1 mod _DI4Y) in *.
  set (n1 := r2 / 365) in *. set (n := r2 mod 365) in *.
  destruct H as (H100 & H4 & H1 & Hn & Hsum & Hend100 & Hend1).
  unfold _DI400Y in Hr.
  change (0 * 400 + 1 + (n100 * 100 + n4 * 4 + n1))
    with (1 + (n100 * 100 + n4 * 4 + n1)).
  destruct ((n1 =? 4) || (n100 =? 4)) eqn:Hlast.
  - apply orb_true_iff in Hlast. rewrite !Z.eqb_eq in Hlast.
    assert (Hcase : n100 = 4 \/ (n100 <= 3 /\ n1 = 4)) by lia.
    destruct Hcase as [Hc|[Hc Hc1]].
    + destruct (Hend100 Hc) as (-> & -> & ->). rewrite Hc in *.
      subst r. vm_compute. intuition discriminate.
    + destruct (Hend1 Hc1) as (Hb & ->). rewrite Hc1 in *.
      replace (1 + (n100 * 100 + n4 * 4 + 4) - 1)
        with (1 + (n100 * 100 + n4 * 4 + 3)) by ring.
      unfold _ymd2ord, _days_in_month, _days_before_month.
      rewrite days_before_year_digits, is_leap_digits by lia.
      replace (n4 =? 24) with false by (symmetry; apply Z.eqb_neq; lia).
      change (12 =? 2) with false. change (2 <? 12) with true.
      change (3 =? 3) with true. cbn [andb orb negb].
      change (_DAYS_BEFORE_MONTH 12) with 334.
      change (_DAYS_IN_MONTH 12) with 31. lia.
  - apply orb_false_iff in Hlast. rewrite !Z.eqb_neq in Hlast.
    set (leapyear := (n1 =? 3) && (negb (n4 =? 24) || (n100 =? 3))).
    assert (Hleap : _is_leap (1 + (n100 * 100 + n4 * 4 + n1)) = leapyear)
      by (apply is_leap_digits; lia).
    assert (Hn' : 0 <= n < 365 + (if leapyear then 1 else 0))
      by (destruct leapyear; lia).
    pose proof (month_part_checked leapyear n Hn') as Hm.
    unfold month_part_ok in Hm.
    destruct (month_part leapyear n) as [m d].
    rewrite !andb_true_iff, !Z.leb_le, Z.eqb_eq in Hm.
    unfold _ymd2ord, _days_in_month, _days_before_month.
    rewrite days_before_year_digits, Hleap by lia.
    lia.
Qed.

(** [fromordinal] gives a date the constructor accepts and [toordinal]
    takes it back, on the whole range of ordinals. *)
Lemma fromordinal_toordinal (n : Z) :
  1 <= n <= _MAXORDINAL ->
  valid_date (fromordinal n) /\ toordinal (fromordinal n) = n.
Proof.
  intros Hn.
  set (q := (n - 1) / _DI400Y). set (r := (n - 1) mod _DI400Y).
  assert (Hqr : n = r + 1 + _DI400Y * q).
  { unfold q, r. pose proof (Z.div_mod (n - 1) _DI400Y). unfold _DI400Y in *. lia. }
  assert (Hr : 0 <= r < _DI400Y).
  { unfold r. apply Z.mod_pos_bound. unfold _DI400Y. lia. }
  assert (Hq : 0 <= q <= 24).
  { unfold _MAXORDINAL, _DI400Y in *. lia. }
  pose proof (ord2ymd_cycle r Hr) as Hc.
  unfold valid_date, fromordinal, toordinal. rewrite Hqr, ord2ymd_shift.
  destruct (_ord2ymd (r + 1)) as [[y m] d]. cbn [year month day].
  split.
  - unfold _check_date_fields, MINYEAR, MAXYEAR.
    rewrite days_in_month_shift, !andb_true_iff, !Z.leb_le.
    unfold _MAXORDINAL, _DI400Y in *. lia.
  - rewrite ymd2ord_shift. lia.
Qed.

Lemma check_date_fields_spec (y m d : Z) :
  _check_date_fields y m d = true <->
  1 <= y <= 9999 /\ 1 <= m <= 12 /\ 1 <= d <= _days_in_month y m.
Proof.
  unfold _check_date_fields, MINYEAR, MAXYEAR.
  rewrite !andb_true_iff, !Z.leb_le. lia.
Qed.

Lemma date_new_Return (y m d : Z) (x : date) :
  date_new y m d = Return x <-> _check_date_fields y m d = true /\ x = mkdate y m d.
Proof.
  unfold date_new. destruct (_check_date_fields y m d); split.
  - intros [= <-]. auto.
  - intros [_ ->]. reflexivity.
  - discriminate.
  - intros [[=] _].
Qed.

(** Every date has an ordinal between 1 and [_MAXORDINAL]. *)
Lemma toordinal_range (d : date) :
  valid_date d -> 1 <= toordinal d <= _MAXORDINAL.
Proof.
  unfold valid_date, toordinal. destruct d as [y m d]. cbn [year month day].
  rewrite check_date_fields_spec. intros (Hy & Hm & Hd).
  unfold _ymd2ord, _days_before_month, _days_in_month, _days_before_year,
    _MAXORDINAL in *.
  cbv zeta.
  assert (Hl : _is_leap y = true -> y <= 9996).
  { rewrite is_leap_spec. intros [H4 _]. Z.div_mod_to_equations. lia. }
  assert (Hm' : m = 1 \/ m = 2 \/ m = 3 \/ m = 4 \/ m = 5 \/ m = 6 \/ m = 7
                \/ m = 8 \/ m = 9 \/ m = 10 \/ m = 11 \/ m = 12) by lia.
  destruct (_is_leap y);
    repeat (destruct Hm' as [->|Hm']); try subst m;
    cbn in Hd |- *; Z.div_mod_to_equations; lia.
Qed.

End Calendar.


(** ** The steps of the birthday query *)

Section Query.

Import Datetime.

Lemma bind_Return {A B : Type} (c : result A) (k : A -> result B) (b : B) :
  bind c k = Return b <-> exists a, c = Return a /\ k a = Return b.
Proof.
  destruct c as [a|e]; cbn; split.
  - intros H. exists a. auto.
  - intros (a' & [= <-] & H). exact H.
  - discriminate.
  - intros (a' & [=] & _).
Qed.

Lemma replace_year_Return (self : date) (y : Z) (x : date) :
  replace_year self y = Return x <->
  valid_date (mkdate y (month self) (day self))
  /\ x = mkdate y (month self) (day self).
Proof. unfold replace_year, valid_date. apply date_new_Return. Qed.

(** What [project] returns is a date, in this year or the next, with the
    month and day of the birthday, and it is not before [today]. *)
Lemma project_Return (today bd p : date) :
  project today bd = Return p ->
  valid_date p /\ month p = month bd /\ day p = day bd
  /\ (year p = year today \/ year p = year today + 1)
  /\ date_lt p today = false.
Proof.
  unfold project. rewrite bind_Return. intros (d & Hd & H).
  apply replace_year_Return in Hd. destruct Hd as [Hv ->].
  destruct (date_lt _ today) eqn:Hlt.
  - apply replace_year_Return in H. destruct H as [Hv' ->].
    cbn [year month day]. repeat split; auto.
    unfold date_lt. cbn [year month day].
    rewrite orb_false_iff, andb_false_iff, Z.ltb_ge, Z.eqb_neq. lia.
  - injection H as <-. cbn [year month day]. repeat split; auto.
Qed.

(** The move off a weekend never leaves the range of dates, and lands on
    the Monday after. *)
Lemma congratulation_spec (p : date) :
  valid_date p ->
  exists c,
    congratulation p = Return c /\ valid_date c
    /\ (weekday p = 5 -> toordinal c = toordinal p + 2 /\ weekday c = 0)
    /\ (weekday p = 6 -> toordinal c = toordinal p + 1 /\ weekday c = 0)
    /\ (weekday p < 5 -> c = p).
Proof.
  intros Hv. pose proof (toordinal_range p Hv) as Hr.
  unfold congratulation. cbv zeta.
  destruct (5 <=? weekday p) eqn:Hw.
  - apply Z.leb_le in Hw.
    assert (Hlt : 0 <= weekday p < 7) by (apply Z.mod_pos_bound; lia).
    set (o := toordinal p + (7 - weekday p)).
    assert (Ho : 1 <= o <= _MAXORDINAL /\ (o + 6) mod 7 = 0).
    { unfold o, weekday, _MAXORDINAL in *. Z.div_mod_to_equations. lia. }
    destruct Ho as [Ho Hmon].
    destruct (fromordinal_toordinal o Ho) as [Hvc Hoc].
    exists (fromordinal o). unfold add_days. fold o.
    replace ((0 <? o) && (o <=? _MAXORDINAL)) with true
      by (symmetry; apply andb_true_iff; rewrite Z.ltb_lt, Z.leb_le; lia).
    repeat split; auto; try lia;
      try (unfold weekday at 1; rewrite Hoc; exact Hmon);
      rewrite Hoc; unfold o; lia.
  - apply Z.leb_gt in Hw. exists p. repeat split; auto; lia.
Qed.

(** The loop appends, record after record, what the body gives, and stops
    at the first record on which the body raises. *)
Lemma upcoming_loop_Return (today : date) (records : list record) :
  forall acc l,
    upcoming_loop today records acc = Return l <->
    exists es,
      Forall2 (fun r e => upcoming_entry today r = Return e) records es
      /\ l = acc ++ flat_map appended es.
Proof.
  induction records as [|r rs IH]; intros acc l; cbn [upcoming_loop].
  - split.
    + intros [= <-]. exists []. split; [constructor|]. cbn. now rewrite app_nil_r.
    + intros (es & HF & ->). inversion HF; subst. cbn. now rewrite app_nil_r.
  - rewrite bind_Return. split.
    + intros (e & He & H). apply IH in H. destruct H as (es & HF & ->).
      exists (e :: es). split; [constructor; assumption|].
      destruct e; cbn; now rewrite <- ?app_assoc.
    + intros (es & HF & ->). inversion HF as [|? e ? es' He HF']; subst.
      exists e. split; [assumption|]. apply IH. exists es'. split; [assumption|].
      destruct e; cbn; now rewrite <- ?app_assoc.
Qed.

Lemma upcoming_loop_Raise (today : date) (records : list record) :
  forall acc x r rs,
    upcoming_entry today r = Raise x ->
    Forall (fun r' => exists e, upcoming_entry today r' = Return e) records ->
    upcoming_loop today (records ++ r :: rs) acc = Raise x.
Proof.
  induction records as [|r0 rs0 IH]; intros acc x r rs Hr HF; cbn.
  - now rewrite Hr.
  - inversion HF as [|? ? [e He] HF']; subst. rewrite He. cbn. now apply IH.
Qed.

(** Whatever the query returns holds the entry of every record on which
    the body appended one. *)
Lemma upcoming_entry_In (today : date) (book : AddressBook) (l : list entry)
  (r : record) (e : entry) :
  get_upcoming_birthdays today book = Return l ->
  In r (values book) ->
  upcoming_entry today r = Return (Some e) ->
  In e l.
Proof.
  unfold get_upcoming_birthdays. intros H Hin He.
  apply upcoming_loop_Return in H. destruct H as (es & HF & ->). cbn.
  revert Hin. induction HF as [|r' e' rs es' Hr' HF IH]; cbn; [tauto|].
  intros [->|Hin].
  - rewrite He in Hr'. injection Hr' as <-. cbn. auto.
  - apply in_or_app. right. auto.
Qed.

End Query.

(** ** Phones and birthdays of a record *)

Section Records.

Lemma isdigit_forallb (s : string) :
  String.length s = 10%nat ->
  isdigit s = forallb isdigit_char (list_ascii_of_string s).
Proof.
  unfold isdigit. destruct s; [discriminate|reflexivity].
Qed.

Lemma Phone_Return (s : string) : Phone s = Return s <-> ten_digits s.
Proof.
  unfold Phone, ten_digits, len.
  destruct (Z.of_nat (String.length s) =? 10) eqn:Hl.
  - apply Z.eqb_eq in Hl. assert (Hl' : String.length s = 10%nat) by lia.
    rewrite (isdigit_forallb s Hl'). cbn [andb].
    destruct (forallb isdigit_char (list_ascii_of_string s)) eqn:Hd.
    + rewrite forallb_forall in Hd. tauto.
    + split; [discriminate|]. intros [_ H].
      rewrite <- forallb_forall in H. congruence.
  - apply Z.eqb_neq in Hl. cbn [andb]. split; [discriminate|]. lia.
Qed.

Lemma Phone_Raise (s : string) : Phone s = Raise ValueError <-> ~ ten_digits s.
Proof.
  rewrite <- Phone_Return. unfold Phone.
  destruct ((len s =? 10) && isdigit s); split; congruence.
Qed.

Lemma Phone_value (s v : string) : Phone s = Return v -> v = s.
Proof. unfold Phone. destruct ((len s =? 10) && isdigit s); congruence. Qed.

Lemma add_phone_Return (s : string) (r : record) :
  ten_digits s ->
  add_phone s r = (mkRecord (name r) (phones r ++ [s]) (birthday r), Return tt).
Proof.
  intros H. apply Phone_Return in H.
  unfold add_phone, mbind, mlift. now rewrite H.
Qed.

Lemma add_phone_Raise (s : string) (r : record) :
  ~ ten_digits s -> add_phone s r = (r, Raise ValueError).
Proof.
  intros H. apply Phone_Raise in H.
  unfold add_phone, mbind, mlift. now rewrite H.
Qed.

Lemma find_phone_in_Some (l : list string) (phone v : string) :
  find_phone_in l phone = Some v -> v = phone /\ In phone l.
Proof.
  induction l as [|x l IH]; cbn; [discriminate|].
  destruct (String.eqb x phone) eqn:E.
  - apply String.eqb_eq in E. intros [= <-]. auto.
  - intros H. destruct (IH H). auto.
Qed.

Lemma find_phone_in_None (l : list string) (phone : string) :
  find_phone_in l phone = None <-> ~ In phone l.
Proof.
  induction l as [|x l IH]; cbn; [tauto|].
  destruct (String.eqb x phone) eqn:E.
  - apply String.eqb_eq in E. split; [discriminate|]. tauto.
  - apply String.eqb_neq in E. rewrite IH. tauto.
Qed.

Lemma find_phone_in_In (l : list string) (phone : string) :
  In phone l -> find_phone_in l phone = Some phone.
Proof.
  intros H. destruct (find_phone_in l phone) as [v|] eqn:E.
  - apply find_phone_in_Some in E. destruct E as [-> _]. reflexivity.
  - apply find_phone_in_None in E. contradiction.
Qed.

(** [list_remove] takes out the first occurrence and nothing else. *)
Lemma list_remove_first (l1 l2 : list string) (phone : string) :
  ~ In phone l1 -> list_remove (l1 ++ phone :: l2) phone = l1 ++ l2.
Proof.
  induction l1 as [|x l1 IH]; cbn; intros H.
  - now rewrite String.eqb_refl.
  - destruct (String.eqb x phone) eqn:E.
    + apply String.eqb_eq in E. tauto.
    + f_equal. apply IH. tauto.
Qed.

Lemma In_list_remove (l : list string) (phone x : string) :
  In x (list_remove l phone) -> In x l.
Proof.
  induction l as [|y l IH]; cbn; [tauto|].
  destruct (String.eqb y phone); cbn; intuition.
Qed.

Lemma In_first_occurrence (l : list string) (phone : string) :
  In phone l -> exists l1 l2, l = l1 ++ phone :: l2 /\ ~ In phone l1.
Proof.
  induction l as [|x l IH]; cbn; [tauto|]. intros H.
  destruct (string_dec x phone) as [->|Hne].
  - exists [], l. auto.
  - destruct H as [H|H]; [contradiction|].
    destruct (IH H) as (l1 & l2 & -> & Hn).
    exists (x :: l1), l2. split; [reflexivity|]. cbn. tauto.
Qed.

Lemma Birthday_Return (b v : string) :
  Birthday b = Return v -> v = b /\ exists d, Strptime.strptime b = Return d.
Proof.
  unfold Birthday. destruct (Strptime.strptime b) as [d|[]]; try discriminate.
  intros [= <-]. eauto.
Qed.

Lemma run_preserves (c : call) (r : record) :
  record_ok r -> record_ok (fst (run c r)).
Proof.
  intros [Hp Hb]. destruct c as [phone|phone|old new|b]; cbn [run].
  - unfold add_phone, mbind, mlift.
    destruct (Phone phone) as [v|e] eqn:E; cbn; [|split; assumption].
    pose proof (Phone_value _ _ E) as ->. apply Phone_Return in E.
    split; [|assumption]. cbn. intros p [Hin|[<-|[]]]%in_app_or; auto.
  - unfold remove_phone. destruct (find_phone r phone); cbn; [|split; assumption].
    split; [|assumption]. cbn. intros p Hin%In_list_remove. auto.
  - unfold edit_phone. destruct (find_phone r old); cbn; [|split; assumption].
    unfold mbind, add_phone, mlift.
    destruct (Phone new) as [v|e] eqn:E; cbn; [|split; assumption].
    pose proof (Phone_value _ _ E) as ->. apply Phone_Return in E.
    unfold remove_phone, find_phone. cbn [phones name birthday].
    destruct (find_phone_in (phones r ++ [new]) old); cbn.
    + split; [|assumption]. cbn.
      intros p [Hin|[<-|[]]]%In_list_remove%in_app_or; auto.
    + split; [|assumption]. cbn. intros p [Hin|[<-|[]]]%in_app_or; auto.
  - unfold add_birthday, mbind, mlift.
    destruct (Birthday b) as [v|e] eqn:E; cbn; [|split; assumption].
    apply Birthday_Return in E. destruct E as [-> Hd].
    split; [assumption|]. cbn. intros b' [= <-]. exact Hd.
Qed.

End Records.

(** * Main results *)

Section PhoneClaims.






(** C6.  [edit_phone(old, new)] raises [ValueError] and changes nothing
    when [old] is not among the phones.  When it is, a valid [new] is
    appended and the first occurrence of [old] is taken out; an invalid
    [new] makes the call raise [ValueError]. *)
Theorem edit_phone_spec (r : record) (old_phone new_phone : string) :
  (~ In old_phone (phones r) ->
   edit_phone old_phone new_phone r = (r, Raise ValueError))
  /\ (forall l1 l2,
        phones r = l1 ++ old_phone :: l2 -> ~ In old_phone l1 ->
        ten_digits new_phone ->
        edit_phone old_phone new_phone r
        = (mkRecord (name r) (l1 ++ l2 ++ [new_phone]) (birthday r), Return tt))
  /\ (In old_phone (phones r) -> ~ ten_digits new_phone ->
      edit_phone old_phone new_phone r = (r, Raise ValueError)).
Proof.
  unfold edit_phone, find_phone. repeat split.
  - intros H. apply find_phone_in_None in H. now rewrite H.
  - intros l1 l2 Hl Hn1 Hnew.
    assert (Hin : In old_phone (phones r))
      by (rewrite Hl; apply in_or_app; right; left; reflexivity).
    rewrite (find_phone_in_In _ _ Hin).
    unfold mbind. rewrite (add_phone_Return _ _ Hnew).
    unfold remove_phone, find_phone. cbn [phones name birthday].
    rewrite (find_phone_in_In (phones r ++ [new_phone]) old_phone)
      by (apply in_or_app; auto).
    rewrite Hl, <- app_assoc. cbn [app].
    rewrite (list_remove_first l1 (l2 ++ [new_phone]) old_phone Hn1).
    reflexivity.
  - intros Hin Hnew. rewrite (find_phone_in_In _ _ Hin).
    unfold mbind. now rewrite (add_phone_Raise _ _ Hnew).
Qed.

Lemma edit_phone_spec_witness :
  edit_phone "5555555555" "0000000000" bob = (bob, Raise ValueError)
  /\ edit_phone "1234567890" "0000000000" bob
     = (mkRecord "Bob" ["0000000000"%string] None, Return tt)
  /\ edit_phone "1234567890" "12345" bob = (bob, Raise ValueError).
Proof.
  destruct (edit_phone_spec bob "5555555555" "0000000000") as (H1 & _ & _).
  destruct (edit_phone_spec bob "1234567890" "0000000000") as (_ & H2 & _).
  destruct (edit_phone_spec bob "1234567890" "12345") as (_ & _ & H3).
  split; [|split].
  - apply H1. cbn. intros [H|[]]. discriminate H.
  - apply (H2 [] []).
    + reflexivity.
    + cbn. tauto.
    + apply Phone_Return. reflexivity.
  - apply H3.
    + cbn. auto.
    + apply Phone_Raise. reflexivity.
Defined.

(** C8.  When [old] is a stored valid phone and [new] fails the phone
    test, [edit_phone(old, new)] raises [ValueError] and leaves the record
    exactly as it was: [old] is still there and [new] was not added. *)
Theorem edit_phone_failure_atomic (r : record) (old_phone new_phone : string) :
  In old_phone (phones r) ->
  ten_digits old_phone ->
  ~ ten_digits new_phone ->
  edit_phone old_phone new_phone r = (r, Raise ValueError)
  /\ In old_phone (phones (fst (edit_phone old_phone new_phone r)))
  /\ phones (fst (edit_phone old_phone new_phone r)) = phones r.
Proof.
  intros Hin _ Hnew.
  assert (H : edit_phone old_phone new_phone r = (r, Raise ValueError)).
  { unfold edit_phone, find_phone. rewrite (find_phone_in_In _ _ Hin).
    unfold mbind. now rewrite (add_phone_Raise _ _ Hnew). }
  rewrite H. cbn. auto.
Qed.

Lemma edit_phone_failure_atomic_witness :
  edit_phone "1234567890" "12345abcde" bob = (bob, Raise ValueError)
  /\ In "1234567890"%string
       (phones (fst (edit_phone "1234567890" "12345abcde" bob)))
  /\ phones (fst (edit_phone "1234567890" "12345abcde" bob)) = phones bob.
Proof.
  apply (edit_phone_failure_atomic bob "1234567890" "12345abcde").
  - cbn. auto.
  - apply Phone_Return. reflexivity.
  - apply Phone_Raise. reflexivity.
Defined.



(** C9 does not hold for every record: one that already holds [p] holds it
    twice after [add_phone(p)], and [remove_phone(p)] takes out one
    occurrence only, so [find_phone(p)] still finds it. *)
Lemma add_remove_find_counterexample :
  let p := "1234567890"%string in
  let r1 := fst (add_phone p bob) in
  let r2 := fst (remove_phone p r1) in
  reachable bob /\ ten_digits p
  /\ find_phone r1 p = Some p
  /\ snd (remove_phone p r1) = Return tt
  /\ find_phone r2 p <> None.
Proof.
  cbv zeta. split; [|split; [apply Phone_Return; reflexivity|]].
  - apply (reachable_call (Record__init__ "Bob") (Call_add_phone "1234567890")).
    apply reachable_init.
  - repeat split; try reflexivity. discriminate.
Qed.

(** C9, amended.  For a valid phone [p], after [add_phone(p)] the call
    [find_phone(p)] returns a phone of value [p], and [remove_phone(p)]
    then returns; after it [find_phone(p)] gives [None] exactly when [p]
    was not among the phones before the addition, and then the phones are
    what they were. *)
Theorem add_find_remove (r : record) (p : string) :
  ten_digits p ->
  let r1 := fst (add_phone p r) in
  let r2 := fst (remove_phone p r1) in
  snd (add_phone p r) = Return tt
  /\ find_phone r1 p = Some p
  /\ snd (remove_phone p r1) = Return tt
  /\ (find_phone r2 p = None <-> ~ In p (phones r))
  /\ (~ In p (phones r) -> r2 = r).
Proof.
  intros Hp. cbv zeta. rewrite (add_phone_Return p r Hp). cbn [fst snd].
  assert (Hin : In p (phones r ++ [p])) by (apply in_or_app; cbn; auto).
  unfold remove_phone, find_phone. cbn [phones name birthday].
  rewrite (find_phone_in_In _ _ Hin). cbn [fst snd phones].
  repeat split; auto.
  - rewrite find_phone_in_None. intros Hn Hr. apply Hn.
    destruct (In_first_occurrence _ _ Hr) as (l1 & l2 & -> & Hn1).
    rewrite <- app_assoc. cbn [app]. rewrite (list_remove_first l1 _ p Hn1).
    destruct l2 as [|x l2]; apply in_or_app; right; cbn; auto.
    right. apply in_or_app. cbn. auto.
  - intros Hn. rewrite (list_remove_first (phones r) [] p Hn), app_nil_r.
    now apply find_phone_in_None.
  - intros Hn. rewrite (list_remove_first (phones r) [] p Hn), app_nil_r.
    destruct r. reflexivity.
Qed.

Lemma add_find_remove_witness :
  let p := "0987654321"%string in
  ten_digits p
  /\ find_phone (fst (add_phone p bob)) p = Some p
  /\ find_phone (fst (remove_phone p (fst (add_phone p bob)))) p = None.
Proof.
  cbv zeta.
  assert (Hp : ten_digits "0987654321") by (apply Phone_Return; reflexivity).
  destruct (add_find_remove bob "0987654321" Hp) as (_ & H1 & _ & H2 & _).
  split; [exact Hp|]. split; [exact H1|].
  apply H2. cbn. intros [H|[]]. discriminate H.
Defined.

End PhoneClaims.

Section BirthdayClaims.

Import Datetime.

Lemma in_window_spec (today p : date) :
  in_window today p = true <-> 0 <= days_between p today <= 7.
Proof.
  unfold in_window. cbv zeta. rewrite andb_true_iff, !Z.leb_le. tauto.
Qed.

(** When the body of the loop appends an entry, and which one. *)
Lemma upcoming_entry_Some (today : date) (r : record) (e : entry) :
  upcoming_entry today r = Return (Some e) <->
  exists value bd p c,
    birthday r = Some value
    /\ Strptime.strptime value = Return bd
    /\ project today bd = Return p
    /\ 0 <= days_between p today <= 7
    /\ congratulation p = Return c
    /\ e = mkEntry (name r) (strftime c).
Proof.
  unfold upcoming_entry. split.
  - destruct (birthday r) as [value|]; [|discriminate].
    intros (bd & Hbd & H)%bind_Return. apply bind_Return in H.
    destruct H as (p & Hp & H).
    destruct (in_window today p) eqn:Hw; [|discriminate].
    apply bind_Return in H. destruct H as (c & Hc & [= <-]).
    apply in_window_spec in Hw. exists value, bd, p, c.
    repeat split; auto; apply Hw.
  - intros (value & bd & p & c & -> & Hbd & Hp & Hw & Hc & ->).
    apply in_window_spec in Hw.
    rewrite Hbd. cbn [bind]. rewrite Hp. cbn [bind]. rewrite Hw, Hc.
    reflexivity.
Qed.

(** On a book where the query returns, the list returned holds exactly the
    entries of the records whose projected birthday is at most seven days
    after [today], in the order of the book. *)
Lemma get_upcoming_birthdays_window (today : date) (book : AddressBook)
  (l : list entry) :
  get_upcoming_birthdays today book = Return l ->
  forall e,
    In e l <->
    exists r value bd p c,
      In r (values book)
      /\ birthday r = Some value
      /\ Strptime.strptime value = Return bd
      /\ project today bd = Return p
      /\ 0 <= days_between p today <= 7
      /\ congratulation p = Return c
      /\ e = mkEntry (name r) (strftime c).
Proof.
  intros H e. split.
  - unfold get_upcoming_birthdays in H. apply upcoming_loop_Return in H.
    destruct H as (es & HF & ->). cbn [app].
    induction HF as [|r o rs es' Hr HF IH]; cbn; [tauto|].
    intros [Hin|Hin]%in_app_or.
    + destruct o as [x|]; cbn in Hin; [|tauto].
      destruct Hin as [<-|[]]. apply upcoming_entry_Some in Hr.
      destruct Hr as (value & bd & p & c & Hr).
      exists r, value, bd, p, c. tauto.
    + destruct (IH Hin) as (r' & value & bd & p & c & Hin' & Hr').
      exists r', value, bd, p, c. tauto.
  - intros (r & value & bd & p & c & Hin & Hr).
    apply (upcoming_entry_In today book l r e H Hin).
    apply upcoming_entry_Some. exists value, bd, p, c. exact Hr.
Qed.

(** On 01.01.2025 a contact born on a 3 January of any year gets the
    entry 03.01.2025, a Friday: alone in the book the contact is what the
    query returns, and in any book on which the query returns the entry is
    in the list. *)
Lemma upcoming_january_third (n value : string) (ps : list string) (y : Z) :
  Strptime.strptime value = Return (mkdate y 1 3) ->
  let today := mkdate 2025 1 1 in
  let r := mkRecord n ps (Some value) in
  upcoming_entry today r = Return (Some (mkEntry n "03.01.2025"))
  /\ get_upcoming_birthdays today (add_record [] r)
     = Return [mkEntry n "03.01.2025"]
  /\ (forall book l,
        In r (values book) ->
        get_upcoming_birthdays today book = Return l ->
        In (mkEntry n "03.01.2025") l).
Proof.
  intros H. cbv zeta.
  assert (He : upcoming_entry (mkdate 2025 1 1) (mkRecord n ps (Some value))
               = Return (Some (mkEntry n "03.01.2025"))).
  { unfold upcoming_entry. cbn [birthday]. rewrite H. reflexivity. }
  split; [exact He|]. split.
  - unfold get_upcoming_birthdays, add_record. cbn [dict_set values map snd
      upcoming_loop]. rewrite He. reflexivity.
  - intros book l Hin Hl. exact (upcoming_entry_In _ book l _ _ Hl Hin He).
Qed.

(** A birthday on 29 February cannot be moved into a year that is not a
    leap year: the body of the loop raises, and with it the query, whatever
    the records after it and provided the records before it raise
    nothing. *)
Lemma leap_day_entry_raises (today : date) (r : record) (value : string)
  (bd : date) :
  birthday r = Some value ->
  Strptime.strptime value = Return bd ->
  month bd = 2 -> day bd = 29 ->
  _is_leap (year today) = false ->
  upcoming_entry today r = Raise ValueError.
Proof.
  intros Hb Hbd Hm Hd Hl. unfold upcoming_entry. rewrite Hb, Hbd.
  cbn [bind]. unfold project, replace_year, date_new, _check_date_fields,
    _days_in_month. rewrite Hm, Hd, Hl.
  change (2 =? 2) with true. change (_DAYS_IN_MONTH 2) with 28.
  change (29 <=? 28) with false. cbn [andb].
  rewrite !andb_false_r. reflexivity.
Qed.

Lemma leap_day_query_raises (today : date) (book : AddressBook)
  (before after : list record) (r : record) (value : string) (bd : date) :
  values book = before ++ r :: after ->
  Forall (fun r' => exists e, upcoming_entry today r' = Return e) before ->
  birthday r = Some value ->
  Strptime.strptime value = Return bd ->
  month bd = 2 -> day bd = 29 ->
  _is_leap (year today) = false ->
  get_upcoming_birthdays today book = Raise ValueError.
Proof.
  intros Hv Hbefore Hb Hbd Hm Hd Hl. unfold get_upcoming_birthdays.
  rewrite Hv. apply upcoming_loop_Raise; [|exact Hbefore].
  exact (leap_day_entry_raises today r value bd Hb Hbd Hm Hd Hl).
Qed.

(** C1, at the input where it fails.  On 01.01.2025, in a book that holds
    Ann (birthday "29.02.2024", accepted when it was stored) and Bob
    (birthday "03.01.2000"), Bob's projected birthday 03.01.2025 is in the
    window and the body of the loop gives his entry, yet the query raises
    [ValueError] on Ann's record and returns nothing. *)
Theorem upcoming_birthdays_leap_day_book :
  let today := mkdate 2025 1 1 in
  values leap_day_book = [ann_leap_day; bob_january]
  /\ reachable ann_leap_day /\ reachable bob_january
  /\ birthday ann_leap_day = Some "29.02.2024"%string
  /\ upcoming_entry today bob_january
     = Return (Some (mkEntry "Bob" "03.01.2025"))
  /\ get_upcoming_birthdays today leap_day_book = Raise ValueError.
Proof.
  cbv zeta. split; [reflexivity|]. split; [|split].
  - apply (reachable_call (Record__init__ "Ann") (Call_add_birthday "29.02.2024")).
    apply reachable_init.
  - apply (reachable_call _ (Call_add_birthday "03.01.2000")).
    apply (reachable_call (Record__init__ "Bob") (Call_add_phone "1234567890")).
    apply reachable_init.
  - repeat split; reflexivity.
Qed.

(** Where the birthday can be moved into the year of [today], giving [d]:
    if [d] is not before [today] the projected date is [d]; if [d] is
    before [today] the projected date is the birthday moved into the next
    year, when that can be done, and an entry reported for the record
    carries the congratulation date computed from that date. *)
Lemma project_this_year_or_next (today : date) (r : record)
  (value : string) (bd d : date) :
  birthday r = Some value ->
  Strptime.strptime value = Return bd ->
  replace_year bd (year today) = Return d ->
  d = mkdate (year today) (month bd) (day bd)
  /\ (date_lt d today = false -> project today bd = Return d)
  /\ (date_lt d today = true ->
      project today bd = replace_year bd (year today + 1)
      /\ (forall p, project today bd = Return p ->
            p = mkdate (year today + 1) (month bd) (day bd))
      /\ (forall e, upcoming_entry today r = Return (Some e) ->
            exists c,
              congratulation (mkdate (year today + 1) (month bd) (day bd))
              = Return c
              /\ e = mkEntry (name r) (strftime c))).
Proof.
  intros Hb Hbd Hd.
  assert (Hproj : project today bd
                  = if date_lt d today
                    then replace_year bd (year today + 1)
                    else Return d).
  { unfold project. rewrite Hd. reflexivity. }
  split; [apply replace_year_Return in Hd; tauto|].
  split; intros Hlt; rewrite Hlt in Hproj; [assumption|].
  split; [assumption|]. split.
  - intros p Hp. rewrite Hproj in Hp. apply replace_year_Return in Hp. tauto.
  - intros e He. apply upcoming_entry_Some in He.
    destruct He as (value' & bd' & p & c & Hb' & Hbd' & Hp & _ & Hc & ->).
    rewrite Hb in Hb'. injection Hb' as <-.
    rewrite Hbd in Hbd'. injection Hbd' as <-.
    rewrite Hproj in Hp. apply replace_year_Return in Hp. destruct Hp as [_ ->].
    exists c. auto.
Qed.

Lemma project_this_year_or_next_witness :
  let today := mkdate 2025 12 30 in
  let r := mkRecord "Bob" [] (Some "02.01.2000"%string) in
  project today (mkdate 2000 1 2) = Return (mkdate 2026 1 2)
  /\ upcoming_entry today r = Return (Some (mkEntry "Bob" "02.01.2026"))
  /\ exists c, congratulation (mkdate 2026 1 2) = Return c
               /\ mkEntry "Bob" "02.01.2026" = mkEntry "Bob" (strftime c).
Proof.
  cbv zeta.
  destruct (project_this_year_or_next (mkdate 2025 12 30)
              (mkRecord "Bob" [] (Some "02.01.2000"%string)) "02.01.2000"
              (mkdate 2000 1 2) (mkdate 2025 1 2)
              eq_refl eq_refl eq_refl) as (_ & _ & H).
  destruct (H eq_refl) as (Hp & _ & He).
  split; [rewrite Hp; reflexivity|]. split; [reflexivity|].
  apply (He (mkEntry "Bob" "02.01.2026")). reflexivity.
Defined.

(** C2.  The projection is not made for every record with a birthday.
    Ann's birthday, 29.02.2024, was accepted when it was stored.  On
    1 March 2024 the date in the current year, 29.02.2024, exists and is
    before today; moving the birthday into the next year, 2025, raises
    [ValueError], so no next occurrence is reported and the query raises
    for the whole book.  On 1 January 2025 already the move into the
    current year raises.  For Bob, born on 03.01.2000, the projection on
    1 March 2024 is the date of next year, 03.01.2025. *)
Theorem project_leap_day_passed :
  let birthday_date := mkdate 2024 2 29 in
  let today := mkdate 2024 3 1 in
  birthday ann_leap_day = Some "29.02.2024"%string
  /\ Strptime.strptime "29.02.2024" = Return birthday_date
  /\ replace_year birthday_date (year today) = Return birthday_date
  /\ date_lt birthday_date today = true
  /\ replace_year birthday_date (year today + 1) = Raise ValueError
  /\ project today birthday_date = Raise ValueError
  /\ upcoming_entry today ann_leap_day = Raise ValueError
  /\ get_upcoming_birthdays today leap_day_book = Raise ValueError
  /\ replace_year birthday_date 2025 = Raise ValueError
  /\ project (mkdate 2025 1 1) birthday_date = Raise ValueError
  /\ project today (mkdate 2000 1 3) = Return (mkdate 2025 1 3).
Proof. cbv zeta. repeat split; reflexivity. Qed.

(** C3.  For a record whose projected birthday [p] is in the window, the
    body of the loop reports a date [c]: when [p] is a Saturday [c] is two
    days later and a Monday, when [p] is a Sunday [c] is one day later and
    a Monday, and otherwise [c] is [p].  Whenever the query returns, the
    list holds that entry. *)
Theorem weekend_moves_to_monday (today : date) (r : record)
  (value : string) (bd p : date) :
  birthday r = Some value ->
  Strptime.strptime value = Return bd ->
  project today bd = Return p ->
  0 <= days_between p today <= 7 ->
  exists c,
    upcoming_entry today r = Return (Some (mkEntry (name r) (strftime c)))
    /\ valid_date c
    /\ (weekday p = 5 -> days_between c p = 2 /\ weekday c = 0)
    /\ (weekday p = 6 -> days_between c p = 1 /\ weekday c = 0)
    /\ (weekday p < 5 -> c = p)
    /\ (forall book l,
          In r (values book) ->
          get_upcoming_birthdays today book = Return l ->
          In (mkEntry (name r) (strftime c)) l).
Proof.
  intros Hb Hbd Hp Hw.
  destruct (project_Return today bd p Hp) as (Hv & _).
  destruct (congratulation_spec p Hv) as (c & Hc & Hvc & Hsat & Hsun & Hweek).
  assert (He : upcoming_entry today r
               = Return (Some (mkEntry (name r) (strftime c)))).
  { apply upcoming_entry_Some. exists value, bd, p, c. auto 10. }
  exists c. unfold days_between.
  split; [exact He|]. split; [exact Hvc|].
  split; [intros H; destruct (Hsat H); split; [lia|assumption]|].
  split; [intros H; destruct (Hsun H); split; [lia|assumption]|].
  split; [exact Hweek|].
  intros book l Hin Hl. exact (upcoming_entry_In today book l r _ Hl Hin He).
Qed.

Lemma weekend_moves_to_monday_witness :
  let today := mkdate 2025 1 1 in
  let r := mkRecord "Bob" [] (Some "04.01.2000"%string) in
  weekday (mkdate 2025 1 4) = 5
  /\ exists c,
       upcoming_entry today r = Return (Some (mkEntry "Bob" (strftime c)))
       /\ days_between c (mkdate 2025 1 4) = 2 /\ weekday c = 0.
Proof.
  cbv zeta. split; [reflexivity|].
  destruct (weekend_moves_to_monday (mkdate 2025 1 1)
              (mkRecord "Bob" [] (Some "04.01.2000"%string)) "04.01.2000"
              (mkdate 2000 1 4) (mkdate 2025 1 4) eq_refl eq_refl eq_refl)
    as (c & He & _ & Hsat & _).
  - vm_compute. split; discriminate.
  - exists c. split; [exact He|]. apply Hsat. reflexivity.
Defined.

(** C4.  There are a book whose records were all stored through the
    validating calls, among them one with the birthday "29.02.2024", and a
    current date in a year that is not a leap year, for which the
    projection of that birthday raises [ValueError] and so does the query:
    it returns no list. *)
Theorem leap_day_birthday_raises :
  exists (book : AddressBook) (today : date),
    (forall r, In r (values book) -> reachable r /\ record_ok r)
    /\ valid_date today
    /\ _is_leap (year today) = false
    /\ (exists r bd,
          In r (values book)
          /\ birthday r = Some "29.02.2024"%string
          /\ Birthday "29.02.2024" = Return "29.02.2024"%string
          /\ Strptime.strptime "29.02.2024" = Return bd
          /\ _is_leap (year bd) = true
          /\ project today bd = Raise ValueError)
    /\ get_upcoming_birthdays today book = Raise ValueError.
Proof.
  exists (add_record [] ann_leap_day), (mkdate 2025 2 25).
  assert (Hr : reachable ann_leap_day).
  { apply (reachable_call (Record__init__ "Ann") (Call_add_birthday "29.02.2024")).
    apply reachable_init. }
  split; [|split; [reflexivity|split; [reflexivity|split]]].
  - intros r [<-|[]]. split; [exact Hr|].
    apply (run_preserves (Call_add_birthday "29.02.2024")).
    split; cbn; [tauto|discriminate].
  - exists ann_leap_day, (mkdate 2024 2 29). repeat split; cbn; auto.
  - apply (leap_day_query_raises (mkdate 2025 2 25) _ [] [] ann_leap_day
             "29.02.2024" (mkdate 2024 2 29)); auto.
Qed.

End BirthdayClaims.

(** ** Checks on sample inputs *)

Example strptime_samples :
  Strptime.strptime "29.02.2024" = Return (Datetime.mkdate 2024 2 29)
  /\ Strptime.strptime "31.02.2024" = Raise ValueError
  /\ Strptime.strptime "3.1.2024" = Return (Datetime.mkdate 2024 1 3)
  /\ Strptime.strptime " 3.01.2024" = Return (Datetime.mkdate 2024 1 3)
  /\ Strptime.strptime "03.01.20245" = Raise ValueError
  /\ Strptime.strptime "03.01.0000" = Raise ValueError
  /\ Strptime.strptime "00.01.2024" = Raise ValueError
  /\ Strptime.strptime "03.13.2024" = Raise ValueError
  /\ Strptime.strptime "03-01-2024" = Raise ValueError
  /\ strftime (Datetime.mkdate 2025 1 3) = "03.01.2025"%string.
Proof. repeat split; reflexivity. Qed.

Example calendar_samples :
  Datetime.fromordinal (Datetime.toordinal (Datetime.mkdate 2025 1 4))
  = Datetime.mkdate 2025 1 4
  /\ Datetime.weekday (Datetime.mkdate 2025 1 1) = 2
  /\ Datetime.weekday (Datetime.mkdate 2025 1 4) = 5
  /\ Datetime.add_days (Datetime.mkdate 2025 1 4) 2
     = Return (Datetime.mkdate 2025 1 6)
  /\ Datetime.toordinal (Datetime.mkdate 9999 12 31) = Datetime._MAXORDINAL
  /\ Datetime.add_days (Datetime.mkdate 9999 12 31) 1 = Raise OverflowError.
Proof. repeat split; reflexivity. Qed.

Example book_samples :
  find leap_day_book "Bob" = Some bob_january
  /\ find (delete leap_day_book "Bob") "Bob" = None
  /\ values (add_record leap_day_book bob) = [ann_leap_day; bob]
  /\ get_upcoming_birthdays (Datetime.mkdate 2024 12 30) leap_day_book
     = Raise ValueError
  /\ get_upcoming_birthdays (Datetime.mkdate 2024 2 25) leap_day_book
     = Return [mkEntry "Ann" "29.02.2024"]
  /\ get_upcoming_birthdays (Datetime.mkdate 2025 12 30)
       (add_record [] bob_january)
     = Return [mkEntry "Bob" "05.01.2026"].
Proof. repeat split; reflexivity. Qed.

(** * Further properties *)

(** ** The book as a dictionary *)

Section Dictionary.

Lemma find_dict_set_eq (book : AddressBook) (k : string) (r : record) :
  find (dict_set book k r) k = Some r.
Proof.
  induction book as [|[k' v] book IH]; cbn.
  - now rewrite String.eqb_refl.
  - destruct (String.eqb k' k) eqn:E; cbn; rewrite E; [reflexivity|exact IH].
Qed.

Lemma find_dict_set_ne (book : AddressBook) (k n : string) (r : record) :
  n <> k -> find (dict_set book k r) n = find book n.
Proof.
  intros Hn. induction book as [|[k' v] book IH]; cbn.
  - apply String.eqb_neq in Hn. rewrite String.eqb_sym. now rewrite Hn.
  - destruct (String.eqb k' k) eqn:E; cbn.
    + apply String.eqb_eq in E. subst k'.
      assert (En : String.eqb k n = false)
        by (apply String.eqb_neq; congruence).
      now rewrite En.
    + destruct (String.eqb k' n); [reflexivity|exact IH].
Qed.

Lemma find_Some_In (book : AddressBook) (k : string) (r : record) :
  find book k = Some r -> In (k, r) book.
Proof.
  induction book as [|[k' v] book IH]; cbn; [discriminate|].
  destruct (String.eqb k' k) eqn:E.
  - apply String.eqb_eq in E. intros [= <-]. left. congruence.
  - intros H. right. auto.
Qed.

Lemma find_None_keys (book : AddressBook) (k : string) :
  find book k = None <-> ~ In k (keys book).
Proof.
  induction book as [|[k' v] book IH]; cbn; [tauto|].
  destruct (String.eqb k' k) eqn:E.
  - apply String.eqb_eq in E. split; [discriminate|]. tauto.
  - apply String.eqb_neq in E. rewrite IH. tauto.
Qed.

Lemma In_find (book : AddressBook) (k : string) (r : record) :
  NoDup (keys book) -> In (k, r) book -> find book k = Some r.
Proof.
  induction book as [|[k' v] book IH]; cbn; [tauto|].
  intros Hnd Hin. inversion Hnd as [|? ? Hk Hnd']; subst.
  destruct Hin as [[= -> ->]|Hin].
  - now rewrite String.eqb_refl.
  - destruct (String.eqb k' k) eqn:E.
    + apply String.eqb_eq in E. subst k'. exfalso. apply Hk.
      change k with (fst (k, r)). now apply in_map.
    + auto.
Qed.

(** Assigning under a key that is there keeps every key in its place;
    under a new key the key goes to the end. *)
Lemma keys_dict_set (book : AddressBook) (k : string) (r : record) :
  keys (dict_set book k r)
  = match find book k with
    | Some _ => keys book
    | None => keys book ++ [k]
    end.
Proof.
  unfold keys. induction book as [|[k' v] book IH]; cbn; [reflexivity|].
  destruct (String.eqb k' k) eqn:E; cbn.
  - reflexivity.
  - rewrite IH. now destruct (find book k).
Qed.

Lemma In_dict_set (book : AddressBook) (k k' : string) (r r' : record) :
  In (k', r') (dict_set book k r) ->
  (k' = k /\ r' = r) \/ In (k', r') book.
Proof.
  induction book as [|[k0 v] book IH]; cbn.
  - intros [[= <- <-]|[]]. auto.
  - destruct (String.eqb k0 k) eqn:E; cbn.
    + apply String.eqb_eq in E. subst k0. intros [[= <- <-]|Hin]; auto.
    + intros [[= <- <-]|Hin]; [auto|]. destruct (IH Hin); auto.
Qed.

(** Assigning what is already there changes nothing. *)
Lemma dict_set_same (book : AddressBook) (k : string) (r : record) :
  find book k = Some r -> dict_set book k r = book.
Proof.
  induction book as [|[k' v] book IH]; cbn; [discriminate|].
  destruct (String.eqb k' k) eqn:E.
  - now intros [= ->].
  - intros H. now rewrite IH.
Qed.

Lemma dict_set_twice (book : AddressBook) (k : string) (r r' : record) :
  dict_set (dict_set book k r) k r' = dict_set book k r'.
Proof.
  induction book as [|[k' v] book IH]; cbn.
  - now rewrite String.eqb_refl.
  - destruct (String.eqb k' k) eqn:E; cbn; rewrite E; [reflexivity|].
    now rewrite IH.
Qed.

Lemma book_ok_dict_set (book : AddressBook) (k : string) (r : record) :
  book_ok book -> name r = k -> record_ok r -> book_ok (dict_set book k r).
Proof.
  intros [Hnd Hall] Hname Hr. split.
  - rewrite keys_dict_set. destruct (find book k) eqn:E; [assumption|].
    apply find_None_keys in E. apply NoDup_app; [assumption|repeat constructor; cbn; tauto|..].
    all: cbn; intros x Hx [<-|[]]; contradiction.
  - intros k' r' Hin. apply In_dict_set in Hin.
    destruct Hin as [[-> ->]|Hin]; auto.
Qed.

Lemma find_delete_ne (book : AddressBook) (k n : string) :
  n <> k -> find (delete book k) n = find book n.
Proof.
  intros Hn. induction book as [|[k' v] book IH]; cbn; [reflexivity|].
  destruct (String.eqb k' k) eqn:E; cbn.
  - apply String.eqb_eq in E. subst k'.
    assert (En : String.eqb k n = false)
      by (apply String.eqb_neq; congruence).
    now rewrite En.
  - destruct (String.eqb k' n); [reflexivity|exact IH].
Qed.

Lemma keys_delete (book : AddressBook) (k : string) (x : string) :
  In x (keys (delete book k)) -> In x (keys book).
Proof.
  unfold keys. induction book as [|[k' v] book IH]; cbn; [tauto|].
  destruct (String.eqb k' k); cbn; tauto.
Qed.

Lemma find_delete_eq (book : AddressBook) (k : string) :
  NoDup (keys book) -> find (delete book k) k = None.
Proof.
  unfold keys. induction book as [|[k' v] book IH]; cbn; [reflexivity|].
  intros Hnd. inversion Hnd as [|? ? Hk Hnd']; subst.
  destruct (String.eqb k' k) eqn:E; cbn.
  - apply String.eqb_eq in E. subst k'. now apply find_None_keys.
  - rewrite E. auto.
Qed.

Lemma delete_absent (book : AddressBook) (k : string) :
  find book k = None -> delete book k = book.
Proof.
  induction book as [|[k' v] book IH]; cbn; [reflexivity|].
  destruct (String.eqb k' k); [discriminate|]. intros H. now rewrite IH.
Qed.

Lemma NoDup_keys_delete (book : AddressBook) (k : string) :
  NoDup (keys book) -> NoDup (keys (delete book k)).
Proof.
  induction book as [|[k' v] book IH]; cbn; [auto|].
  intros Hnd. inversion Hnd as [|? ? Hk Hnd']; subst.
  destruct (String.eqb k' k); cbn; [assumption|].
  constructor; [|auto]. intros Hin. apply Hk. exact (keys_delete _ _ _ Hin).
Qed.

Lemma In_delete (book : AddressBook) (k : string) (x : string * record) :
  In x (delete book k) -> In x book.
Proof.
  induction book as [|[k' v] book IH]; cbn; [tauto|].
  destruct (String.eqb k' k); cbn; tauto.
Qed.

(** X1.  [add_record] then [find]: the record is found under its name, every
    other name finds what it found before, a name already in the book
    keeps its place and a new one goes to the end; a book within the
    invariant stays within it. *)
Theorem add_record_find (book : AddressBook) (r : record) :
  find (add_record book r) (name r) = Some r
  /\ (forall n, n <> name r -> find (add_record book r) n = find book n)
  /\ keys (add_record book r)
     = match find book (name r) with
       | Some _ => keys book
       | None => keys book ++ [name r]
       end
  /\ (book_ok book -> record_ok r -> book_ok (add_record book r)).
Proof.
  unfold add_record. split; [apply find_dict_set_eq|].
  split; [intros n Hn; now apply find_dict_set_ne|].
  split; [apply keys_dict_set|].
  intros Hb Hr. now apply book_ok_dict_set.
Qed.

(** X2.  [delete]: afterwards the name finds nothing and every other name finds
    what it found before; deleting a name that is not there changes
    nothing; a book within the invariant stays within it. *)
Theorem delete_find (book : AddressBook) (n : string) :
  NoDup (keys book) ->
  find (delete book n) n = None
  /\ (forall m, m <> n -> find (delete book n) m = find book m)
  /\ (find book n = None -> delete book n = book)
  /\ NoDup (keys (delete book n))
  /\ (book_ok book -> book_ok (delete book n)).
Proof.
  intros Hnd. split; [now apply find_delete_eq|].
  split; [intros m Hm; now apply find_delete_ne|].
  split; [apply delete_absent|]. split; [now apply NoDup_keys_delete|].
  intros [_ Hall]. split; [now apply NoDup_keys_delete|].
  intros k r Hin. apply Hall. exact (In_delete _ _ _ Hin).
Qed.

Lemma delete_find_witness :
  find (delete leap_day_book "Ann") "Ann" = None
  /\ find (delete leap_day_book "Ann") "Bob" = Some bob_january
  /\ delete leap_day_book "Eve" = leap_day_book.
Proof.
  assert (Hnd : NoDup (keys leap_day_book)).
  { repeat constructor; cbn; intuition discriminate. }
  destruct (delete_find leap_day_book "Ann" Hnd) as (H1 & H2 & _).
  destruct (delete_find leap_day_book "Eve" Hnd) as (_ & _ & H3 & _).
  split; [exact H1|]. split.
  - rewrite H2; [reflexivity|discriminate].
  - apply H3. reflexivity.
Defined.

End Dictionary.

(** ** The methods of a record, for the handlers *)

Section Methods.

Lemma add_phone_cases (phone : string) (r : record) :
  add_phone phone r
  = match Phone phone with
    | Return p =>
        (mkRecord (name r) (phones r ++ [p]) (birthday r), Return tt)
    | Raise e => (r, Raise e)
    end.
Proof. unfold add_phone, mbind, mlift. now destruct (Phone phone). Qed.

Lemma edit_phone_cases (old_phone new_phone : string) (r : record) :
  edit_phone old_phone new_phone r
  = match find_phone r old_phone with
    | None => (r, Raise ValueError)
    | Some _ =>
        match Phone new_phone with
        | Return p =>
            (mkRecord (name r) (list_remove (phones r ++ [p]) old_phone)
               (birthday r), Return tt)
        | Raise e => (r, Raise e)
        end
    end.
Proof.
  unfold edit_phone. destruct (find_phone r old_phone) as [v|] eqn:E;
    [|reflexivity].
  unfold mbind. rewrite add_phone_cases.
  destruct (Phone new_phone) as [p|e]; [|reflexivity].
  unfold remove_phone, find_phone. cbn [phones name birthday].
  apply find_phone_in_Some in E. destruct E as [_ Hin].
  rewrite (find_phone_in_In (phones r ++ [p]) old_phone)
    by (apply in_or_app; auto).
  reflexivity.
Qed.

Lemma add_birthday_cases (b : string) (r : record) :
  add_birthday b r
  = match Birthday b with
    | Return v => (mkRecord (name r) (phones r) (Some v), Return tt)
    | Raise e => (r, Raise e)
    end.
Proof. unfold add_birthday, mbind, mlift. now destruct (Birthday b). Qed.

Lemma Phone_raises (s : string) (e : exn) : Phone s = Raise e -> e = ValueError.
Proof. unfold Phone. destruct ((len s =? 10) && isdigit s); congruence. Qed.

Lemma digits_value_raises (cs : list ascii) :
  forall acc e, Strptime.digits_value acc cs = Raise e -> e = ValueError.
Proof.
  induction cs as [|c cs IH]; cbn; intros acc e; [discriminate|].
  destruct (is_decimal c); [apply IH|congruence].
Qed.

Lemma int_raises (cs : list ascii) (e : exn) :
  Strptime.int cs = Raise e -> e = ValueError.
Proof.
  induction cs as [|c cs IH]; cbn; [congruence|].
  destruct (Ascii.eqb c " "); [exact IH|].
  destruct (is_decimal c); [apply digits_value_raises|congruence].
Qed.

Lemma date_new_raises (y m d : Z) (e : exn) :
  Datetime.date_new y m d = Raise e -> e = ValueError.
Proof.
  unfold Datetime.date_new.
  destruct (Datetime._check_date_fields y m d); congruence.
Qed.

Lemma strptime_raises (s : string) (e : exn) :
  Strptime.strptime s = Raise e -> e = ValueError.
Proof.
  unfold Strptime.strptime.
  destruct (Strptime.match_items _ _) as [[groups rest]|]; [|congruence].
  destruct rest; [|congruence].
  destruct groups as [|d [|m [|Y [|]]]]; try congruence.
  destruct (Strptime.int Y) as [y|e1] eqn:EY; cbn;
    [|intros [= <-]; exact (int_raises _ _ EY)].
  destruct (Strptime.int m) as [mo|e2] eqn:Em; cbn;
    [|intros [= <-]; exact (int_raises _ _ Em)].
  destruct (Strptime.int d) as [da|e3] eqn:Ed; cbn;
    [|intros [= <-]; exact (int_raises _ _ Ed)].
  apply date_new_raises.
Qed.

Lemma Birthday_raises (b : string) (e : exn) :
  Birthday b = Raise e -> e = ValueError.
Proof.
  unfold Birthday. destruct (Strptime.strptime b) as [d|e'] eqn:E;
    [discriminate|].
  apply strptime_raises in E. subst e'. congruence.
Qed.

Lemma run_name (c : call) (r : record) : name (fst (run c r)) = name r.
Proof.
  destruct c as [phone|phone|old new|b]; cbn [run].
  - rewrite add_phone_cases. now destruct (Phone phone).
  - unfold remove_phone. now destruct (find_phone r phone).
  - rewrite edit_phone_cases. destruct (find_phone r old); [|reflexivity].
    now destruct (Phone new).
  - rewrite add_birthday_cases. now destruct (Birthday b).
Qed.

(** The methods of a record raise nothing but [ValueError]. *)
Lemma run_raises (c : call) (r : record) (e : exn) :
  snd (run c r) = Raise e -> e = ValueError.
Proof.
  destruct c as [phone|phone|old new|b]; cbn [run].
  - rewrite add_phone_cases. destruct (Phone phone) eqn:E; cbn; [congruence|].
    intros [= <-]. exact (Phone_raises _ _ E).
  - unfold remove_phone. destruct (find_phone r phone); cbn; congruence.
  - rewrite edit_phone_cases. destruct (find_phone r old); cbn; [|congruence].
    destruct (Phone new) eqn:E; cbn; [congruence|].
    intros [= <-]. exact (Phone_raises _ _ E).
  - rewrite add_birthday_cases.
    destruct (Birthday b) as [v|e'] eqn:E; cbn; [congruence|].
    intros [= <-]. exact (Birthday_raises b e' E).
Qed.

End Methods.

(** ** What the query can raise *)

Section QueryRaises.

Import Datetime.

Lemma project_raises (today bd : date) (e : exn) :
  project today bd = Raise e -> e = ValueError.
Proof.
  unfold project, replace_year.
  destruct (date_new (year today) _ _) as [d|e'] eqn:E; cbn.
  - destruct (date_lt d today); [apply date_new_raises|discriminate].
  - intros [= <-]. exact (date_new_raises _ _ _ _ E).
Qed.

(** [date + timedelta] in the move off a weekend never overflows, so the
    body of the loop raises nothing but [ValueError], and so does the
    query. *)
Lemma upcoming_entry_raises (today : date) (r : record) (e : exn) :
  upcoming_entry today r = Raise e -> e = ValueError.
Proof.
  unfold upcoming_entry. destruct (birthday r) as [value|]; [|discriminate].
  destruct (Strptime.strptime value) as [bd|e1] eqn:E1; cbn;
    [|intros [= <-]; exact (strptime_raises _ _ E1)].
  destruct (project today bd) as [p|e2] eqn:E2; cbn;
    [|intros [= <-]; exact (project_raises _ _ _ E2)].
  destruct (in_window today p); [|discriminate].
  destruct (project_Return today bd p E2) as (Hv & _).
  destruct (congratulation_spec p Hv) as (c & -> & _). discriminate.
Qed.

Lemma upcoming_loop_raises (today : date) (records : list record) :
  forall acc e, upcoming_loop today records acc = Raise e -> e = ValueError.
Proof.
  induction records as [|r rs IH]; intros acc e; cbn; [discriminate|].
  destruct (upcoming_entry today r) as [x|e'] eqn:E; cbn.
  - apply IH.
  - intros [= <-]. exact (upcoming_entry_raises _ _ _ E).
Qed.

End QueryRaises.

(** ** The command handlers *)

Section Handlers.

Import Bot.

(** What a handler leaves when it calls a method on a record it found. *)
Lemma call_method_run (k : string) (r : record) (c : call)
  (book : AddressBook) :
  call_method k r (run c) book
  = (dict_set book k (fst (run c r)), snd (run c r)).
Proof. unfold call_method. now destruct (run c r). Qed.

Lemma call_method_ok (k : string) (r : record) (c : call)
  (book : AddressBook) :
  book_ok book -> name r = k -> record_ok r ->
  book_ok (fst (call_method k r (run c) book)).
Proof.
  intros Hb Hn Hr. rewrite call_method_run. cbn [fst].
  apply book_ok_dict_set; [assumption| |now apply run_preserves].
  now rewrite run_name.
Qed.

Lemma book_ok_find (book : AddressBook) (k : string) (r : record) :
  book_ok book -> find book k = Some r -> name r = k /\ record_ok r.
Proof. intros [_ Hall] H. apply Hall. now apply find_Some_In. Qed.

Lemma book_ok_new (book : AddressBook) (n : string) :
  book_ok book -> book_ok (add_record book (Record__init__ n)).
Proof.
  intros Hb. apply book_ok_dict_set; [assumption|reflexivity|].
  split; cbn; [tauto|discriminate].
Qed.

Ltac outcome_of_method c r :=
  let E := fresh "E" in
  destruct (snd (run c r)) as [[]|?e] eqn:E;
  [|apply run_raises in E; subst].

Lemma add_contact_ok (args : list string) (book : AddressBook) :
  book_ok book -> book_ok (fst (add_contact args book)).
Proof.
  intros Hb. unfold add_contact.
  destruct args as [|n [|phone rest]]; try assumption.
  destruct (find book n) as [r|] eqn:E.
  - destruct (book_ok_find book n r Hb E) as [Hn Hr].
    destruct phone; [assumption|].
    destruct (negb _); [|assumption].
    pose proof (call_method_ok n r (Call_add_phone (String a phone)) book
                  Hb Hn Hr) as H.
    cbn [run] in H. now destruct (call_method _ _ _ _) as [b' []].
  - pose proof (book_ok_new book n Hb) as Hb'.
    destruct phone; [assumption|].
    destruct (negb _); [|assumption].
    assert (Hr : record_ok (Record__init__ n))
      by (split; cbn; [tauto|discriminate]).
    pose proof (call_method_ok n (Record__init__ n)
                  (Call_add_phone (String a phone)) _ Hb' eq_refl Hr) as H.
    cbn [run] in H. now destruct (call_method _ _ _ _) as [b' []].
Qed.

Lemma add_contact_plain (args : list string) (book : AddressBook) :
  plain (display_message (input_error (snd (add_contact args book)))).
Proof.
  unfold add_contact.
  destruct args as [|n [|phone rest]]; try exact I.
  destruct (find book n) as [r|]; (destruct phone; [exact I|]);
    (destruct (negb _); [|exact I]).
  - rewrite (call_method_run n r (Call_add_phone (String a phone))).
    outcome_of_method (Call_add_phone (String a phone)) r; exact I.
  - rewrite (call_method_run n _ (Call_add_phone (String a phone))).
    outcome_of_method (Call_add_phone (String a phone)) (Record__init__ n);
      exact I.
Qed.

Lemma change_contact_ok (args : list string) (book : AddressBook) :
  book_ok book -> book_ok (fst (change_contact args book)).
Proof.
  intros Hb. unfold change_contact.
  destruct args as [|n [|old [|new [|]]]]; try assumption.
  destruct (find book n) as [r|] eqn:E; [|assumption].
  destruct (book_ok_find book n r Hb E) as [Hn Hr].
  pose proof (call_method_ok n r (Call_edit_phone old new) book Hb Hn Hr) as H.
  cbn [run] in H. now destruct (call_method _ _ _ _) as [b' []].
Qed.

Lemma change_contact_plain (args : list string) (book : AddressBook) :
  plain (display_message (input_error (snd (change_contact args book)))).
Proof.
  unfold change_contact.
  destruct args as [|n [|old [|new [|]]]]; try exact I.
  destruct (find book n) as [r|]; [|exact I].
  rewrite (call_method_run n r (Call_edit_phone old new)).
  outcome_of_method (Call_edit_phone old new) r; exact I.
Qed.

Lemma add_birthday_ok (args : list string) (book : AddressBook) :
  book_ok book -> book_ok (fst (Bot.add_birthday args book)).
Proof.
  intros Hb. unfold Bot.add_birthday.
  destruct args as [|n [|b [|]]]; try assumption.
  destruct (find book n) as [r|] eqn:E; [|assumption].
  destruct (book_ok_find book n r Hb E) as [Hn Hr].
  pose proof (call_method_ok n r (Call_add_birthday b) book Hb Hn Hr) as H.
  cbn [run] in H. now destruct (call_method _ _ _ _) as [b' []].
Qed.

Lemma add_birthday_plain (args : list string) (book : AddressBook) :
  plain (display_message (input_error (snd (Bot.add_birthday args book)))).
Proof.
  unfold Bot.add_birthday.
  destruct args as [|n [|b [|]]]; try exact I.
  destruct (find book n) as [r|]; [|exact I].
  rewrite (call_method_run n r (Call_add_birthday b)).
  outcome_of_method (Call_add_birthday b) r; exact I.
Qed.

(** The handlers that only read. *)
Lemma show_phone_reads (args : list string) (book : AddressBook) :
  fst (show_phone args book) = book
  /\ plain (display_message (input_error (snd (show_phone args book)))).
Proof.
  unfold show_phone. destruct args as [|n rest]; [split; [reflexivity|exact I]|].
  destruct (find book n) as [r|]; [|split; [reflexivity|exact I]].
  destruct (join "; " (phones r)); split; try reflexivity; exact I.
Qed.

Lemma show_birthday_reads (args : list string) (book : AddressBook) :
  fst (show_birthday args book) = book
  /\ plain (display_message (input_error (snd (show_birthday args book)))).
Proof.
  unfold show_birthday.
  destruct args as [|n rest]; [split; [reflexivity|exact I]|].
  destruct (find book n) as [r|]; [|split; [reflexivity|exact I]].
  destruct (birthday r); split; try reflexivity; exact I.
Qed.

Lemma birthdays_reads (today : Datetime.date) (args : list string)
  (book : AddressBook) :
  fst (birthdays today args book) = book
  /\ plain (display_message
              (input_error (snd (birthdays today args book)))).
Proof.
  unfold birthdays, get_upcoming_birthdays.
  destruct (upcoming_loop today (values book) []) as [l|e] eqn:E.
  - destruct l; split; try reflexivity; exact I.
  - apply upcoming_loop_raises in E. subst e.
    split; [reflexivity|exact I].
Qed.

End Handlers.

(** ** Splitting a line into words *)

Section Words.

Lemma list_ascii_of_string_app (s1 s2 : string) :
  list_ascii_of_string (s1 ++ s2)
  = (list_ascii_of_string s1 ++ list_ascii_of_string s2)%list.
Proof. induction s1 as [|c s1 IH]; cbn; [reflexivity|now rewrite IH]. Qed.

Lemma word_chars (s : string) :
  word s <->
  list_ascii_of_string s <> []
  /\ forall c, In c (list_ascii_of_string s) -> isspace_char c = false.
Proof.
  unfold word. destruct s as [|c s]; cbn.
  - split; intros [H _]; congruence.
  - split; intros [_ H]; (split; [discriminate|exact H]).
Qed.

(** A run of characters that are not whitespace goes to the current word. *)
Lemma split_chars_run (w rest acc : list ascii) :
  (forall c, In c w -> isspace_char c = false) ->
  split_chars (w ++ rest) acc = split_chars rest (rev w ++ acc).
Proof.
  revert acc. induction w as [|c w IH]; intros acc Hw; cbn; [reflexivity|].
  rewrite (Hw c) by (cbn; auto).
  rewrite IH by (intros x Hx; apply Hw; cbn; auto).
  now rewrite <- app_assoc.
Qed.

Lemma rev_cons_not_nil {A : Type} (a : A) (l : list A) : rev (a :: l) <> [].
Proof. cbn. intros E. now apply app_eq_nil in E as [_ E]. Qed.

Lemma word_of_chars (a : ascii) (acc : list ascii) :
  (forall c, In c (a :: acc) -> isspace_char c = false) ->
  word (string_of_list_ascii (rev (a :: acc))).
Proof.
  intros H. apply word_chars. rewrite list_ascii_of_string_of_list_ascii.
  split; [apply rev_cons_not_nil|].
  intros c Hc. apply H. now apply in_rev.
Qed.

(** Every word [split] gives is non-empty and free of whitespace. *)
Lemma split_chars_words (cs : list ascii) :
  forall acc,
    (forall c, In c acc -> isspace_char c = false) ->
    Forall word (split_chars cs acc).
Proof.
  induction cs as [|c cs IH]; intros acc Hacc; cbn.
  - destruct acc as [|a acc]; [constructor|].
    constructor; [now apply word_of_chars|constructor].
  - destruct (isspace_char c) eqn:Ec.
    + destruct acc as [|a acc]; [apply IH; cbn; tauto|].
      constructor; [now apply word_of_chars|apply IH; cbn; tauto].
    + apply IH. intros x [<-|Hx]; auto.
Qed.

Lemma split_chars_not_nil (cs : list ascii) :
  forall acc, acc <> [] -> split_chars cs acc <> [].
Proof.
  induction cs as [|x cs IH]; intros acc Hacc; cbn.
  - destruct acc; [congruence|discriminate].
  - destruct (isspace_char x).
    + destruct acc; [congruence|discriminate].
    + apply IH. discriminate.
Qed.

Lemma split_chars_blank (cs : list ascii) :
  split_chars cs [] = [] <-> forallb isspace_char cs = true.
Proof.
  induction cs as [|c cs IH]; cbn; [tauto|].
  destruct (isspace_char c) eqn:Ec; cbn; [exact IH|].
  split; [|discriminate]. intros H. exfalso.
  apply (split_chars_not_nil cs [c]); [discriminate|exact H].
Qed.

Lemma string_of_rev_rev (t : string) :
  string_of_list_ascii (rev (rev (list_ascii_of_string t))) = t.
Proof. now rewrite rev_involutive, string_of_list_ascii_of_string. Qed.

Lemma rev_chars_not_nil (t : string) :
  list_ascii_of_string t <> [] ->
  exists x l, rev (list_ascii_of_string t) = x :: l.
Proof.
  intros Hne. destruct (rev (list_ascii_of_string t)) as [|x l] eqn:E.
  - apply (f_equal (@rev ascii)) in E. rewrite rev_involutive in E.
    cbn in E. congruence.
  - eauto.
Qed.

(** [split] undoes a [join] of words with one blank. *)
Lemma split_join (tokens : list string) :
  Forall word tokens -> split (join " " tokens) = tokens.
Proof.
  unfold split, join. induction 1 as [|t ts Ht Hts IH]; [reflexivity|].
  apply word_chars in Ht. destruct Ht as (Hne & Hall).
  destruct (rev_chars_not_nil t Hne) as (x & l & E).
  cbn [concat]. destruct ts as [|t' ts].
  - rewrite <- (app_nil_r (list_ascii_of_string t)).
    rewrite (split_chars_run _ [] [] Hall). cbn [split_chars].
    rewrite app_nil_r, E, <- E. now rewrite string_of_rev_rev.
  - rewrite !list_ascii_of_string_app.
    rewrite (split_chars_run _ _ [] Hall). rewrite app_nil_r.
    change (list_ascii_of_string " ") with [" "%char].
    cbn [app split_chars]. change (isspace_char " ") with true. cbv iota.
    rewrite E, <- E, string_of_rev_rev. f_equal. exact IH.
Qed.

(** [strip] leaves a word as it is. *)
Lemma lstrip_chars_word (l : list ascii) :
  (forall c, In c l -> isspace_char c = false) -> lstrip_chars l = l.
Proof.
  destruct l as [|x l]; [reflexivity|]. intros Ha. cbn.
  now rewrite (Ha x) by (cbn; auto).
Qed.

Lemma strip_word (s : string) : word s -> strip s = s.
Proof.
  intros H. apply word_chars in H. destruct H as (Hne & Hall).
  unfold strip. rewrite (lstrip_chars_word _ Hall).
  rewrite lstrip_chars_word by (intros c Hc; apply Hall; now apply in_rev).
  apply string_of_rev_rev.
Qed.

End Words.

(** ** The loop of [main] *)

Section MainLoop.

Import Bot.

Context {pickle : Pickle}.

Lemma handled_eq (h : body) (book : AddressBook) :
  handled h book
  = ([display_message (input_error (snd (h book)))], Running (fst (h book))).
Proof. unfold handled. now destruct (h book). Qed.

Lemma display_message_no_save (r : string + message) (b : AddressBook) :
  display_message r <> Save b.
Proof. destruct r; discriminate. Qed.

Lemma handled_well_behaved (files : filesystem) (h : body)
  (book : AddressBook) :
  plain (display_message (input_error (snd (h book)))) ->
  (book_ok book -> book_ok (fst (h book))) ->
  well_behaved files book (handled h book).
Proof.
  intros Hp Hok. rewrite handled_eq. unfold well_behaved.
  split; [repeat constructor; exact Hp|]. split; [exact Hok|].
  intros b' [H|[]]. exact (display_message_no_save _ _ H).
Qed.

Lemma said_well_behaved (files : filesystem) (s : string)
  (book : AddressBook) :
  well_behaved files book ([Print (Text s)], Running book).
Proof.
  unfold well_behaved. split; [repeat constructor|]. split; [auto|].
  intros b' [H|[]]. discriminate H.
Qed.

(** [write_file], and so [save_data], raises nothing but the [OSError] of
    an [open] that is refused, and then leaves the files as they were. *)
Lemma write_file_cases (files : filesystem) (filename : string)
  (data : list Byte.byte) :
  (refuses files filename wb = false
   /\ snd (write_file files filename data) = Done tt
   /\ content (fst (write_file files filename data)) filename = Some data)
  \/ (refuses files filename wb = true
      /\ write_file files filename data = (files, Failed OSError)).
Proof.
  unfold write_file. destruct (refuses files filename wb); [right|left]; cbn.
  - auto.
  - now rewrite String.eqb_refl.
Qed.

Lemma save_data_raises (book : AddressBook) (filename : option string)
  (files : filesystem) (e : exception) :
  snd (save_data book filename files) = Failed e ->
  e = OSError /\ save_data book filename files = (files, Failed OSError).
Proof.
  unfold save_data.
  destruct (write_file_cases files
              match filename with
              | Some given => given
              | None => "addressbook.pkl"%string
              end (pickle_dumps book)) as [(_ & H & _)|(_ & H)];
    rewrite H; [discriminate|].
  cbn. intros [= <-]. auto.
Qed.

(** The branch of "close" and "exit". *)
Lemma exit_well_behaved (files : filesystem) (book : AddressBook) :
  well_behaved files book
    match save_data book None files with
    | (files', Done _) =>
        ([Save book; Print (Text "Good bye!")], Terminated files')
    | (_, Failed e) => ([Save book], Uncaught e)
    end.
Proof.
  unfold well_behaved.
  destruct (save_data book None files) as [files' [[]|e]];
    (split; [repeat constructor|]); split; reflexivity.
Qed.

Lemma dispatch_well_behaved (files : filesystem) (today : Datetime.date)
  (command : string) (args : list string) (book : AddressBook) :
  well_behaved files book (dispatch files today command args book).
Proof.
  unfold dispatch. cbn [existsb].
  repeat match goal with
         | |- context [String.eqb command ?x] =>
             destruct (String.eqb command x)
         end; cbn [orb]; cbv iota;
    try apply said_well_behaved;
    try apply exit_well_behaved.
  - apply handled_well_behaved;
      [apply add_contact_plain|apply add_contact_ok].
  - apply handled_well_behaved;
      [apply change_contact_plain|apply change_contact_ok].
  - apply handled_well_behaved; [apply show_phone_reads|].
    now rewrite (proj1 (show_phone_reads args book)).
  - unfold well_behaved, display_contacts.
    split; [repeat constructor|]. split; [auto|].
    intros b' [H|[H|[]]]; discriminate H.
  - apply handled_well_behaved;
      [apply add_birthday_plain|apply add_birthday_ok].
  - apply handled_well_behaved; [apply show_birthday_reads|].
    now rewrite (proj1 (show_birthday_reads args book)).
  - apply handled_well_behaved; [apply birthdays_reads|].
    now rewrite (proj1 (birthdays_reads today args book)).
Qed.

(** What [parse_input] returns: the words of the line with the first one
    in lower case, or, for a line without a word, the text for
    [ValueError]. *)
Lemma parse_input_cases (user_input : string) :
  match split user_input with
  | cmd :: args => parse_input user_input = inl (lower cmd :: args)
  | [] => parse_input user_input = inr (Text "Give me corect data please.")
  end.
Proof.
  unfold parse_input.
  pose proof (split_chars_words (list_ascii_of_string user_input) []) as Hw.
  fold (split user_input) in Hw.
  destruct (split user_input) as [|cmd args]; [reflexivity|].
  assert (H : word cmd).
  { assert (HF : Forall word (cmd :: args)) by (apply Hw; cbn; tauto).
    now inversion HF. }
  cbn. now rewrite (strip_word cmd H).
Qed.

Lemma main_step_dispatch (files : filesystem) (today : Datetime.date)
  (user_input : string) (book : AddressBook) :
  exists command args,
    main_step files today user_input book
    = dispatch files today command args book.
Proof.
  unfold main_step. pose proof (parse_input_cases user_input) as H.
  destruct (split user_input) as [|cmd args]; rewrite H.
  - cbn [characters list_ascii_of_string map]. eauto.
  - eauto.
Qed.

Lemma main_step_well_behaved (files : filesystem) (today : Datetime.date)
  (user_input : string) (book : AddressBook) :
  well_behaved files book (main_step files today user_input book).
Proof.
  destruct (main_step_dispatch files today user_input book) as (c & a & ->).
  apply dispatch_well_behaved.
Qed.

(** The whole run.  What is printed is plain.  The loop ends on a command
    that calls [save_data] with the book of that moment, and says good
    bye if the call returned; before that nothing is saved.  The only
    other way out is the end of the input.  The book stays within the
    invariant. *)
Lemma main_loop_spec (files : filesystem) (inputs : list input) :
  forall book,
    let '(events, st) := main_loop files inputs book in
    Forall plain events
    /\ match st with
       | Running b =>
           (book_ok book -> book_ok b)
           /\ (forall b', ~ In (Save b') events)
       | Terminated files' =>
           exists pre today line post ev b,
             inputs = pre ++ Line today line :: post
             /\ main_loop files pre book = (ev, Running b)
             /\ main_step files today line b
                = ([Save b; Print (Text "Good bye!")], Terminated files')
             /\ events = ev ++ [Save b; Print (Text "Good bye!")]
             /\ (book_ok book -> book_ok b)
             /\ (forall b', ~ In (Save b') ev)
             /\ save_data b None files = (files', Done tt)
       | Uncaught e =>
           exists pre post ev b,
             main_loop files pre book = (ev, Running b)
             /\ (book_ok book -> book_ok b)
             /\ (forall b', ~ In (Save b') ev)
             /\ ((e = EOFError
                  /\ inputs = pre ++ EndOfInput :: post
                  /\ events = ev)
                 \/ (exists today line,
                       inputs = pre ++ Line today line :: post
                       /\ main_step files today line b
                          = ([Save b], Uncaught e)
                       /\ snd (save_data b None files) = Failed e
                       /\ events = ev ++ [Save b]))
       end.
Proof.
  induction inputs as [|[today line|] inputs IH]; intros book;
    cbn [main_loop].
  - split; [constructor|]. split; [auto|]. intros b' [].
  - pose proof (main_step_well_behaved files today line book) as Hs.
    destruct (main_step files today line book) as [ev [b1|files'|e]]
      eqn:Estep; unfold well_behaved in Hs.
    + destruct Hs as (Hp & Hok & Hns).
      specialize (IH b1).
      destruct (main_loop files inputs b1) as [ev' st'] eqn:El.
      destruct IH as [Hp' Hst].
      split; [apply Forall_app; auto|].
      destruct st' as [b2|files'|e'].
      * destruct Hst as [Hok' Hns']. split; [auto|].
        intros b' [H|H]%in_app_or; [exact (Hns _ H)|exact (Hns' _ H)].
      * destruct Hst as (pre & t & l & post & ev0 & b & -> & Hpre & Hlast
                         & -> & Hok' & Hns' & Hsave).
        exists (Line today line :: pre), t, l, post, (ev ++ ev0), b.
        split; [reflexivity|]. split.
        { cbn [main_loop]. rewrite Estep, Hpre. reflexivity. }
        split; [exact Hlast|]. split; [now rewrite app_assoc|].
        split; [auto|]. split; [|exact Hsave].
        intros b' [H|H]%in_app_or; [exact (Hns _ H)|exact (Hns' _ H)].
      * destruct Hst as (pre & post & ev0 & b & Hpre & Hok' & Hns' & Hend).
        exists (Line today line :: pre), post, (ev ++ ev0), b.
        split.
        { cbn [main_loop]. rewrite Estep, Hpre. reflexivity. }
        split; [auto|]. split.
        { intros b' [H|H]%in_app_or; [exact (Hns _ H)|exact (Hns' _ H)]. }
        destruct Hend as [(-> & -> & ->)|(t & l & -> & Hlast & Hsave & ->)].
        { left. auto. }
        { right. exists t, l. rewrite app_assoc. auto. }
    + destruct Hs as (Hp & -> & Hsave). split; [exact Hp|].
      exists [], today, line, inputs, [], book.
      split; [reflexivity|]. split; [reflexivity|].
      split; [exact Estep|]. split; [reflexivity|].
      split; [auto|]. split; [intros b' []|exact Hsave].
    + destruct Hs as (Hp & -> & Hsave). split; [exact Hp|].
      exists [], inputs, [], book.
      split; [reflexivity|]. split; [auto|]. split; [intros b' []|].
      right. exists today, line. auto.
  - split; [constructor|].
    exists [], inputs, [], book.
    split; [reflexivity|]. split; [auto|]. split; [intros b' []|].
    left. auto.
Qed.


End MainLoop.

(** ** What the handlers do to the book *)

Section HandlerResults.

Import Bot.

Lemma existsb_eqb_In (phone : string) (l : list string) :
  existsb (String.eqb phone) l = true <-> In phone l.
Proof.
  rewrite existsb_exists. split.
  - intros (x & Hx & E). apply String.eqb_eq in E. now subst.
  - intros H. exists phone. split; [exact H|apply String.eqb_refl].
Qed.

(** [add_contact] in one expression: [r0] is the record the handler works
    on and [book0] the book that holds it. *)
Lemma add_contact_eq (n phone : string) (rest : list string)
  (book : AddressBook) :
  let r0 := match find book n with
            | Some r => r
            | None => Record__init__ n
            end in
  let book0 := match find book n with
               | Some _ => book
               | None => add_record book (Record__init__ n)
               end in
  let said := match find book n with
              | Some _ => "Contact updated."%string
              | None => "Contact added."%string
              end in
  add_contact (n :: phone :: rest) book
  = if (phone =? "")%string || existsb (String.eqb phone) (phones r0)
    then (book0, Done said)
    else (dict_set book0 n (fst (add_phone phone r0)),
          match snd (add_phone phone r0) with
          | Return _ => Done said
          | Raise e => Failed (Builtin e)
          end).
Proof.
  cbv zeta. unfold add_contact, call_method.
  destruct (find book n) as [r|]; destruct phone as [|a phone];
    try reflexivity; cbn [String.eqb orb].
  - destruct (existsb _ (phones r)); cbn [negb]; [reflexivity|].
    now destruct (add_phone (String a phone) r) as [r' []].
  - destruct (existsb _ (phones (Record__init__ n))); cbn [negb];
      [reflexivity|].
    now destruct (add_phone (String a phone) (Record__init__ n)) as [r' []].
Qed.

Lemma ten_digits_not_empty (s : string) : ten_digits s -> (s =? "")%string = false.
Proof. intros [Hl _]. now destruct s. Qed.

(** X4.  A valid phone given to [add_contact] ends up among the phones of
    the contact, once: a contact that is new gets exactly this phone, a
    contact that has the phone already is left as it is, any other contact
    gets it appended; the reply tells a new contact from an old one, and
    no other contact changes. *)
Theorem add_contact_valid_phone (n phone : string) (rest : list string)
  (book : AddressBook) :
  ten_digits phone ->
  let book' := fst (add_contact (n :: phone :: rest) book) in
  (find book n = None ->
   add_contact (n :: phone :: rest) book
   = (dict_set (add_record book (Record__init__ n)) n
        (mkRecord n [phone] None), Done "Contact added."%string)
   /\ find book' n = Some (mkRecord n [phone] None))
  /\ (forall r, find book n = Some r -> In phone (phones r) ->
      add_contact (n :: phone :: rest) book
      = (book, Done "Contact updated."%string))
  /\ (forall r, find book n = Some r -> ~ In phone (phones r) ->
      snd (add_contact (n :: phone :: rest) book)
      = Done "Contact updated."%string
      /\ find book' n
         = Some (mkRecord (name r) (phones r ++ [phone]) (birthday r)))
  /\ (forall m, m <> n -> find book' m = find book m).
Proof.
  intros Hp. cbv zeta. rewrite add_contact_eq. cbv zeta.
  rewrite (ten_digits_not_empty phone Hp). cbn [orb].
  assert (Hadd : forall r, add_phone phone r
                   = (mkRecord (name r) (phones r ++ [phone]) (birthday r),
                      Return tt)) by (intros r; now apply add_phone_Return).
  split; [|split; [|split]].
  - intros E. rewrite E. cbn [existsb Record__init__ phones].
    rewrite Hadd. cbn [fst snd]. split; [reflexivity|].
    apply find_dict_set_eq.
  - intros r E Hin. rewrite E. apply existsb_eqb_In in Hin. now rewrite Hin.
  - intros r E Hin. rewrite E.
    destruct (existsb (String.eqb phone) (phones r)) eqn:Ex;
      [apply existsb_eqb_In in Ex; contradiction|].
    rewrite Hadd. cbn [fst snd]. split; [reflexivity|].
    apply find_dict_set_eq.
  - intros m Hm.
    destruct (find book n) as [r|] eqn:E;
      destruct (existsb _ _); cbn [fst]; try reflexivity;
      unfold add_record; cbn [Record__init__ name Name];
      rewrite ?find_dict_set_ne by exact Hm; reflexivity.
Qed.

Lemma add_contact_valid_phone_witness :
  find (fst (Bot.add_contact ["Ann"; "0987654321"]%string leap_day_book)) "Ann"
  = Some (mkRecord "Ann" ["0987654321"%string] (Some "29.02.2024"%string))
  /\ find (fst (Bot.add_contact ["Ann"; "0987654321"]%string leap_day_book))
       "Bob"
     = Some bob_january.
Proof.
  assert (Hp : ten_digits "0987654321") by (apply Phone_Return; reflexivity).
  destruct (add_contact_valid_phone "Ann" "0987654321" [] leap_day_book Hp)
    as (_ & _ & H3 & H4).
  split.
  - apply (H3 ann_leap_day); [reflexivity|]. cbn. tauto.
  - rewrite H4; [reflexivity|discriminate].
Defined.

(** X5.  [add_contact] with a new name and a phone that fails the test
    replies with the text for [ValueError], yet the contact is in the book
    afterwards, without a phone. *)
Theorem add_contact_invalid_phone (n phone : string) (rest : list string)
  (book : AddressBook) :
  find book n = None ->
  phone <> ""%string ->
  ~ ten_digits phone ->
  add_contact (n :: phone :: rest) book
  = (add_record book (Record__init__ n), Failed (Builtin ValueError))
  /\ find (fst (add_contact (n :: phone :: rest) book)) n
     = Some (mkRecord n [] None)
  /\ input_error (snd (add_contact (n :: phone :: rest) book))
     = inr (Text "Give me corect data please.").
Proof.
  intros E Hne Hp.
  assert (H : add_contact (n :: phone :: rest) book
              = (add_record book (Record__init__ n),
                 Failed (Builtin ValueError))).
  { rewrite add_contact_eq. cbv zeta. rewrite E.
    replace (phone =? "")%string with false
      by (symmetry; now apply String.eqb_neq).
    cbn [orb existsb Record__init__ phones].
    rewrite (add_phone_Raise phone _ Hp). cbn [fst snd].
    unfold add_record. cbn [name Name]. now rewrite dict_set_twice. }
  rewrite H. cbn [fst snd]. split; [reflexivity|]. split; [|reflexivity].
  unfold add_record. cbn [Record__init__ name Name]. apply find_dict_set_eq.
Qed.

Lemma add_contact_invalid_phone_witness :
  Bot.add_contact ["Eve"; "12345"]%string leap_day_book
  = (add_record leap_day_book (Record__init__ "Eve"),
     Bot.Failed (Bot.Builtin ValueError))
  /\ find (fst (Bot.add_contact ["Eve"; "12345"]%string leap_day_book)) "Eve"
     = Some (mkRecord "Eve" [] None)
  /\ Bot.input_error
       (snd (Bot.add_contact ["Eve"; "12345"]%string leap_day_book))
     = inr (Bot.Text "Give me corect data please.").
Proof.
  apply (add_contact_invalid_phone "Eve" "12345" [] leap_day_book).
  - reflexivity.
  - discriminate.
  - apply Phone_Raise. reflexivity.
Defined.

(** X6.  Giving the same arguments to [add_contact] a second time changes
    nothing more, whatever the arguments and the book. *)
Theorem add_contact_idempotent (args : list string) (book : AddressBook) :
  fst (add_contact args (fst (add_contact args book)))
  = fst (add_contact args book).
Proof.
  destruct args as [|n [|phone rest]]; try reflexivity.
  rewrite (add_contact_eq n phone rest book). cbv zeta.
  set (r0 := match find book n with Some r => r | None => Record__init__ n end).
  set (book0 := match find book n with
                | Some _ => book
                | None => add_record book (Record__init__ n)
                end).
  assert (H0 : find book0 n = Some r0).
  { unfold book0, r0. destruct (find book n) eqn:E; [exact E|].
    unfold add_record. cbn [Record__init__ name Name].
    apply find_dict_set_eq. }
  destruct ((phone =? "")%string || existsb (String.eqb phone) (phones r0))
    eqn:Ex; cbn [fst].
  - rewrite add_contact_eq. cbv zeta. rewrite H0, Ex. reflexivity.
  - apply orb_false_iff in Ex. destruct Ex as [Ene Ex].
    rewrite add_contact_eq. cbv zeta. rewrite find_dict_set_eq.
    rewrite add_phone_cases. destruct (Phone phone) as [p|e] eqn:EP.
    + pose proof (Phone_value _ _ EP) as ->. cbn [fst phones].
      rewrite Ene. cbn [orb].
      replace (existsb (String.eqb phone) (phones r0 ++ [phone])) with true;
        [reflexivity|].
      symmetry. apply existsb_eqb_In. apply in_or_app. cbn. auto.
    + cbn [fst]. rewrite Ene, Ex. cbn [orb fst].
      rewrite add_phone_cases, EP. cbn [fst]. apply dict_set_twice.
Qed.

End HandlerResults.

Section ChangeAndBirthday.

Import Bot.

Lemma change_contact_eq (n old_phone new_phone : string)
  (book : AddressBook) :
  change_contact [n; old_phone; new_phone] book
  = match find book n with
    | None => (book, Done "Contact not found."%string)
    | Some r =>
        (dict_set book n (fst (edit_phone old_phone new_phone r)),
         match snd (edit_phone old_phone new_phone r) with
         | Return _ =>
             Done ("Phone number for " ++ n ++ " changed from "
                   ++ old_phone ++ " to " ++ new_phone ++ ".")%string
         | Raise e => Failed (Builtin e)
         end)
    end.
Proof.
  unfold change_contact, call_method.
  destruct (find book n) as [r|]; [|reflexivity].
  now destruct (edit_phone old_phone new_phone r) as [r' []].
Qed.

Lemma add_birthday_eq (n b : string) (book : AddressBook) :
  Bot.add_birthday [n; b] book
  = match find book n with
    | None => (book, Done "Contact not found."%string)
    | Some r =>
        (dict_set book n (fst (run (Call_add_birthday b) r)),
         match snd (run (Call_add_birthday b) r) with
         | Return _ => Done "Birthday added."%string
         | Raise e => Failed (Builtin e)
         end)
    end.
Proof.
  unfold Bot.add_birthday, call_method. cbn [run].
  destruct (find book n) as [r|]; [|reflexivity].
  match goal with
  | |- context [let '(_, _) := ?m r in _] => now destruct (m r) as [r' []]
  end.
Qed.

(** X7.  [change_contact] on an unknown name says so; on a known contact it
    fails with the text for [ValueError], leaving the whole book as it
    was, when the old phone is not there or the new one is not valid;
    otherwise the first occurrence of the old phone goes, the new phone is
    appended, and no other contact changes. *)
Theorem change_contact_spec (n old_phone new_phone : string)
  (book : AddressBook) :
  (find book n = None ->
   change_contact [n; old_phone; new_phone] book
   = (book, Done "Contact not found."%string))
  /\ (forall r, find book n = Some r ->
      ~ In old_phone (phones r) \/ ~ ten_digits new_phone ->
      change_contact [n; old_phone; new_phone] book
      = (book, Failed (Builtin ValueError)))
  /\ (forall r l1 l2,
        find book n = Some r ->
        phones r = l1 ++ old_phone :: l2 -> ~ In old_phone l1 ->
        ten_digits new_phone ->
        let book' := fst (change_contact [n; old_phone; new_phone] book) in
        snd (change_contact [n; old_phone; new_phone] book)
        = Done ("Phone number for " ++ n ++ " changed from "
                ++ old_phone ++ " to " ++ new_phone ++ ".")%string
        /\ find book' n
           = Some (mkRecord (name r) (l1 ++ l2 ++ [new_phone]) (birthday r))
        /\ (forall m, m <> n -> find book' m = find book m)).
Proof.
  rewrite change_contact_eq. split; [|split].
  - now intros ->.
  - intros r E H. rewrite E, edit_phone_cases. unfold find_phone.
    destruct (find_phone_in (phones r) old_phone) as [v|] eqn:Ef.
    + apply find_phone_in_Some in Ef. destruct Ef as [_ Hin].
      destruct H as [H|H]; [contradiction|].
      apply Phone_Raise in H. rewrite H. cbn [fst snd].
      now rewrite (dict_set_same book n r E).
    + cbn [fst snd]. now rewrite (dict_set_same book n r E).
  - intros r l1 l2 E Hl Hn1 Hnew. cbv zeta. rewrite E, edit_phone_cases.
    assert (Hin : In old_phone (phones r))
      by (rewrite Hl; apply in_or_app; cbn; auto).
    unfold find_phone. rewrite (find_phone_in_In _ _ Hin).
    apply Phone_Return in Hnew. rewrite Hnew. cbn [fst snd].
    split; [reflexivity|]. split.
    + rewrite find_dict_set_eq, Hl, <- app_assoc. cbn [app].
      now rewrite (list_remove_first l1 (l2 ++ [new_phone]) old_phone Hn1).
    + intros m Hm. now apply find_dict_set_ne.
Qed.

(** X8.  A contact added with one phone and then changed has the new phone
    and nothing else. *)
Theorem add_then_change (n old_phone new_phone : string)
  (book : AddressBook) :
  find book n = None ->
  ten_digits old_phone ->
  ten_digits new_phone ->
  let book1 := fst (add_contact [n; old_phone] book) in
  let book2 := fst (change_contact [n; old_phone; new_phone] book1) in
  find book1 n = Some (mkRecord n [old_phone] None)
  /\ snd (change_contact [n; old_phone; new_phone] book1)
     = Done ("Phone number for " ++ n ++ " changed from "
             ++ old_phone ++ " to " ++ new_phone ++ ".")%string
  /\ find book2 n = Some (mkRecord n [new_phone] None)
  /\ (forall m, m <> n -> find book2 m = find book m).
Proof.
  intros E Hold Hnew. cbv zeta.
  assert (H1 : fst (add_contact [n; old_phone] book)
               = dict_set book n (mkRecord n [old_phone] None)).
  { rewrite add_contact_eq. cbv zeta. rewrite E.
    rewrite (ten_digits_not_empty _ Hold).
    cbn [orb existsb Record__init__ phones].
    rewrite (add_phone_Return old_phone _ Hold). cbn [fst].
    unfold add_record. cbn [name Name]. apply dict_set_twice. }
  rewrite H1, change_contact_eq, find_dict_set_eq, edit_phone_cases.
  unfold find_phone. cbn [phones find_phone_in].
  rewrite String.eqb_refl. apply Phone_Return in Hnew. rewrite Hnew.
  cbn [fst snd name birthday app list_remove]. rewrite String.eqb_refl.
  split; [reflexivity|]. split; [reflexivity|].
  split; [apply find_dict_set_eq|].
  intros m Hm. now rewrite !find_dict_set_ne by exact Hm.
Qed.

Lemma add_then_change_witness :
  find (fst (Bot.change_contact ["Eve"; "1234567890"; "0987654321"]%string
               (fst (Bot.add_contact ["Eve"; "1234567890"]%string
                       leap_day_book)))) "Eve"
  = Some (mkRecord "Eve" ["0987654321"%string] None).
Proof.
  assert (H1 : ten_digits "1234567890") by (apply Phone_Return; reflexivity).
  assert (H2 : ten_digits "0987654321") by (apply Phone_Return; reflexivity).
  destruct (add_then_change "Eve" "1234567890" "0987654321" leap_day_book
              eq_refl H1 H2) as (_ & _ & H & _).
  exact H.
Defined.

(** X9.  A birthday that the handler accepts is shown back as it was typed;
    one that it refuses leaves the whole book as it was. *)
Theorem add_birthday_show_birthday (n b : string) (book : AddressBook)
  (r : record) :
  find book n = Some r ->
  (Birthday b = Return b ->
   snd (Bot.add_birthday [n; b] book) = Done "Birthday added."%string
   /\ snd (show_birthday [n] (fst (Bot.add_birthday [n; b] book))) = Done b
   /\ find (fst (Bot.add_birthday [n; b] book)) n
      = Some (mkRecord (name r) (phones r) (Some b)))
  /\ (Birthday b <> Return b ->
      Bot.add_birthday [n; b] book = (book, Failed (Builtin ValueError))).
Proof.
  intros E. rewrite add_birthday_eq, E. cbn [run].
  rewrite add_birthday_cases. split.
  - intros ->. cbn [fst snd]. split; [reflexivity|].
    unfold show_birthday. rewrite find_dict_set_eq. cbn [birthday snd].
    split; [reflexivity|]. reflexivity.
  - intros H. destruct (Birthday b) as [v|e] eqn:EB.
    + destruct (Birthday_Return _ _ EB) as [-> _]. congruence.
    + apply Birthday_raises in EB as ->. cbn [fst snd].
      now rewrite (dict_set_same book n r E).
Qed.

Lemma add_birthday_show_birthday_witness :
  snd (Bot.show_birthday ["Bob"]%string
         (fst (Bot.add_birthday ["Bob"; "3.1.2001"]%string leap_day_book)))
  = Bot.Done "3.1.2001"%string
  /\ Bot.add_birthday ["Bob"; "31.02.2024"]%string leap_day_book
     = (leap_day_book, Bot.Failed (Bot.Builtin ValueError)).
Proof.
  destruct (add_birthday_show_birthday "Bob" "3.1.2001" leap_day_book
              bob_january eq_refl) as [H1 _].
  destruct (add_birthday_show_birthday "Bob" "31.02.2024" leap_day_book
              bob_january eq_refl) as [_ H2].
  split.
  - apply H1. reflexivity.
  - apply H2. discriminate.
Defined.

(** X10.  A command short of arguments changes nothing; "add", "change" and
    "add-birthday" answer with the text for [ValueError], "phone" and
    "show-birthday" with the text for [IndexError]. *)
Theorem missing_arguments {pickle : Pickle} (files : filesystem)
  (today : Datetime.date) (book : AddressBook) :
  (forall args, (List.length args < 2)%nat ->
     dispatch files today "add" args book
     = ([Print (Text "Give me corect data please.")], Running book))
  /\ (forall args, List.length args <> 3%nat ->
     dispatch files today "change" args book
     = ([Print (Text "Give me corect data please.")], Running book))
  /\ (forall args, List.length args <> 2%nat ->
     dispatch files today "add-birthday" args book
     = ([Print (Text "Give me corect data please.")], Running book))
  /\ dispatch files today "phone" [] book
     = ([Print (Text "Enter user name please")], Running book)
  /\ dispatch files today "show-birthday" [] book
     = ([Print (Text "Enter user name please")], Running book).
Proof.
  split; [|split; [|split; [|split]]]; try reflexivity.
  - intros [|n [|phone rest]] H; try reflexivity. cbn in H. lia.
  - intros [|n [|o [|p [|]]]] H; try reflexivity. cbn in H. lia.
  - intros [|n [|b [|]]] H; try reflexivity. cbn in H. lia.
Qed.

End ChangeAndBirthday.

(** ** A whole session *)

Section Session.

Import Bot.

Context {pickle : Pickle}.

Lemma main_eq (files : filesystem) (loaded : AddressBook)
  (inputs : list input) :
  load_data None files = Done loaded ->
  main files inputs
  = (Print (Text "Welcome to the assistant bot!")
       :: fst (main_loop files inputs loaded),
     snd (main_loop files inputs loaded)).
Proof.
  intros H. unfold main. rewrite H.
  now destruct (main_loop files inputs loaded).
Qed.

Lemma main_load_fails (files : filesystem) (inputs : list input)
  (e : exception) :
  load_data None files = Failed e -> main files inputs = ([], Uncaught e).
Proof. intros H. unfold main. now rewrite H. Qed.


(** X12.  From a book within the invariant, every book the session
    reaches and every book it hands to [save_data] are within the
    invariant: keys are unique, every record is stored under its name,
    phones have ten digits and birthdays are accepted by [strptime]. *)
Theorem main_keeps_book_ok (files : filesystem) (loaded : AddressBook)
  (inputs : list input) :
  load_data None files = Done loaded ->
  book_ok loaded ->
  (forall b, snd (main files inputs) = Running b -> book_ok b)
  /\ (forall b, In (Save b) (fst (main files inputs)) -> book_ok b).
Proof.
  intros El Hb. rewrite (main_eq files loaded inputs El). cbn [fst snd].
  pose proof (main_loop_spec files inputs loaded) as H.
  destruct (main_loop files inputs loaded) as [events st].
  destruct H as [_ Hst]. cbn [fst snd]. split.
  - intros b ->. destruct Hst as [Hok _]. auto.
  - intros b [H|H]; [discriminate H|]. destruct st as [b1|files'|e].
    + destruct Hst as [_ Hns]. destruct (Hns _ H).
    + destruct Hst as (pre & t & l & post & ev & b0 & _ & _ & _ & -> & Hok
                       & Hns & _).
      apply in_app_or in H. destruct H as [H|[H|[H|[]]]].
      * destruct (Hns _ H).
      * injection H as <-. auto.
      * discriminate H.
    + destruct Hst as (pre & post & ev & b0 & _ & Hok & Hns & Hend).
      destruct Hend as [(_ & _ & ->)|(t & l & _ & _ & _ & ->)].
      * destruct (Hns _ H).
      * apply in_app_or in H. destruct H as [H|[H|[]]].
        { destruct (Hns _ H). }
        { injection H as <-. auto. }
Qed.

(** X13.  The book is handed to [save_data] only by the command that
    ends the loop, once, as the commands before it left it, and the good
    bye follows when the call returned; lines after that command are not
    read.  A session that has not ended, or that the end of the input
    ended, has saved nothing.  When [save_data] raises, its call is the
    last event and its exception the one that leaves [main]. *)
Theorem main_saves_on_exit (files : filesystem) (inputs : list input) :
  match snd (main files inputs) with
  | Terminated files' =>
      exists loaded pre today line post ev b,
        load_data None files = Done loaded
        /\ inputs = pre ++ Line today line :: post
        /\ main_loop files pre loaded = (ev, Running b)
        /\ main_step files today line b
           = ([Save b; Print (Text "Good bye!")], Terminated files')
        /\ fst (main files inputs)
           = Print (Text "Welcome to the assistant bot!")
               :: ev ++ [Save b; Print (Text "Good bye!")]
        /\ (forall b', ~ In (Save b') ev)
        /\ save_data b None files = (files', Done tt)
  | Running _ => forall b', ~ In (Save b') (fst (main files inputs))
  | Uncaught e =>
      (forall b', ~ In (Save b') (fst (main files inputs)))
      \/ exists ev b,
           fst (main files inputs)
           = Print (Text "Welcome to the assistant bot!") :: ev ++ [Save b]
           /\ (forall b', ~ In (Save b') ev)
           /\ snd (save_data b None files) = Failed e
  end.
Proof.
  destruct (load_data None files) as [loaded|e0] eqn:El;
    [|rewrite (main_load_fails files inputs e0 El); left; intros b' []].
  rewrite (main_eq files loaded inputs El). cbn [fst snd].
  pose proof (main_loop_spec files inputs loaded) as H.
  destruct (main_loop files inputs loaded) as [events st].
  destruct H as [_ Hst]. cbn [fst snd]. destruct st as [b1|files'|e].
  - destruct Hst as [_ Hns]. intros b' [H|H]; [discriminate H|].
    exact (Hns _ H).
  - destruct Hst as (pre & t & l & post & ev & b & Hin & Hpre & Hlast & ->
                     & _ & Hns & Hsave).
    exists loaded, pre, t, l, post, ev, b. auto 10.
  - destruct Hst as (pre & post & ev & b & _ & _ & Hns & Hend).
    destruct Hend as [(_ & _ & ->)|(t & l & _ & _ & Hsave & ->)].
    + left. intros b' [H|H]; [discriminate H|]. exact (Hns _ H).
    + right. exists ev, b. auto.
Qed.

Lemma save_data_cases (book : AddressBook) (files : filesystem) :
  (exists files', save_data book None files = (files', Done tt))
  \/ (exists e, save_data book None files = (files, Failed e)).
Proof.
  destruct (save_data book None files) as [files' [[]|e]] eqn:E.
  - left. eauto.
  - right. exists e.
    assert (H : snd (save_data book None files) = Failed e) by now rewrite E.
    apply save_data_raises in H. destruct H as [-> H].
    now rewrite E in H.
Qed.

(** X14.  The loop ends on "close" and "exit" and on nothing else: with
    the files as [save_data] left them when it returned, with its
    exception when it raised.  Only "add", "change" and "add-birthday"
    can change the book. *)
Theorem dispatch_exits_and_writes (files : filesystem)
  (today : Datetime.date) (command : string) (args : list string)
  (book : AddressBook) :
  ((forall b, snd (dispatch files today command args book) <> Running b)
   <-> command = "close"%string \/ command = "exit"%string)
  /\ (forall files',
        snd (dispatch files today command args book) = Terminated files'
        <-> (command = "close"%string \/ command = "exit"%string)
            /\ save_data book None files = (files', Done tt))
  /\ (forall e,
        snd (dispatch files today command args book) = Uncaught e
        <-> (command = "close"%string \/ command = "exit"%string)
            /\ snd (save_data book None files) = Failed e)
  /\ (command <> "add"%string -> command <> "change"%string ->
      command <> "add-birthday"%string ->
      forall b, snd (dispatch files today command args book) = Running b ->
                b = book).
Proof.
  assert (Hexit : command = "close"%string \/ command = "exit"%string ->
            dispatch files today command args book
            = match save_data book None files with
              | (files', Done _) =>
                  ([Save book; Print (Text "Good bye!")], Terminated files')
              | (_, Failed e) => ([Save book], Uncaught e)
              end).
  { intros [->| ->]; reflexivity. }
  assert (Hrun : command <> "close"%string -> command <> "exit"%string ->
            exists b, snd (dispatch files today command args book)
                      = Running b
                      /\ (command <> "add"%string ->
                          command <> "change"%string ->
                          command <> "add-birthday"%string -> b = book)).
  { intros H1 H2. unfold dispatch. cbn [existsb].
    apply String.eqb_neq in H1, H2. rewrite H1, H2. cbn [orb].
    repeat match goal with
           | |- context [String.eqb command ?x] =>
               let E := fresh "E" in
               destruct (String.eqb command x) eqn:E;
               [apply String.eqb_eq in E|apply String.eqb_neq in E]
           end; rewrite ?handled_eq; cbn [snd];
      eexists; (split; [reflexivity|]); intros; try congruence.
    - apply show_phone_reads.
    - apply show_birthday_reads.
    - apply birthdays_reads. }
  assert (Hdec : (command = "close"%string \/ command = "exit"%string)
                 \/ (command <> "close"%string /\ command <> "exit"%string)).
  { destruct (string_dec command "close"), (string_dec command "exit");
      tauto. }
  destruct Hdec as [Hex|[Hc He]].
  - rewrite (Hexit Hex).
    destruct (save_data_cases book files) as [[files1 Hs]|[e1 Hs]];
      rewrite Hs; cbn [snd].
    + split; [split; [tauto|discriminate]|].
      split.
      { intros files'. split; [intros [= <-]; tauto|].
        intros [_ [= <-]]. reflexivity. }
      split; [intros e; split; [discriminate|intros [_ [=]]]|].
      intros _ _ _ b. discriminate.
    + split; [split; [tauto|discriminate]|].
      split; [intros files'; split; [discriminate|intros [_ [=]]]|].
      split.
      { intros e. split; [intros [= <-]; tauto|].
        intros [_ [= <-]]. reflexivity. }
      intros _ _ _ b. discriminate.
  - destruct (Hrun Hc He) as (b0 & Hb0 & Hsame). rewrite Hb0.
    split; [split; [intros H; destruct (H b0 eq_refl)|tauto]|].
    split; [intros files'; split; [discriminate|tauto]|].
    split; [intros e; split; [discriminate|tauto]|].
    intros H1 H2 H3 b [= <-]. auto.
Qed.

(** X15.  A line without a word (empty or all whitespace) is answered
    with "Invalid command." and changes nothing: [parse_input] returns the
    text for [ValueError], whose first letter is taken for the command. *)
Theorem blank_line (files : filesystem) (today : Datetime.date)
  (user_input : string) (book : AddressBook) :
  forallb isspace_char (list_ascii_of_string user_input) = true ->
  parse_input user_input = inr (Text "Give me corect data please.")
  /\ main_step files today user_input book
     = ([Print (Text "Invalid command.")], Running book).
Proof.
  intros H. apply split_chars_blank in H. fold (split user_input) in H.
  pose proof (parse_input_cases user_input) as Hp. rewrite H in Hp.
  split; [exact Hp|]. unfold main_step. rewrite Hp. reflexivity.
Qed.

(** X16.  The words [split] finds are never empty and hold no
    whitespace; there is none exactly when the line is blank;
    [parse_input] returns them with the first in lower case, [strip]
    changing nothing. *)
Theorem split_words (s : string) :
  Forall word (split s)
  /\ (split s = [] <-> forallb isspace_char (list_ascii_of_string s) = true)
  /\ (forall cmd args, split s = cmd :: args ->
      parse_input s = inl (lower cmd :: args)).
Proof.
  split; [apply split_chars_words; cbn; tauto|].
  split; [apply split_chars_blank|].
  intros cmd args E. pose proof (parse_input_cases s) as H.
  now rewrite E in H.
Qed.

(** X17.  Words joined by single blanks are split into the same words, so
    a line typed as command and arguments reaches the dispatch with the
    command in lower case and the arguments as typed. *)
Theorem parse_input_join (cmd : string) (args : list string) :
  word cmd -> Forall word args ->
  split (join " " (cmd :: args)) = cmd :: args
  /\ parse_input (join " " (cmd :: args)) = inl (lower cmd :: args)
  /\ (forall files today book,
        main_step files today (join " " (cmd :: args)) book
        = dispatch files today (lower cmd) args book).
Proof.
  intros Hc Ha.
  assert (Hs : split (join " " (cmd :: args)) = cmd :: args)
    by (apply split_join; now constructor).
  pose proof (parse_input_cases (join " " (cmd :: args))) as Hp.
  rewrite Hs in Hp. split; [exact Hs|]. split; [exact Hp|].
  intros files today book. unfold main_step. now rewrite Hp.
Qed.

End Session.

Lemma main_keeps_book_ok_witness :
  let inputs :=
    [ Bot.Line (Datetime.mkdate 2025 1 1) "add Bob 1234567890";
      Bot.Line (Datetime.mkdate 2025 1 1) "add-birthday Bob 03.01.2000";
      Bot.Line (Datetime.mkdate 2025 1 2) "change Bob 1234567890 123";
      Bot.Line (Datetime.mkdate 2025 1 2) "exit" ] in
  In (Bot.Save [("Bob"%string, bob_january)])
    (fst (Bot.main (pickle := text_pickle) no_files inputs))
  /\ book_ok [("Bob"%string, bob_january)].
Proof.
  cbv zeta.
  assert (Hin : In (Bot.Save [("Bob"%string, bob_january)])
                  (fst (Bot.main (pickle := text_pickle) no_files
                     [ Bot.Line (Datetime.mkdate 2025 1 1)
                         "add Bob 1234567890";
                       Bot.Line (Datetime.mkdate 2025 1 1)
                         "add-birthday Bob 03.01.2000";
                       Bot.Line (Datetime.mkdate 2025 1 2)
                         "change Bob 1234567890 123";
                       Bot.Line (Datetime.mkdate 2025 1 2) "exit" ]))).
  { vm_compute. do 4 right. left. reflexivity. }
  split; [exact Hin|].
  assert (Hb : book_ok []).
  { split; [constructor|]. intros k r []. }
  exact (proj2 (main_keeps_book_ok (pickle := text_pickle) no_files [] _
                  eq_refl Hb) _ Hin).
Defined.

Lemma blank_line_witness :
  Bot.main_step (pickle := text_pickle) no_files (Datetime.mkdate 2025 1 1)
    "   " leap_day_book
  = ([Bot.Print (Bot.Text "Invalid command.")], Bot.Running leap_day_book).
Proof.
  apply (blank_line (pickle := text_pickle) no_files
           (Datetime.mkdate 2025 1 1) "   " leap_day_book).
  reflexivity.
Defined.

Lemma parse_input_join_witness :
  Bot.parse_input "ADD Bob 1234567890"
  = inl ["add"; "Bob"; "1234567890"]%string.
Proof.
  refine (proj1 (proj2 (parse_input_join (pickle := text_pickle) "ADD"
                          ["Bob"; "1234567890"]%string _ _))).
  - split; [discriminate|]. cbn. intros c H.
    repeat (destruct H as [<-|H]; [reflexivity|]). destruct H.
  - repeat constructor; try discriminate; cbn; intros c H;
      repeat (destruct H as [<-|H]; [reflexivity|]); destruct H.
Defined.

(** ** Dates in order, and how far ahead the projection goes *)

Section Order.
Import Datetime.

Ltac month_tables :=
  cbn [_DAYS_BEFORE_MONTH _DAYS_IN_MONTH Z.eqb Z.ltb Z.compare Pos.eqb
       Pos.compare Pos.compare_cont andb] in *.

Lemma days_before_year_succ (y : Z) :
  _days_before_year (y + 1)
  = _days_before_year y + 365 + (if _is_leap y then 1 else 0).
Proof.
  destruct (_is_leap y) eqn:E.
  - apply is_leap_spec in E. unfold _days_before_year. cbv zeta.
    Z.div_mod_to_equations. lia.
  - assert (H : ~ (y mod 4 = 0 /\ (y mod 100 <> 0 \/ y mod 400 = 0))).
    { intros H. apply is_leap_spec in H. congruence. }
    unfold _days_before_year. cbv zeta.
    Z.div_mod_to_equations. lia.
Qed.

Lemma days_before_year_mono (y1 y2 : Z) :
  y1 <= y2 -> _days_before_year y1 <= _days_before_year y2.
Proof.
  intros H. unfold _days_before_year. cbv zeta.
  Z.div_mod_to_equations. lia.
Qed.

Lemma day_of_year_range (y m d : Z) :
  1 <= m <= 12 -> 1 <= d <= _days_in_month y m ->
  1 <= _days_before_month y m + d <= 365 + (if _is_leap y then 1 else 0).
Proof.
  intros Hm Hd. unfold _days_before_month, _days_in_month in *.
  assert (Hm' : m = 1 \/ m = 2 \/ m = 3 \/ m = 4 \/ m = 5 \/ m = 6 \/ m = 7
                \/ m = 8 \/ m = 9 \/ m = 10 \/ m = 11 \/ m = 12) by lia.
  destruct (_is_leap y);
    repeat (destruct Hm' as [->|Hm']); try subst m; month_tables; lia.
Qed.

Lemma day_of_year_mono (y m1 d1 m2 d2 : Z) :
  1 <= m1 -> m1 < m2 -> m2 <= 12 ->
  d1 <= _days_in_month y m1 -> 1 <= d2 ->
  _days_before_month y m1 + d1 < _days_before_month y m2 + d2.
Proof.
  intros H1 H12 H2 Hd1 Hd2. unfold _days_before_month, _days_in_month in *.
  assert (Hm1 : m1 = 1 \/ m1 = 2 \/ m1 = 3 \/ m1 = 4 \/ m1 = 5 \/ m1 = 6
                \/ m1 = 7 \/ m1 = 8 \/ m1 = 9 \/ m1 = 10 \/ m1 = 11) by lia.
  assert (Hm2 : m2 = 2 \/ m2 = 3 \/ m2 = 4 \/ m2 = 5 \/ m2 = 6 \/ m2 = 7
                \/ m2 = 8 \/ m2 = 9 \/ m2 = 10 \/ m2 = 11 \/ m2 = 12) by lia.
  destruct (_is_leap y);
    repeat (destruct Hm1 as [->|Hm1]); try subst m1;
    repeat (destruct Hm2 as [->|Hm2]); try subst m2;
    try lia; month_tables; lia.
Qed.

(** Dates compare as their ordinals do. *)
Lemma toordinal_lt (a b : date) :
  valid_date a -> valid_date b ->
  date_lt a b = true -> toordinal a < toordinal b.
Proof.
  unfold valid_date, toordinal, date_lt.
  destruct a as [y1 m1 d1], b as [y2 m2 d2]. cbn [year month day].
  intros Ha Hb. apply check_date_fields_spec in Ha, Hb.
  destruct Ha as (Hy1 & Hm1 & Hd1). destruct Hb as (Hy2 & Hm2 & Hd2).
  repeat (rewrite orb_true_iff || rewrite andb_true_iff).
  rewrite !Z.ltb_lt, !Z.eqb_eq. unfold _ymd2ord.
  pose proof (day_of_year_range y1 m1 d1 Hm1 Hd1) as R1.
  pose proof (day_of_year_range y2 m2 d2 Hm2 Hd2) as R2.
  intros [Hy|[-> [Hm|[-> Hd]]]].
  - pose proof (days_before_year_succ y1) as Hs.
    pose proof (days_before_year_mono (y1 + 1) y2 ltac:(lia)) as Hmono.
    lia.
  - pose proof (day_of_year_mono y2 m1 d1 m2 d2) as H. lia.
  - lia.
Qed.

Lemma date_lt_toordinal (a b : date) :
  valid_date a -> valid_date b ->
  (date_lt a b = true <-> toordinal a < toordinal b).
Proof.
  intros Ha Hb. split; [now apply toordinal_lt|].
  intros Hlt. destruct (date_lt a b) eqn:E; [reflexivity|exfalso].
  assert (Hcases : a = b \/ date_lt b a = true).
  { destruct a as [y1 m1 d1], b as [y2 m2 d2]. unfold date_lt in *.
    cbn [year month day] in *.
    repeat (rewrite orb_false_iff in E || rewrite andb_false_iff in E).
    rewrite !Z.ltb_ge, !Z.eqb_neq in E.
    repeat (rewrite orb_true_iff || rewrite andb_true_iff).
    rewrite !Z.ltb_lt, !Z.eqb_eq.
    assert (H : (y1 = y2 /\ m1 = m2 /\ d1 = d2)
                \/ (y2 < y1 \/ y2 = y1 /\ (m2 < m1 \/ m2 = m1 /\ d2 < d1)))
      by lia.
    destruct H as [(-> & -> & ->)|H]; auto. }
  destruct Hcases as [->|H]; [lia|].
  pose proof (toordinal_lt b a Hb Ha H). lia.
Qed.

(** One year on, the same month and day are 365 or 366 days later. *)
Lemma toordinal_next_year (y m d : Z) :
  1 <= m <= 12 ->
  365 <= _ymd2ord (y + 1) m d - _ymd2ord y m d <= 366.
Proof.
  intros Hm. unfold _ymd2ord, _days_before_month.
  rewrite days_before_year_succ.
  destruct (_is_leap y) eqn:E1; destruct (_is_leap (y + 1)) eqn:E2;
    destruct (2 <? m); cbn [andb]; lia.
Qed.

Lemma projected_bounds (today bd p : date) :
  valid_date today ->
  project today bd = Return p ->
  0 <= days_between p today <= 365.
Proof.
  intros Ht Hp. pose proof (project_Return today bd p Hp) as (Hv & _ & _ & _ & Hnlt).
  assert (H0 : toordinal today <= toordinal p).
  { destruct (Z_lt_le_dec (toordinal p) (toordinal today)) as [Hlt|Hle];
      [|exact Hle].
    apply (date_lt_toordinal p today Hv Ht) in Hlt. congruence. }
  unfold days_between. split; [lia|].
  unfold project in Hp. apply bind_Return in Hp.
  destruct Hp as (d & Hd & Hp). apply replace_year_Return in Hd.
  destruct Hd as [Hvd ->].
  pose proof Ht as Ht'. unfold valid_date in Ht'.
  apply check_date_fields_spec in Ht'. destruct Ht' as (Hty & Htm & Htd).
  pose proof (day_of_year_range _ _ _ Htm Htd) as Rt.
  pose proof Hvd as Hvd'. unfold valid_date in Hvd'. cbn [year month day] in Hvd'.
  apply check_date_fields_spec in Hvd'. destruct Hvd' as (_ & Hdm & Hdd).
  pose proof (day_of_year_range _ _ _ Hdm Hdd) as Rd.
  destruct (date_lt _ today) eqn:Hlt.
  - apply replace_year_Return in Hp. destruct Hp as [_ ->].
    apply (toordinal_lt _ _ Hvd Ht) in Hlt.
    pose proof (toordinal_next_year (year today) (month bd) (day bd) Hdm).
    unfold toordinal in *. cbn [year month day] in *. lia.
  - injection Hp as <-. unfold toordinal, _ymd2ord in *.
    cbn [year month day] in *. destruct (_is_leap (year today)); lia.
Qed.

(** A date of next year within seven days of today: today is in the last
    week of December and the date in the first week of January. *)
Lemma new_year_window (today p : date) :
  valid_date today -> valid_date p ->
  year p = year today + 1 ->
  days_between p today <= 7 ->
  month today = 12 /\ month p = 1
  /\ days_between p today = 31 - day today + day p.
Proof.
  unfold valid_date, days_between, toordinal.
  destruct today as [Y tm td], p as [y m d]. cbn [year month day].
  intros Ht Hp -> Hw.
  apply check_date_fields_spec in Ht. destruct Ht as (HY & Htm & Htd).
  apply check_date_fields_spec in Hp. destruct Hp as (_ & Hm & Hd).
  unfold _ymd2ord in *. rewrite days_before_year_succ in *.
  unfold _days_before_month, _days_in_month in *.
  assert (Hm' : m = 1 \/ m = 2 \/ m = 3 \/ m = 4 \/ m = 5 \/ m = 6 \/ m = 7
                \/ m = 8 \/ m = 9 \/ m = 10 \/ m = 11 \/ m = 12) by lia.
  assert (Htm' : tm = 1 \/ tm = 2 \/ tm = 3 \/ tm = 4 \/ tm = 5 \/ tm = 6
                 \/ tm = 7 \/ tm = 8 \/ tm = 9 \/ tm = 10 \/ tm = 11
                 \/ tm = 12) by lia.
  destruct (_is_leap Y); destruct (_is_leap (Y + 1));
    repeat (destruct Hm' as [->|Hm']); try subst m;
    repeat (destruct Htm' as [->|Htm']); try subst tm;
    month_tables; lia.
Qed.

End Order.

Section UpcomingDates.

Import Datetime.

(** X18.  The projected birthday is the next occurrence: it is never before
    today and at most 365 days ahead, so the lower bound of the window
    test always holds and the test comes down to "at most 7 days ahead". *)
Theorem projected_next_occurrence (today bd p : date) :
  valid_date today ->
  project today bd = Return p ->
  0 <= days_between p today <= 365
  /\ in_window today p = (days_between p today <=? 7).
Proof.
  intros Ht Hp. pose proof (projected_bounds today bd p Ht Hp) as H.
  split; [exact H|]. unfold in_window. cbv zeta.
  replace (0 <=? days_between p today) with true
    by (symmetry; apply Z.leb_le; lia).
  reflexivity.
Qed.

Lemma projected_next_occurrence_witness :
  project (mkdate 2025 12 30) (mkdate 2000 1 2) = Return (mkdate 2026 1 2)
  /\ 0 <= days_between (mkdate 2026 1 2) (mkdate 2025 12 30) <= 365
  /\ in_window (mkdate 2025 12 30) (mkdate 2026 1 2) = true.
Proof.
  split; [reflexivity|].
  destruct (projected_next_occurrence (mkdate 2025 12 30) (mkdate 2000 1 2)
              (mkdate 2026 1 2) eq_refl eq_refl) as [H1 H2].
  split; [exact H1|]. rewrite H2. reflexivity.
Defined.

(** X19.  A birthday moved into next year is inside the window only across
    the turn of the year: today is between 25 and 31 December and the
    birthday between 1 and 7 January. *)
Theorem next_year_only_at_new_year (today bd p : date) :
  valid_date today ->
  project today bd = Return p ->
  year p = year today + 1 ->
  in_window today p = true ->
  month today = 12 /\ 25 <= day today <= 31
  /\ month p = 1 /\ 1 <= day p <= 7
  /\ days_between p today = 31 - day today + day p.
Proof.
  intros Ht Hp Hy Hw. apply in_window_spec in Hw.
  destruct (project_Return today bd p Hp) as (Hv & _).
  destruct (new_year_window today p Ht Hv Hy (proj2 Hw)) as (Hm & Hpm & Hd).
  pose proof Ht as Ht'. unfold valid_date in Ht'.
  apply check_date_fields_spec in Ht'. destruct Ht' as (_ & _ & Htd).
  pose proof Hv as Hv'. unfold valid_date in Hv'.
  apply check_date_fields_spec in Hv'. destruct Hv' as (_ & _ & Hpd).
  rewrite Hm in Htd. rewrite Hpm in Hpd.
  unfold _days_in_month in Htd, Hpd. cbn in Htd, Hpd.
  repeat split; try assumption; lia.
Qed.

Lemma next_year_only_at_new_year_witness :
  month (mkdate 2025 12 30) = 12 /\ 25 <= day (mkdate 2025 12 30) <= 31
  /\ month (mkdate 2026 1 2) = 1 /\ 1 <= day (mkdate 2026 1 2) <= 7
  /\ days_between (mkdate 2026 1 2) (mkdate 2025 12 30)
     = 31 - day (mkdate 2025 12 30) + day (mkdate 2026 1 2).
Proof.
  apply (next_year_only_at_new_year (mkdate 2025 12 30) (mkdate 2000 1 2)
           (mkdate 2026 1 2)); reflexivity.
Defined.

(** X20.  Every date the query reports is a working day, Monday to Friday,
    not before today and at most nine days ahead, written by [strftime]. *)
Theorem reported_dates_are_working_days (today : date) (book : AddressBook)
  (l : list entry) :
  valid_date today ->
  get_upcoming_birthdays today book = Return l ->
  forall e, In e l ->
    exists r c,
      In r (values book) /\ entry_name e = name r
      /\ valid_date c /\ entry_birthday e = strftime c
      /\ 0 <= weekday c <= 4
      /\ 0 <= days_between c today <= 9.
Proof.
  intros Ht Hl e He.
  apply (get_upcoming_birthdays_window today book l Hl) in He.
  destruct He as (r & value & bd & p & c & Hin & Hb & Hbd & Hp & Hw & Hc & ->).
  destruct (project_Return today bd p Hp) as (Hv & _).
  destruct (congratulation_spec p Hv) as (c' & Hc' & Hvc & Hsat & Hsun & Hweek).
  rewrite Hc in Hc'. injection Hc' as <-.
  exists r, c. cbn [entry_name entry_birthday].
  split; [exact Hin|]. split; [reflexivity|]. split; [exact Hvc|].
  split; [reflexivity|].
  assert (Hwd : 0 <= weekday p < 7) by (apply Z.mod_pos_bound; lia).
  unfold days_between in *.
  assert (Hcase : weekday p = 5 \/ weekday p = 6 \/ weekday p < 5) by lia.
  destruct Hcase as [H|[H|H]].
  - destruct (Hsat H) as [Ho Hm]. lia.
  - destruct (Hsun H) as [Ho Hm]. lia.
  - rewrite (Hweek H). lia.
Qed.

Lemma reported_dates_are_working_days_witness :
  exists r c,
    In r (values (add_record [] bob_january))
    /\ entry_name (mkEntry "Bob" "05.01.2026") = name r
    /\ valid_date c
    /\ entry_birthday (mkEntry "Bob" "05.01.2026") = strftime c
    /\ 0 <= weekday c <= 4
    /\ 0 <= days_between c (mkdate 2025 12 30) <= 9.
Proof.
  apply (reported_dates_are_working_days (mkdate 2025 12 30)
           (add_record [] bob_january) [mkEntry "Bob" "05.01.2026"]).
  - reflexivity.
  - reflexivity.
  - left. reflexivity.
Defined.

End UpcomingDates.

(** ** Removing a phone *)

(** X3.  [remove_phone] raises [ValueError] and changes nothing when the
    phone is not there; when it is, exactly its first occurrence goes and
    the other phones stay in their order. *)
Theorem remove_phone_spec (r : record) (phone : string) :
  (~ In phone (phones r) -> remove_phone phone r = (r, Raise ValueError))
  /\ (forall l1 l2,
        phones r = l1 ++ phone :: l2 -> ~ In phone l1 ->
        remove_phone phone r
        = (mkRecord (name r) (l1 ++ l2) (birthday r), Return tt)).
Proof.
  unfold remove_phone, find_phone. split.
  - intros H. apply find_phone_in_None in H. now rewrite H.
  - intros l1 l2 Hl Hn.
    rewrite (find_phone_in_In (phones r) phone)
      by (rewrite Hl; apply in_or_app; cbn; auto).
    now rewrite Hl, (list_remove_first l1 l2 phone Hn).
Qed.

(** ** Writing a date and reading it back *)

Section RoundTrip.
Import Datetime Strptime.

Lemma zero_padded_2 (n : Z) :
  zero_padded 2 n = [digit_char (n / 10); digit_char n].
Proof.
  unfold zero_padded. cbn [seq map rev app Z.of_nat].
  change (10 ^ 1) with 10. change (10 ^ 0) with 1. now rewrite Z.div_1_r.
Qed.

Lemma zero_padded_4 (n : Z) :
  zero_padded 4 n
  = [digit_char (n / 1000); digit_char (n / 100); digit_char (n / 10);
     digit_char n].
Proof.
  unfold zero_padded. cbn [seq map rev app Z.of_nat].
  change (10 ^ Z.pos (Pos.of_succ_nat 2)) with 1000.
  change (10 ^ Z.pos (Pos.of_succ_nat 1)) with 100.
  change (10 ^ Z.pos (Pos.of_succ_nat 0)) with 10.
  change (10 ^ 0) with 1. now rewrite Z.div_1_r.
Qed.

Lemma code_digit_char (n : Z) : code (digit_char n) = 48 + n mod 10.
Proof.
  unfold code, digit_char.
  pose proof (Z.mod_pos_bound n 10 ltac:(lia)) as H.
  rewrite N_ascii_embedding by lia. lia.
Qed.

Lemma is_decimal_digit_char (n : Z) : is_decimal (digit_char n) = true.
Proof.
  unfold is_decimal, in_range. rewrite code_digit_char.
  pose proof (Z.mod_pos_bound n 10 ltac:(lia)) as H.
  change (code "0") with 48. change (code "9") with 57.
  apply andb_true_iff. rewrite !Z.leb_le. lia.
Qed.

Lemma digit_char_not_space (n : Z) : Ascii.eqb (digit_char n) " " = false.
Proof.
  apply Ascii.eqb_neq. intros E. apply (f_equal code) in E.
  rewrite code_digit_char in E. change (code " ") with 32 in E.
  pose proof (Z.mod_pos_bound n 10 ltac:(lia)). lia.
Qed.

(** The day, on two digits, is taken by the first alternative of [%d] that
    fits, and that one takes both digits. *)
Lemma match_day (D : Z) (items : list item) (rest : list ascii)
  (groups : list (list ascii)) (r : list ascii) :
  1 <= D <= 31 ->
  match_items items rest = Some (groups, r) ->
  match_items (directive_d :: items) (zero_padded 2 D ++ rest)
  = Some (zero_padded 2 D :: groups, r).
Proof.
  intros HD H.
  assert (HD' : D = 1 \/ D = 2 \/ D = 3 \/ D = 4 \/ D = 5 \/ D = 6 \/ D = 7
    \/ D = 8 \/ D = 9 \/ D = 10 \/ D = 11 \/ D = 12 \/ D = 13 \/ D = 14
    \/ D = 15 \/ D = 16 \/ D = 17 \/ D = 18 \/ D = 19 \/ D = 20 \/ D = 21
    \/ D = 22 \/ D = 23 \/ D = 24 \/ D = 25 \/ D = 26 \/ D = 27 \/ D = 28
    \/ D = 29 \/ D = 30 \/ D = 31) by lia.
  repeat (destruct HD' as [->|HD']); try subst D;
    cbn; rewrite H; reflexivity.
Qed.

Lemma match_month (M : Z) (items : list item) (rest : list ascii)
  (groups : list (list ascii)) (r : list ascii) :
  1 <= M <= 12 ->
  match_items items rest = Some (groups, r) ->
  match_items (directive_m :: items) (zero_padded 2 M ++ rest)
  = Some (zero_padded 2 M :: groups, r).
Proof.
  intros HM H.
  assert (HM' : M = 1 \/ M = 2 \/ M = 3 \/ M = 4 \/ M = 5 \/ M = 6 \/ M = 7
    \/ M = 8 \/ M = 9 \/ M = 10 \/ M = 11 \/ M = 12) by lia.
  repeat (destruct HM' as [->|HM']); try subst M;
    cbn; rewrite H; reflexivity.
Qed.

Lemma match_dot (items : list item) (rest : list ascii) :
  match_items (Char "." :: items) ("."%char :: rest) = match_items items rest.
Proof. reflexivity. Qed.

Lemma match_year (Y : Z) :
  match_items [directive_Y] (zero_padded 4 Y)
  = Some ([zero_padded 4 Y], []).
Proof.
  rewrite zero_padded_4. cbn. rewrite !is_decimal_digit_char. reflexivity.
Qed.

Lemma digits_value_digit (acc n : Z) (rest : list ascii) :
  digits_value acc (digit_char n :: rest)
  = digits_value (acc * 10 + n mod 10) rest.
Proof.
  cbn [digits_value]. rewrite is_decimal_digit_char, code_digit_char.
  f_equal. lia.
Qed.

Lemma int_digit (n : Z) (rest : list ascii) :
  int (digit_char n :: rest) = digits_value 0 (digit_char n :: rest).
Proof. cbn [int]. now rewrite digit_char_not_space. Qed.

Lemma int_zero_padded_2 (n : Z) :
  0 <= n < 100 -> int (zero_padded 2 n) = Return n.
Proof.
  intros H. rewrite zero_padded_2, int_digit, !digits_value_digit.
  cbn [digits_value]. f_equal. Z.div_mod_to_equations. lia.
Qed.

Lemma int_zero_padded_4 (n : Z) :
  0 <= n < 10000 -> int (zero_padded 4 n) = Return n.
Proof.
  intros H. rewrite zero_padded_4, int_digit, !digits_value_digit.
  cbn [digits_value]. f_equal. Z.div_mod_to_equations. lia.
Qed.

Lemma decimal_four (n : Z) : 1000 <= n -> decimal n = zero_padded 4 n.
Proof.
  intros H. unfold decimal, decimal_width.
  destruct (n <? 10) eqn:E1; [apply Z.ltb_lt in E1; lia|].
  destruct (n <? 100) eqn:E2; [apply Z.ltb_lt in E2; lia|].
  destruct (n <? 1000) eqn:E3; [apply Z.ltb_lt in E3; lia|reflexivity].
Qed.

Lemma length_zero_padded (width : nat) (n : Z) :
  List.length (zero_padded width n) = width.
Proof. unfold zero_padded. now rewrite length_rev, length_map, length_seq. Qed.

Lemma decimal_short (n : Z) :
  n < 1000 -> (List.length (decimal n) < 4)%nat.
Proof.
  intros H. unfold decimal. rewrite length_zero_padded. unfold decimal_width.
  destruct (n <? 10); [lia|]. destruct (n <? 100); [lia|].
  destruct (n <? 1000) eqn:E; [lia|]. apply Z.ltb_ge in E. lia.
Qed.

(** From the year 1000 on, what [strftime] writes is read back by
    [strptime] as the same date. *)
Lemma strptime_strftime_date (d : date) :
  valid_date d -> 1000 <= year d -> strptime (strftime d) = Return d.
Proof.
  intros Hv H1000. pose proof Hv as Hv'. unfold valid_date in Hv'.
  apply check_date_fields_spec in Hv'. destruct Hv' as (Hy & Hm & Hd).
  assert (Hd31 : 1 <= day d <= 31).
  { unfold _days_in_month in Hd.
    destruct ((month d =? 2) && _is_leap (year d)); [lia|].
    assert (Hm' : month d = 1 \/ month d = 2 \/ month d = 3 \/ month d = 4
      \/ month d = 5 \/ month d = 6 \/ month d = 7 \/ month d = 8
      \/ month d = 9 \/ month d = 10 \/ month d = 11 \/ month d = 12) by lia.
    repeat (destruct Hm' as [E|Hm']; [rewrite E in Hd; cbn in Hd; lia|]).
    rewrite Hm' in Hd. cbn in Hd. lia. }
  unfold strptime, strftime. rewrite list_ascii_of_string_of_list_ascii.
  rewrite (decimal_four (year d) H1000). unfold format_regex.
  rewrite (match_day (day d) _ _
             [zero_padded 2 (month d); zero_padded 4 (year d)] [] Hd31).
  - rewrite int_zero_padded_4 by (unfold MINYEAR, MAXYEAR in *; lia).
    rewrite !int_zero_padded_2 by lia. cbn [bind].
    unfold date_new. unfold valid_date in Hv. rewrite Hv. now destruct d.
  - cbn [app]. rewrite match_dot.
    apply (match_month (month d) _ _ [zero_padded 4 (year d)] [] Hm).
    cbn [app]. rewrite match_dot. apply match_year.
Qed.

Lemma strftime_length (d : date) :
  1000 <= year d -> String.length (strftime d) = 10%nat.
Proof.
  intros H. unfold strftime.
  rewrite (decimal_four (year d) H), !zero_padded_2, zero_padded_4.
  reflexivity.
Qed.

(** X22.  A book in which no record has a birthday, the empty book among
    them, gives an empty list, and the handler says so. *)
Theorem no_birthday_no_entry (today : date) (args : list string)
  (book : AddressBook) :
  (forall r, In r (values book) -> birthday r = None) ->
  get_upcoming_birthdays today book = Return []
  /\ Bot.birthdays today args book
     = (book, Bot.Done "No upcoming birthdays."%string).
Proof.
  intros H.
  assert (Hq : get_upcoming_birthdays today book = Return []).
  { unfold get_upcoming_birthdays. induction (values book) as [|r rs IH];
      [reflexivity|].
    cbn [upcoming_loop]. unfold upcoming_entry at 1.
    rewrite (H r) by (cbn; auto). cbn [bind].
    apply IH. intros r' Hr'. apply H. cbn. auto. }
  split; [exact Hq|]. unfold Bot.birthdays. now rewrite Hq.
Qed.

Lemma no_birthday_no_entry_witness :
  Bot.birthdays (mkdate 2025 1 1) [] [("Bob"%string, bob)]
  = ([("Bob"%string, bob)], Bot.Done "No upcoming birthdays."%string).
Proof.
  apply (no_birthday_no_entry (mkdate 2025 1 1) [] [("Bob"%string, bob)]).
  intros r [<-|[]]. reflexivity.
Defined.

End RoundTrip.

(** ** The names in the book *)

Section Names.

Import Bot.

Context {pickle : Pickle}.

Lemma keys_call_method (k : string) (r : record) (c : call)
  (book : AddressBook) :
  find book k = Some r ->
  keys (fst (call_method k r (run c) book)) = keys book.
Proof.
  intros E. rewrite call_method_run. cbn [fst].
  now rewrite keys_dict_set, E.
Qed.

(** [add_contact] adds at most one name, its first argument, at the end. *)
Lemma add_contact_keys (args : list string) (book : AddressBook) :
  exists added,
    keys (fst (add_contact args book)) = keys book ++ added
    /\ (added = [] \/ exists n rest, args = n :: rest /\ added = [n]).
Proof.
  destruct args as [|n [|phone rest]];
    try (exists []; split; [now rewrite app_nil_r|auto]).
  rewrite add_contact_eq. cbv zeta.
  destruct (find book n) as [r|] eqn:E.
  - exists []. rewrite app_nil_r. split; [|auto].
    destruct (_ || _); cbn [fst]; [reflexivity|].
    now rewrite keys_dict_set, E.
  - exists [n]. split; [|right; eauto].
    assert (Hk : keys (add_record book (Record__init__ n)) = keys book ++ [n]).
    { unfold add_record. change (name (Record__init__ n)) with n.
      now rewrite keys_dict_set, E. }
    destruct (_ || _); cbn [fst]; [exact Hk|].
    rewrite keys_dict_set.
    unfold add_record at 1. change (name (Record__init__ n)) with n.
    rewrite find_dict_set_eq. exact Hk.
Qed.

Lemma change_contact_keys (args : list string) (book : AddressBook) :
  keys (fst (change_contact args book)) = keys book.
Proof.
  unfold change_contact.
  destruct args as [|n [|old [|new [|]]]]; try reflexivity.
  destruct (find book n) as [r|] eqn:E; [|reflexivity].
  pose proof (keys_call_method n r (Call_edit_phone old new) book E) as H.
  cbn [run] in H. now destruct (call_method _ _ _ _) as [b' []].
Qed.

Lemma add_birthday_keys (args : list string) (book : AddressBook) :
  keys (fst (Bot.add_birthday args book)) = keys book.
Proof.
  unfold Bot.add_birthday.
  destruct args as [|n [|b [|]]]; try reflexivity.
  destruct (find book n) as [r|] eqn:E; [|reflexivity].
  pose proof (keys_call_method n r (Call_add_birthday b) book E) as H.
  cbn [run] in H. now destruct (call_method _ _ _ _) as [b' []].
Qed.

Lemma dispatch_keys (files : filesystem) (today : Datetime.date)
  (command : string) (args : list string) (book b : AddressBook) :
  snd (dispatch files today command args book) = Running b ->
  exists added,
    keys b = keys book ++ added
    /\ (added = []
        \/ command = "add"%string
           /\ exists n rest, args = n :: rest /\ added = [n]).
Proof.
  unfold dispatch. cbn [existsb].
  repeat match goal with
         | |- context [String.eqb command ?x] =>
             let E := fresh "E" in
             destruct (String.eqb command x) eqn:E;
             [apply String.eqb_eq in E|clear E]
         end; cbn [orb]; cbv iota; rewrite ?handled_eq; cbn [snd];
    try (destruct (save_data book None files) as [files' [[]|e]];
         discriminate);
    intros [= <-];
    try (exists []; split; [now rewrite app_nil_r|auto]; fail).
  - destruct (add_contact_keys args book) as (added & Hk & Ha).
    exists added. split; [exact Hk|]. destruct Ha; auto.
  - exists []. rewrite app_nil_r, change_contact_keys. auto.
  - exists []. rewrite app_nil_r, (proj1 (show_phone_reads args book)). auto.
  - exists []. rewrite app_nil_r, add_birthday_keys. auto.
  - exists []. rewrite app_nil_r, (proj1 (show_birthday_reads args book)).
    auto.
  - exists []. rewrite app_nil_r, (proj1 (birthdays_reads today args book)).
    auto.
Qed.

Lemma main_step_keys (files : filesystem) (today : Datetime.date)
  (user_input : string) (book b : AddressBook) :
  snd (main_step files today user_input book) = Running b ->
  exists added, keys b = keys book ++ added /\ Forall word added.
Proof.
  unfold main_step. pose proof (parse_input_cases user_input) as H.
  pose proof (split_chars_words (list_ascii_of_string user_input) []
                ltac:(cbn; tauto)) as Hw.
  fold (split user_input) in Hw.
  destruct (split user_input) as [|cmd args]; rewrite H.
  - cbn. intros [= <-]. exists []. now rewrite app_nil_r.
  - intros Hd. apply dispatch_keys in Hd.
    destruct Hd as (added & Hk & [->|(_ & n & rest & -> & ->)]).
    + exists []. auto.
    + exists [n]. split; [exact Hk|]. inversion Hw as [|? ? _ Hargs]; subst.
      inversion Hargs; subst. auto.
Qed.

Lemma main_loop_keys (files : filesystem) (inputs : list input) :
  forall book b,
    snd (main_loop files inputs book) = Running b
    \/ In (Save b) (fst (main_loop files inputs book)) ->
    exists added, keys b = keys book ++ added /\ Forall word added.
Proof.
  induction inputs as [|[today line|] inputs IH]; intros book b;
    cbn [main_loop].
  - cbn. intros [[= <-]|[]]. exists []. now rewrite app_nil_r.
  - pose proof (main_step_well_behaved files today line book) as Hs.
    pose proof (main_step_keys files today line book) as Hk.
    destruct (main_step files today line book) as [ev [b1|files'|e]];
      unfold well_behaved in Hs; cbn [snd] in Hk.
    + destruct Hs as (_ & _ & Hns).
      destruct (Hk b1 eq_refl) as (added1 & Hk1 & Hw1).
      specialize (IH b1 b).
      destruct (main_loop files inputs b1) as [ev' st']. cbn [fst snd] in *.
      intros H.
      assert (H' : st' = Running b \/ In (Save b) ev').
      { destruct H as [H|H]; [auto|].
        apply in_app_or in H. destruct H as [H|H]; [destruct (Hns _ H)|auto]. }
      destruct (IH H') as (added2 & Hk2 & Hw2).
      exists (added1 ++ added2). rewrite Hk2, Hk1, app_assoc.
      split; [reflexivity|now apply Forall_app].
    + destruct Hs as (_ & -> & _). cbn [fst snd].
      intros [H|[H|[H|[]]]]; try discriminate H.
      injection H as <-. exists []. now rewrite app_nil_r.
    + destruct Hs as (_ & -> & _). cbn [fst snd].
      intros [H|[H|[]]]; try discriminate H.
      injection H as <-. exists []. now rewrite app_nil_r.
  - cbn. intros [H|[]]. discriminate H.
Qed.

(** X23.  No command removes or reorders contacts: the names in every
    book a session reaches or hands to [save_data] are the names loaded,
    in the same order, followed by the names added, each of them a
    word. *)
Theorem main_only_appends_names (files : filesystem) (loaded : AddressBook)
  (inputs : list input) (b : AddressBook) :
  load_data None files = Done loaded ->
  snd (main files inputs) = Running b
  \/ In (Save b) (fst (main files inputs)) ->
  exists added, keys b = keys loaded ++ added /\ Forall word added.
Proof.
  intros El. rewrite (main_eq files loaded inputs El). cbn [fst snd].
  intros H. apply (main_loop_keys files inputs loaded b).
  destruct H as [H|[H|H]]; [auto|discriminate H|auto].
Qed.

End Names.

Lemma main_only_appends_names_witness :
  exists added,
    keys [("Ann"%string, ann_leap_day); ("Bob"%string, bob)]
    = keys [("Ann"%string, ann_leap_day)] ++ added
    /\ Forall word added.
Proof.
  apply (main_only_appends_names (pickle := text_pickle) ann_files
           [("Ann"%string, ann_leap_day)]
           [ Bot.Line (Datetime.mkdate 2025 3 1) "add Bob 1234567890";
             Bot.Line (Datetime.mkdate 2025 3 1) "phone Ann" ]).
  - vm_compute. reflexivity.
  - left. vm_compute. reflexivity.
Defined.

(** ** One entry per contact *)

Section Entries.

Lemma upcoming_entry_name (today : Datetime.date) (r : record) (x : entry) :
  upcoming_entry today r = Return (Some x) -> entry_name x = name r.
Proof.
  intros H. apply upcoming_entry_Some in H.
  destruct H as (v & bd & p & c & _ & _ & _ & _ & _ & ->). reflexivity.
Qed.

Lemma entries_of_records (today : Datetime.date) (records : list record)
  (es : list (option entry)) :
  Forall2 (fun r e => upcoming_entry today r = Return e) records es ->
  (forall x, In x (flat_map appended es) ->
     In (entry_name x) (map name records))
  /\ (NoDup (map name records) ->
      NoDup (map entry_name (flat_map appended es)))
  /\ (List.length (flat_map appended es) <= List.length records)%nat.
Proof.
  induction 1 as [|r e rs es Hr HF (IH1 & IH2 & IH3)]; cbn.
  - split; [tauto|]. split; [constructor|lia].
  - split; [|split].
    + intros x [Hx|Hx]%in_app_or; [|right; auto].
      destruct e as [y|]; cbn in Hx; [|tauto]. destruct Hx as [<-|[]].
      left. symmetry. exact (upcoming_entry_name today r y Hr).
    + intros Hnd. inversion Hnd as [|? ? Hn Hnd']; subst.
      destruct e as [y|]; cbn; [|auto].
      constructor; [|auto]. intros Hin. apply Hn.
      apply in_map_iff in Hin. destruct Hin as (x & Ex & Hx).
      rewrite <- (upcoming_entry_name today r y Hr), <- Ex. auto.
    + rewrite length_app. destruct e; cbn; lia.
Qed.

(** X24.  In a book within the invariant the query reports every contact
    at most once: the names in the list returned are distinct names of the
    book, and the list is no longer than the book. *)
Theorem one_entry_per_contact (today : Datetime.date) (book : AddressBook)
  (l : list entry) :
  book_ok book ->
  get_upcoming_birthdays today book = Return l ->
  NoDup (map entry_name l)
  /\ (forall e, In e l -> In (entry_name e) (keys book))
  /\ (List.length l <= List.length book)%nat.
Proof.
  intros [Hnd Hall] Hl. unfold get_upcoming_birthdays in Hl.
  apply upcoming_loop_Return in Hl. destruct Hl as (es & HF & ->).
  cbn [app].
  assert (Hnames : map name (values book) = keys book).
  { unfold values, keys. rewrite map_map. apply map_ext_in.
    intros [k r] Hin. cbn. now apply Hall. }
  destruct (entries_of_records today (values book) es HF) as (H1 & H2 & H3).
  rewrite Hnames in H1, H2. unfold values in H3. rewrite length_map in H3.
  auto.
Qed.

Lemma one_entry_per_contact_witness :
  NoDup (map entry_name [mkEntry "Ann" "29.02.2024"])
  /\ (forall e, In e [mkEntry "Ann" "29.02.2024"] ->
      In (entry_name e) (keys leap_day_book))
  /\ (List.length [mkEntry "Ann" "29.02.2024"]
      <= List.length leap_day_book)%nat.
Proof.
  apply (one_entry_per_contact (Datetime.mkdate 2024 2 25) leap_day_book).
  - split.
    + repeat constructor; cbn; intuition discriminate.
    + intros k r [[= <- <-]|[[= <- <-]|[]]]; (split; [reflexivity|]).
      * apply (run_preserves (Call_add_birthday "29.02.2024")).
        split; cbn; [tauto|discriminate].
      * apply (run_preserves (Call_add_birthday "03.01.2000")).
        apply (run_preserves (Call_add_phone "1234567890")
                 (Record__init__ "Bob")).
        split; cbn; [tauto|discriminate].
  - reflexivity.
Defined.

End Entries.

(** ** The strings [Birthday] accepts *)

Section BirthdayFormat.
Import Strptime.

Lemma match_atoms_sound (alt : list atom) :
  forall s text rest,
    match_atoms alt s = Some (text, rest) ->
    s = text ++ rest /\ Forall2 (fun a c => match_atom a c = true) alt text.
Proof.
  induction alt as [|a alt IH]; intros s text rest; cbn.
  - intros [= <- <-]. split; [reflexivity|constructor].
  - destruct s as [|c s]; [discriminate|].
    destruct (match_atom a c) eqn:Ea; [|discriminate].
    destruct (match_atoms alt s) as [[t r]|] eqn:E; [|discriminate].
    intros [= <- <-]. destruct (IH _ _ _ E) as [-> HF].
    split; [reflexivity|now constructor].
Qed.

Lemma match_atoms_complete (alt : list atom) (text rest : list ascii) :
  Forall2 (fun a c => match_atom a c = true) alt text ->
  match_atoms alt (text ++ rest) = Some (text, rest).
Proof.
  induction 1 as [|a c alt text Ha HF IH]; cbn; [reflexivity|].
  now rewrite Ha, IH.
Qed.

Lemma match_items_group_nil (items : list item) (s : list ascii) :
  match_items (Group [] :: items) s = None.
Proof. reflexivity. Qed.

Lemma match_items_group_cons (alt : list atom) (alts : list (list atom))
  (items : list item) (s : list ascii) :
  match_items (Group (alt :: alts) :: items) s
  = match match_atoms alt s with
    | Some (text, rest) =>
        match match_items items rest with
        | Some (groups, rest') => Some (text :: groups, rest')
        | None => match_items (Group alts :: items) s
        end
    | None => match_items (Group alts :: items) s
    end.
Proof. reflexivity. Qed.

(** What the search returns is a reading. *)
Lemma match_items_sound (items : list item) :
  forall s groups rest,
    match_items items s = Some (groups, rest) -> parses items s groups rest.
Proof.
  induction items as [|[alts|x] items IH]; intros s groups rest.
  - cbn. intros [= <- <-]. constructor.
  - assert (Hsub : forall alts', incl alts' alts ->
               match_items (Group alts' :: items) s = Some (groups, rest) ->
               parses (Group alts :: items) s groups rest).
    { induction alts' as [|alt alts' IHa]; intros Hincl.
      - rewrite match_items_group_nil. discriminate.
      - rewrite match_items_group_cons.
        assert (Hincl' : incl alts' alts)
          by (intros x Hx; apply Hincl; now right).
        destruct (match_atoms alt s) as [[text r]|] eqn:Ea; [|now apply IHa].
        destruct (match_items items r) as [[g r']|] eqn:Ei; [|now apply IHa].
        intros [= <- <-]. apply match_atoms_sound in Ea.
        destruct Ea as [-> HF].
        apply (parses_group alts alt); auto. apply Hincl. now left. }
    apply Hsub. apply incl_refl.
  - cbn. destruct s as [|c s]; [discriminate|].
    destruct (Ascii.eqb c x) eqn:E; [|discriminate].
    apply Ascii.eqb_eq in E. subst c. intros H. constructor. now apply IH.
Qed.

(** Where there is a reading the search finds one. *)
Lemma match_items_complete (items : list item) (s : list ascii)
  (groups : list (list ascii)) (rest : list ascii) :
  parses items s groups rest -> match_items items s <> None.
Proof.
  induction 1 as [s|c items s groups rest _ IH
                  |alts alt items text s groups rest Hin HF _ IH].
  - discriminate.
  - cbn. now rewrite Ascii.eqb_refl.
  - induction alts as [|a alts IHa]; [destruct Hin|].
    rewrite match_items_group_cons.
    destruct (match_atoms a (text ++ s)) as [[t r]|] eqn:Ea.
    + destruct (match_items items r) as [[g r']|] eqn:Ei; [discriminate|].
      destruct Hin as [->|Hin]; [|auto].
      rewrite (match_atoms_complete alt text s HF) in Ea.
      injection Ea as <- <-. congruence.
    + destruct Hin as [->|Hin]; [|auto].
      rewrite (match_atoms_complete alt text s HF) in Ea. discriminate.
Qed.

Lemma Forall2_match_1 (a : atom) (t : list ascii) :
  Forall2 (fun a c => match_atom a c = true) [a] t <->
  exists c, t = [c] /\ match_atom a c = true.
Proof.
  split.
  - intros H. inversion H as [|? c ? ? Hc HF]; subst. inversion HF; subst.
    eauto.
  - intros (c & -> & Hc). repeat constructor. exact Hc.
Qed.

Lemma Forall2_match_2 (a b : atom) (t : list ascii) :
  Forall2 (fun a c => match_atom a c = true) [a; b] t <->
  exists c d, t = [c; d] /\ match_atom a c = true /\ match_atom b d = true.
Proof.
  split.
  - intros H. inversion H as [|? c ? ? Hc HF]; subst.
    apply Forall2_match_1 in HF. destruct HF as (d & -> & Hd). eauto.
  - intros (c & d & -> & Hc & Hd). repeat constructor; assumption.
Qed.

Lemma day_text_alternative (t : list ascii) :
  day_text t = true <->
  exists alt,
    In alt [ [Lit "3"; Range "0" "1"]; [Range "1" "2"; Digit];
             [Lit "0"; Range "1" "9"]; [Range "1" "9"];
             [Lit " "; Range "1" "9"] ]
    /\ Forall2 (fun a c => match_atom a c = true) alt t.
Proof.
  split.
  - destruct t as [|a [|b [|]]]; cbn [day_text]; try discriminate.
    + intros H. exists [Range "1" "9"]. split; [cbn; tauto|].
      apply Forall2_match_1. eauto.
    + rewrite !orb_true_iff, !andb_true_iff.
      intros [[[[H1 H2]|[H1 H2]]|[H1 H2]]|[H1 H2]];
        [exists [Lit "3"; Range "0" "1"]|exists [Range "1" "2"; Digit]
        |exists [Lit "0"; Range "1" "9"]|exists [Lit " "; Range "1" "9"]];
        (split; [cbn; tauto|]); apply Forall2_match_2; exists a, b;
        (split; [reflexivity|split; assumption]).
  - intros (alt & Hin & HF). cbn in Hin.
    destruct Hin as [<-|[<-|[<-|[<-|[<-|[]]]]]];
      first [apply Forall2_match_2 in HF; destruct HF as (c & d & -> & Hc & Hd)
            |apply Forall2_match_1 in HF; destruct HF as (c & -> & Hc)];
      cbn [day_text match_atom] in *; rewrite ?Hc, ?Hd;
      cbn [andb orb]; rewrite ?orb_true_r; reflexivity.
Qed.

Lemma month_text_alternative (t : list ascii) :
  month_text t = true <->
  exists alt,
    In alt [ [Lit "1"; Range "0" "2"]; [Lit "0"; Range "1" "9"];
             [Range "1" "9"] ]
    /\ Forall2 (fun a c => match_atom a c = true) alt t.
Proof.
  split.
  - destruct t as [|a [|b [|]]]; cbn [month_text]; try discriminate.
    + intros H. exists [Range "1" "9"]. split; [cbn; tauto|].
      apply Forall2_match_1. eauto.
    + rewrite !orb_true_iff, !andb_true_iff.
      intros [[H1 H2]|[H1 H2]];
        [exists [Lit "1"; Range "0" "2"]|exists [Lit "0"; Range "1" "9"]];
        (split; [cbn; tauto|]); apply Forall2_match_2; exists a, b;
        (split; [reflexivity|split; assumption]).
  - intros (alt & Hin & HF). cbn in Hin.
    destruct Hin as [<-|[<-|[<-|[]]]];
      first [apply Forall2_match_2 in HF; destruct HF as (c & d & -> & Hc & Hd)
            |apply Forall2_match_1 in HF; destruct HF as (c & -> & Hc)];
      cbn [month_text match_atom] in *; rewrite ?Hc, ?Hd;
      cbn [andb orb]; rewrite ?orb_true_r; reflexivity.
Qed.

Lemma year_text_alternative (t : list ascii) :
  year_text t = true <->
  Forall2 (fun a c => match_atom a c = true) [Digit; Digit; Digit; Digit] t.
Proof.
  split.
  - destruct t as [|a [|b [|c [|d [|]]]]]; cbn [year_text]; try discriminate.
    rewrite !andb_true_iff. intros [[[Ha Hb] Hc] Hd].
    repeat constructor; assumption.
  - intros H. inversion H as [|? a ? ? Ha H1]; subst.
    inversion H1 as [|? b ? ? Hb H2]; subst.
    apply Forall2_match_2 in H2. destruct H2 as (c & d & -> & Hc & Hd).
    cbn [year_text match_atom] in *. now rewrite Ha, Hb, Hc, Hd.
Qed.

(** The readings of the format: day, dot, month, dot, year. *)
Lemma parses_format (s : list ascii) (groups : list (list ascii))
  (rest : list ascii) :
  parses format_regex s groups rest <->
  exists dt mt yt,
    groups = [dt; mt; yt]
    /\ s = dt ++ "."%char :: mt ++ "."%char :: yt ++ rest
    /\ day_text dt = true /\ month_text mt = true /\ year_text yt = true.
Proof.
  unfold format_regex, directive_d, directive_m, directive_Y. split.
  - intros H.
    inversion H as [| |? altd ? dt s1 g1 ? Hind HFd H1]; subst. clear H.
    inversion H1 as [|? ? s2 g2 ? H2|]; subst. clear H1.
    inversion H2 as [| |? altm ? mt s3 g3 ? Hinm HFm H3]; subst. clear H2.
    inversion H3 as [|? ? s4 g4 ? H4|]; subst. clear H3.
    inversion H4 as [| |? alty ? yt s5 g5 ? Hiny HFy H5]; subst. clear H4.
    inversion H5; subst. clear H5.
    destruct Hiny as [<-|[]].
    exists dt, mt, yt. split; [reflexivity|]. split; [reflexivity|].
    split; [apply day_text_alternative; eauto|].
    split; [apply month_text_alternative; eauto|].
    now apply year_text_alternative.
  - intros (dt & mt & yt & -> & -> & Hd & Hm & Hy).
    apply day_text_alternative in Hd. destruct Hd as (altd & Hind & HFd).
    apply month_text_alternative in Hm. destruct Hm as (altm & Hinm & HFm).
    apply year_text_alternative in Hy.
    apply (parses_group _ altd); [exact Hind|exact HFd|].
    apply parses_char. apply (parses_group _ altm); [exact Hinm|exact HFm|].
    apply parses_char.
    apply (parses_group _ [Digit; Digit; Digit; Digit]);
      [now left|exact Hy|apply parses_nil].
Qed.

Lemma day_text_no_dot (t : list ascii) :
  day_text t = true -> ~ In "."%char t.
Proof.
  destruct t as [|a [|b [|]]]; cbn [day_text]; try discriminate;
    intros H Hin; cbn in Hin.
  - destruct Hin as [->|[]]. discriminate H.
  - destruct Hin as [->|[->|[]]];
      cbn in H; rewrite ?andb_false_r in H; discriminate H.
Qed.

Lemma month_text_no_dot (t : list ascii) :
  month_text t = true -> ~ In "."%char t.
Proof.
  destruct t as [|a [|b [|]]]; cbn [month_text]; try discriminate;
    intros H Hin; cbn in Hin.
  - destruct Hin as [->|[]]. discriminate H.
  - destruct Hin as [->|[->|[]]];
      cbn in H; rewrite ?andb_false_r in H; discriminate H.
Qed.

Lemma split_at_dot (t1 : list ascii) :
  forall t2 x1 x2,
    ~ In "."%char t1 -> ~ In "."%char t2 ->
    t1 ++ "."%char :: x1 = t2 ++ "."%char :: x2 ->
    t1 = t2 /\ x1 = x2.
Proof.
  induction t1 as [|a t1 IH]; intros [|b t2] x1 x2 H1 H2; cbn.
  - now intros [= <-].
  - intros [= <- _]. cbn in H2. tauto.
  - intros [= -> _]. cbn in H1. tauto.
  - intros [= <- E]. destruct (IH t2 x1 x2) as [-> ->]; cbn in *; auto.
Qed.

Lemma year_text_length (t : list ascii) :
  year_text t = true -> List.length t = 4%nat.
Proof. destruct t as [|a [|b [|c [|d [|]]]]]; cbn; congruence. Qed.

(** The search on the format returns a reading that reaches the end of
    the string exactly when the string is day, dot, month, dot, year. *)
Lemma match_format (s dt mt yt : list ascii) :
  day_text dt = true -> month_text mt = true -> year_text yt = true ->
  s = dt ++ "."%char :: mt ++ "."%char :: yt ->
  match_items format_regex s = Some ([dt; mt; yt], []).
Proof.
  intros Hd Hm Hy Hs.
  assert (Hp : parses format_regex s [dt; mt; yt] []).
  { apply parses_format. exists dt, mt, yt. rewrite app_nil_r. auto. }
  apply match_items_complete in Hp.
  destruct (match_items format_regex s) as [[g r]|] eqn:E; [|congruence].
  apply match_items_sound, parses_format in E.
  destruct E as (dt' & mt' & yt' & -> & Hs' & Hd' & Hm' & Hy').
  rewrite Hs in Hs'.
  apply split_at_dot in Hs';
    [|now apply day_text_no_dot|now apply day_text_no_dot].
  destruct Hs' as [<- Hs'].
  apply split_at_dot in Hs';
    [|now apply month_text_no_dot|now apply month_text_no_dot].
  destruct Hs' as [<- Hs'].
  assert (Hl : List.length yt = List.length yt')
    by (now rewrite !year_text_length).
  assert (E : yt = yt' /\ r = []).
  { rewrite <- (app_nil_r yt) in Hs'.
    revert Hs' Hl. clear. revert yt'.
    induction yt as [|a yt IH]; intros [|b yt']; cbn; try discriminate.
    - intros <- _. auto.
    - intros [= <- E] [= Hl]. destruct (IH yt' E Hl) as [-> ->]. auto. }
  destruct E as [<- ->]. reflexivity.
Qed.

Lemma strptime_format (s : string) (date : Datetime.date) :
  strptime s = Return date <->
  exists dt mt yt y m d,
    list_ascii_of_string s = dt ++ "."%char :: mt ++ "."%char :: yt
    /\ day_text dt = true /\ month_text mt = true /\ year_text yt = true
    /\ int yt = Return y /\ int mt = Return m /\ int dt = Return d
    /\ Datetime.date_new y m d = Return date.
Proof.
  unfold strptime. split.
  - destruct (match_items format_regex (list_ascii_of_string s))
      as [[groups rest]|] eqn:E; [|discriminate].
    destruct rest; [|discriminate].
    apply match_items_sound, parses_format in E.
    destruct E as (dt & mt & yt & -> & Hs & Hd & Hm & Hy).
    rewrite app_nil_r in Hs.
    intros (y & Ey & H)%bind_Return. apply bind_Return in H.
    destruct H as (m & Em & H). apply bind_Return in H.
    destruct H as (d & Ed & H).
    exists dt, mt, yt, y, m, d. auto 10.
  - intros (dt & mt & yt & y & m & d & Hs & Hd & Hm & Hy & Ey & Em & Ed & H).
    rewrite (match_format _ dt mt yt Hd Hm Hy Hs), Ey, Em, Ed. exact H.
Qed.

Lemma length_list_ascii_of_string (s : string) :
  List.length (list_ascii_of_string s) = String.length s.
Proof. induction s as [|c s IH]; cbn; [reflexivity|now rewrite IH]. Qed.

(** X25.  [Birthday] accepts exactly the strings made of a day, a dot, a
    month, a dot and a year: the day one or two digits from 1 to 31, or
    one digit after a blank, the month one or two digits from 1 to 12,
    the year four digits, the three being a date of the calendar.  Such a
    string has eight to ten characters. *)
Theorem Birthday_format (s : string) :
  (Birthday s = Return s <->
   exists dt mt yt y m d,
     list_ascii_of_string s = dt ++ "."%char :: mt ++ "."%char :: yt
     /\ day_text dt = true /\ month_text mt = true /\ year_text yt = true
     /\ int yt = Return y /\ int mt = Return m /\ int dt = Return d
     /\ valid_date (Datetime.mkdate y m d))
  /\ (Birthday s = Return s -> (8 <= String.length s <= 10)%nat).
Proof.
  assert (Hiff : Birthday s = Return s <->
                 exists date, strptime s = Return date).
  { unfold Birthday. destruct (strptime s) as [date|e] eqn:E.
    - split; eauto.
    - split; [|intros [date [=]]]. destruct e; discriminate. }
  assert (Hshape : Birthday s = Return s <->
    exists dt mt yt y m d,
      list_ascii_of_string s = dt ++ "."%char :: mt ++ "."%char :: yt
      /\ day_text dt = true /\ month_text mt = true /\ year_text yt = true
      /\ int yt = Return y /\ int mt = Return m /\ int dt = Return d
      /\ valid_date (Datetime.mkdate y m d)).
  { rewrite Hiff. split.
    - intros [date H]. apply strptime_format in H.
      destruct H as (dt & mt & yt & y & m & d & Hs & Hd & Hm & Hy & Ey & Em
                     & Ed & H).
      apply date_new_Return in H. destruct H as [Hv _].
      exists dt, mt, yt, y, m, d. auto 10.
    - intros (dt & mt & yt & y & m & d & Hs & Hd & Hm & Hy & Ey & Em & Ed
              & Hv).
      exists (Datetime.mkdate y m d). apply strptime_format.
      exists dt, mt, yt, y, m, d.
      repeat (split; [assumption|]). apply date_new_Return. auto. }
  split; [exact Hshape|].
  intros H. apply Hshape in H.
  destruct H as (dt & mt & yt & y & m & d & Hs & Hd & Hm & Hy & _).
  rewrite <- length_list_ascii_of_string, Hs.
  rewrite length_app. cbn [List.length]. rewrite length_app.
  cbn [List.length]. rewrite (year_text_length yt Hy).
  destruct dt as [|a [|b [|]]]; try discriminate Hd;
    destruct mt as [|a' [|b' [|]]]; try discriminate Hm; cbn; lia.
Qed.

End BirthdayFormat.

(** ** Reading a reported date back *)

Section ReadBack.
Import Datetime Strptime.

Lemma In_zero_padded (width : nat) (n : Z) (c : ascii) :
  In c (zero_padded width n) -> exists k, c = digit_char k.
Proof.
  unfold zero_padded. rewrite <- in_rev, in_map_iff.
  intros (k & <- & _). eauto.
Qed.

Lemma zero_padded_no_dot (width : nat) (n : Z) :
  ~ In "."%char (zero_padded width n).
Proof.
  intros H. apply In_zero_padded in H. destruct H as [k E].
  apply (f_equal code) in E. rewrite code_digit_char in E.
  change (code ".") with 46 in E.
  pose proof (Z.mod_pos_bound k 10 ltac:(lia)). lia.
Qed.

(** Before the year 1000 the text [strftime] writes has a year of fewer
    than four digits, which [%Y] does not take. *)
Lemma strptime_strftime_short_year (d : date) :
  year d < 1000 -> strptime (strftime d) = Raise ValueError.
Proof.
  intros Hy. destruct (strptime (strftime d)) as [x|e] eqn:E;
    [|now apply strptime_raises in E; subst e].
  apply strptime_format in E.
  destruct E as (dt & mt & yt & _ & _ & _ & Hs & Hd & Hm & Hyt & _).
  unfold strftime in Hs. rewrite list_ascii_of_string_of_list_ascii in Hs.
  apply split_at_dot in Hs;
    [|apply zero_padded_no_dot|now apply day_text_no_dot].
  destruct Hs as [_ Hs].
  apply split_at_dot in Hs;
    [|apply zero_padded_no_dot|now apply month_text_no_dot].
  destruct Hs as [_ Hs]. apply year_text_length in Hyt.
  pose proof (decimal_short (year d) Hy) as Hshort. rewrite Hs in Hshort. lia.
Qed.

Lemma strftime_short_year_length (d : date) :
  year d < 1000 -> (String.length (strftime d) < 10)%nat.
Proof.
  intros Hy. unfold strftime.
  rewrite <- length_list_ascii_of_string, list_ascii_of_string_of_list_ascii.
  rewrite !length_app, !length_zero_padded. cbn [List.length].
  pose proof (decimal_short (year d) Hy). lia.
Qed.

(** The date of the congratulation is not in an earlier year than the
    projected date. *)
Lemma congratulation_year (p c : date) :
  valid_date p -> congratulation p = Return c -> year p <= year c.
Proof.
  intros Hv Hc.
  destruct (congratulation_spec p Hv) as (c' & Hc' & Hvc & Hsat & Hsun & Hweek).
  rewrite Hc in Hc'. injection Hc' as <-.
  assert (Hwd : 0 <= weekday p < 7) by (apply Z.mod_pos_bound; lia).
  assert (Ho : toordinal p <= toordinal c).
  { assert (Hcase : weekday p = 5 \/ weekday p = 6 \/ weekday p < 5) by lia.
    destruct Hcase as [H|[H|H]].
    - destruct (Hsat H). lia.
    - destruct (Hsun H). lia.
    - rewrite (Hweek H). lia. }
  destruct (Z_lt_le_dec (year c) (year p)) as [Hlt|Hle]; [|exact Hle].
  assert (H : date_lt c p = true).
  { unfold date_lt. apply Z.ltb_lt in Hlt. now rewrite Hlt. }
  apply (toordinal_lt c p Hvc Hv) in H. lia.
Qed.

(** X21.  Every date the query reports is the text [strftime] writes for a
    date of the calendar in the year of [today] or later.  When that year
    has four digits, as it has whenever [today] is in the year 1000 or
    later, the text has ten characters and [strptime] reads it back as
    the same date, so the report can be given to [Birthday] as it is.
    Before the year 1000 the text is shorter and [Birthday] refuses it. *)
Theorem reported_dates_read_back (today : date) (book : AddressBook)
  (l : list entry) :
  get_upcoming_birthdays today book = Return l ->
  forall e, In e l ->
    exists c,
      valid_date c
      /\ year today <= year c
      /\ entry_birthday e = strftime c
      /\ (1000 <= year c ->
          strptime (entry_birthday e) = Return c
          /\ Birthday (entry_birthday e) = Return (entry_birthday e)
          /\ String.length (entry_birthday e) = 10%nat)
      /\ (year c < 1000 ->
          Birthday (entry_birthday e) = Raise ValueError
          /\ (String.length (entry_birthday e) < 10)%nat).
Proof.
  intros Hl e He.
  apply (get_upcoming_birthdays_window today book l Hl) in He.
  destruct He as (r & value & bd & p & c & _ & _ & _ & Hp & _ & Hc & ->).
  destruct (project_Return today bd p Hp) as (Hv & _ & _ & Hyp & _).
  pose proof (congratulation_year p c Hv Hc) as Hyc.
  destruct (congratulation_spec p Hv) as (c' & Hc' & Hvc & _).
  rewrite Hc in Hc'. injection Hc' as <-.
  exists c. cbn [entry_birthday].
  split; [exact Hvc|]. split; [lia|]. split; [reflexivity|]. split.
  - intros H1000. pose proof (strptime_strftime_date c Hvc H1000) as Hrt.
    split; [exact Hrt|].
    split; [unfold Birthday; now rewrite Hrt|now apply strftime_length].
  - intros Hshort. split; [|now apply strftime_short_year_length].
    unfold Birthday. now rewrite (strptime_strftime_short_year c Hshort).
Qed.

Lemma reported_dates_read_back_witness :
  (exists c,
     valid_date c
     /\ 2025 <= year c
     /\ "05.01.2026"%string = strftime c
     /\ (1000 <= year c ->
         strptime "05.01.2026" = Return c
         /\ Birthday "05.01.2026" = Return "05.01.2026"%string
         /\ String.length "05.01.2026" = 10%nat)
     /\ (year c < 1000 ->
         Birthday "05.01.2026" = Raise ValueError
         /\ (String.length "05.01.2026" < 10)%nat))
  /\ (exists c,
        valid_date c
        /\ 999 <= year c
        /\ "03.01.999"%string = strftime c
        /\ (1000 <= year c ->
            strptime "03.01.999" = Return c
            /\ Birthday "03.01.999" = Return "03.01.999"%string
            /\ String.length "03.01.999" = 10%nat)
        /\ (year c < 1000 ->
            Birthday "03.01.999" = Raise ValueError
            /\ (String.length "03.01.999" < 10)%nat)).
Proof.
  split.
  - exact (reported_dates_read_back (mkdate 2025 12 30)
             (add_record [] bob_january) [mkEntry "Bob" "05.01.2026"]
             eq_refl (mkEntry "Bob" "05.01.2026") (or_introl eq_refl)).
  - exact (reported_dates_read_back (mkdate 999 1 1)
             (add_record [] bob_january) [mkEntry "Bob" "03.01.999"]
             eq_refl (mkEntry "Bob" "03.01.999") (or_introl eq_refl)).
Defined.

End ReadBack.

(** ** Where the projection is defined *)

Section Projection.
Import Datetime.

Lemma day_fits_every_year (y0 y m d : Z) :
  1 <= d <= _days_in_month y0 m -> ~ (m = 2 /\ d = 29) ->
  1 <= d <= _days_in_month y m.
Proof.
  unfold _days_in_month. intros Hd Hn.
  destruct (m =? 2) eqn:E; cbn [andb] in *; [|exact Hd].
  apply Z.eqb_eq in E. subst m.
  destruct (_is_leap y0), (_is_leap y); cbn in *; lia.
Qed.

Lemma replace_year_other_day (bd : date) (y : Z) :
  valid_date bd -> MINYEAR <= y <= MAXYEAR ->
  ~ (month bd = 2 /\ day bd = 29) ->
  replace_year bd y = Return (mkdate y (month bd) (day bd)).
Proof.
  intros Hv Hy Hn. apply replace_year_Return. split; [|reflexivity].
  unfold valid_date, MINYEAR, MAXYEAR in *. cbn [year month day].
  apply check_date_fields_spec in Hv. apply check_date_fields_spec.
  destruct Hv as (_ & Hm & Hd).
  pose proof (day_fits_every_year (year bd) y (month bd) (day bd) Hd Hn).
  lia.
Qed.

Lemma replace_year_leap_day (bd : date) (y : Z) :
  month bd = 2 -> day bd = 29 -> MINYEAR <= y <= MAXYEAR ->
  replace_year bd y
  = if _is_leap y then Return (mkdate y 2 29) else Raise ValueError.
Proof.
  intros Hm Hd Hy. unfold replace_year, date_new. rewrite Hm, Hd.
  assert (H : _check_date_fields y 2 29 = _is_leap y).
  { unfold _check_date_fields, _days_in_month, MINYEAR, MAXYEAR in *.
    replace (1 <=? y) with true by (symmetry; apply Z.leb_le; lia).
    replace (y <=? 9999) with true by (symmetry; apply Z.leb_le; lia).
    now destruct (_is_leap y). }
  rewrite H. reflexivity.
Qed.

Lemma not_leap_after_leap (y : Z) : _is_leap y = true -> _is_leap (y + 1) = false.
Proof.
  unfold _is_leap. rewrite andb_true_iff, Z.eqb_eq. intros [H _].
  replace ((y + 1) mod 4 =? 0) with false; [reflexivity|].
  symmetry. apply Z.eqb_neq. Z.div_mod_to_equations. lia.
Qed.

(** X26.  The projection, for a birthday [Birthday] accepted and [today]
    before the last year of the calendar.  A birthday on any day but
    29 February is always projected: into the year of [today], or into
    the next year when that date is before [today].  A birthday on
    29 February is projected only while [today] is in a leap year and not
    after 29 February; on every other day [project] raises [ValueError],
    and with it the query on any book that holds such a record. *)
Theorem project_defined (today bd : date) :
  valid_date bd -> MINYEAR <= year today < MAXYEAR ->
  let d := mkdate (year today) (month bd) (day bd) in
  let next := mkdate (year today + 1) (month bd) (day bd) in
  (~ (month bd = 2 /\ day bd = 29) ->
   project today bd = Return (if date_lt d today then next else d))
  /\ (month bd = 2 /\ day bd = 29 ->
      project today bd
      = if _is_leap (year today) && negb (date_lt d today)
        then Return d else Raise ValueError).
Proof.
  intros Hv Hy. cbv zeta. unfold MINYEAR, MAXYEAR in Hy. split.
  - intros Hn. unfold project.
    rewrite (replace_year_other_day bd (year today) Hv)
      by (unfold MINYEAR, MAXYEAR; tauto || lia).
    cbn [bind]. destruct (date_lt _ today); [|reflexivity].
    apply replace_year_other_day; [exact Hv| |exact Hn].
    unfold MINYEAR, MAXYEAR. lia.
  - intros [Hm Hd]. unfold project.
    rewrite (replace_year_leap_day bd (year today) Hm Hd)
      by (unfold MINYEAR, MAXYEAR; lia).
    rewrite Hm, Hd.
    destruct (_is_leap (year today)) eqn:El; cbn [bind andb];
      [|reflexivity].
    destruct (date_lt _ today); cbn [negb]; [|reflexivity].
    rewrite (replace_year_leap_day bd (year today + 1) Hm Hd)
      by (unfold MINYEAR, MAXYEAR; lia).
    now rewrite (not_leap_after_leap _ El).
Qed.

Lemma project_defined_witness :
  project (mkdate 2024 3 1) (mkdate 2000 1 3) = Return (mkdate 2025 1 3)
  /\ project (mkdate 2024 2 29) (mkdate 2024 2 29)
     = Return (mkdate 2024 2 29)
  /\ project (mkdate 2024 3 1) (mkdate 2024 2 29) = Raise ValueError
  /\ project (mkdate 2025 2 1) (mkdate 2024 2 29) = Raise ValueError.
Proof.
  assert (Hy : forall y, 2024 <= y <= 2025 -> MINYEAR <= y < MAXYEAR)
    by (unfold MINYEAR, MAXYEAR; lia).
  split; [|split; [|split]].
  - apply (project_defined (mkdate 2024 3 1) (mkdate 2000 1 3) eq_refl).
    + apply Hy. cbn. lia.
    + cbn. intros [H _]. discriminate H.
  - apply (project_defined (mkdate 2024 2 29) (mkdate 2024 2 29) eq_refl).
    + apply Hy. cbn. lia.
    + cbn. auto.
  - apply (project_defined (mkdate 2024 3 1) (mkdate 2024 2 29) eq_refl).
    + apply Hy. cbn. lia.
    + cbn. auto.
  - apply (project_defined (mkdate 2025 2 1) (mkdate 2024 2 29) eq_refl).
    + apply Hy. cbn. lia.
    + cbn. auto.
Defined.

End Projection.

(** ** Saving and loading *)

Section ExampleSerialiser.

Lemma items_of_text_escaped (text rest : string) :
  forall current,
    items_of_text (escaped text rest) current
    = items_of_text rest (rev (list_ascii_of_string text) ++ current).
Proof.
  induction text as [|c text IH]; intros current; [reflexivity|].
  cbn [escaped items_of_text list_ascii_of_string rev].
  change (Ascii.eqb "." ".") with true. cbv iota.
  now rewrite IH, <- app_assoc.
Qed.

Lemma items_of_text_item (tag : ascii) (text rest : string) :
  Ascii.eqb tag "." = false ->
  items_of_text (escaped text (String tag rest)) []
  = option_map (cons (tag, text)) (items_of_text rest []).
Proof.
  intros H. rewrite items_of_text_escaped. cbn [items_of_text].
  now rewrite H, app_nil_r, rev_involutive, string_of_list_ascii_of_string.
Qed.

Lemma items_of_text_of_items (items : list (ascii * string)) :
  Forall (fun item => Ascii.eqb (fst item) "." = false) items ->
  items_of_text (text_of_items items) [] = Some items.
Proof.
  induction 1 as [|[tag text] items Htag _ IH]; [reflexivity|].
  cbn [text_of_items]. rewrite (items_of_text_item tag text _ Htag), IH.
  reflexivity.
Qed.

Lemma items_of_record_tags (kr : string * record) :
  Forall (fun item => Ascii.eqb (fst item) "." = false) (items_of_record kr).
Proof.
  destruct kr as [key r]. unfold items_of_record.
  apply Forall_app. split.
  - apply Forall_forall. intros item (p & <- & _)%in_map_iff. reflexivity.
  - apply Forall_app. split.
    + destruct (birthday r); repeat constructor.
    + repeat constructor.
Qed.

Lemma book_of_items_phones (key n : string) (b : option string)
  (book : AddressBook) (items : list (ascii * string)) (ps : list string) :
  forall ps0,
    book_of_items items = Some ((key, mkRecord n ps0 b) :: book) ->
    book_of_items (map (fun p => ("p"%char, p)) ps ++ items)
    = Some ((key, mkRecord n (ps ++ ps0) b) :: book).
Proof.
  induction ps as [|p ps IH]; intros ps0 H; [exact H|].
  cbn [map app book_of_items]. now rewrite (IH ps0 H).
Qed.

Lemma book_of_items_record (key : string) (r : record)
  (items : list (ascii * string)) (book : AddressBook) :
  book_of_items items = Some book ->
  book_of_items (items_of_record (key, r) ++ items) = Some ((key, r) :: book).
Proof.
  intros H. unfold items_of_record. rewrite <- !app_assoc.
  rewrite (book_of_items_phones key (name r) (birthday r) book _ (phones r) []).
  - rewrite app_nil_r. now destruct r.
  - destruct (birthday r) as [b|]; cbn [app book_of_items]; now rewrite H.
Qed.

Lemma book_of_items_of_book (book : AddressBook) :
  book_of_items (flat_map items_of_record book) = Some book.
Proof.
  induction book as [|[key r] book IH]; [reflexivity|].
  cbn [flat_map]. now apply book_of_items_record.
Qed.

(** The serialiser of the examples keeps the promise of [pickle]. *)
Lemma text_pickle_round_trip : pickle_round_trip (pickle := text_pickle).
Proof.
  intros book. cbn [Bot.pickle_loads Bot.pickle_dumps text_pickle].
  rewrite string_of_list_byte_of_string, items_of_text_of_items.
  - apply book_of_items_of_book.
  - apply Forall_flat_map, Forall_forall. intros kr _.
    apply items_of_record_tags.
Qed.

End ExampleSerialiser.

Section SaveAndLoad.

Import Bot.

Context {pickle : Pickle}.

(** The name of the file for a call with or without [filename]; both
    functions have the same default. *)
Lemma save_data_path (book : AddressBook) (filename : option string)
  (files : filesystem) :
  save_data book filename files
  = write_file files
      match filename with
      | Some given => given
      | None => "addressbook.pkl"%string
      end (pickle_dumps book).
Proof. reflexivity. Qed.

Lemma load_data_read (filename : option string) (files : filesystem)
  (data : list Byte.byte) :
  let path := match filename with
              | Some given => given
              | None => "addressbook.pkl"%string
              end in
  refuses files path rb = false ->
  content files path = Some data ->
  load_data filename files
  = match pickle_loads data with
    | Some book => Done book
    | None => Failed UnpicklingError
    end.
Proof.
  cbv zeta. intros Hr Hc. unfold load_data, read_file. now rewrite Hr, Hc.
Qed.

(** What [save_data] leaves when it returns: the file holds the bytes of
    the book, which [load_data] reads back if [pickle.load] does, and
    nothing else has changed. *)
Lemma load_data_after_save (book : AddressBook) (filename : option string)
  (files files' : filesystem) :
  let path := match filename with
              | Some given => given
              | None => "addressbook.pkl"%string
              end in
  refuses files path rb = false ->
  save_data book filename files = (files', Done tt) ->
  load_data filename files'
  = match pickle_loads (pickle_dumps book) with
    | Some loaded => Done loaded
    | None => Failed UnpicklingError
    end
  /\ (forall other, other <> path ->
        content files' other = content files other)
  /\ (forall other m, refuses files' other m = refuses files other m).
Proof.
  cbv zeta. intros Hrb. rewrite save_data_path. unfold write_file.
  destruct (refuses files _ wb) eqn:Hwb; [discriminate|].
  intros [= <-]. split; [|split].
  - apply load_data_read; [exact Hrb|].
    cbn [content]. now rewrite String.eqb_refl.
  - intros other Ho. cbn [content].
    apply String.eqb_neq in Ho. now rewrite Ho.
  - reflexivity.
Qed.

(** C10.  Taking from the documentation of [pickle] that reading gives
    back the book that was written, and a file that [open] lets the
    program read: whenever [save_data] returns, [load_data] on the files
    it left returns the book that was saved, with the same names, phones
    and birthdays, and [save_data] does return when [open] lets the
    program write.  The two functions use the same file when none is
    named; nothing else in the files changes. *)
Theorem save_load_round_trip (book : AddressBook) (filename : option string)
  (files : filesystem) :
  pickle_round_trip ->
  let path := match filename with
              | Some given => given
              | None => "addressbook.pkl"%string
              end in
  refuses files path rb = false ->
  (forall files',
     save_data book filename files = (files', Done tt) ->
     load_data filename files' = Done book
     /\ (forall other, other <> path ->
           content files' other = content files other)
     /\ (forall other m, refuses files' other m = refuses files other m))
  /\ (refuses files path wb = false ->
      exists files', save_data book filename files = (files', Done tt)).
Proof.
  intros Hrt. cbv zeta. intros Hrb. split.
  - intros files' Hsave.
    destruct (load_data_after_save book filename files files' Hrb Hsave)
      as (Hload & Hc & Hr).
    rewrite Hrt in Hload. auto.
  - intros Hwb. rewrite save_data_path. unfold write_file. rewrite Hwb.
    eauto.
Qed.


(** X28.  A session that "close" or "exit" ended leaves files from which
    the next session starts with the book the last one had: the first
    thing it does is to welcome, and it goes on from that book. *)
Theorem next_session_resumes (files files' : filesystem)
  (inputs next_inputs : list input) :
  pickle_round_trip ->
  refuses files "addressbook.pkl" rb = false ->
  snd (main files inputs) = Terminated files' ->
  exists pre today line post ev b,
    inputs = pre ++ Line today line :: post
    /\ fst (main files inputs)
       = Print (Text "Welcome to the assistant bot!")
           :: ev ++ [Save b; Print (Text "Good bye!")]
    /\ load_data None files' = Done b
    /\ main files' next_inputs
       = (Print (Text "Welcome to the assistant bot!")
            :: fst (main_loop files' next_inputs b),
          snd (main_loop files' next_inputs b)).
Proof.
  intros Hrt Hrb Hend.
  destruct (load_data None files) as [loaded|e0] eqn:El;
    [|rewrite (main_load_fails files inputs e0 El) in Hend;
      discriminate Hend].
  rewrite (main_eq files loaded inputs El) in Hend |- *.
  cbn [fst snd] in Hend |- *.
  pose proof (main_loop_spec files inputs loaded) as H.
  destruct (main_loop files inputs loaded) as [events st].
  destruct H as [_ Hst]. cbn [fst snd] in Hend |- *. subst st.
  destruct Hst as (pre & today & line & post & ev & b & Hin & _ & _ & ->
                   & _ & _ & Hsave).
  destruct (load_data_after_save b None files files' Hrb Hsave)
    as (Hload & _).
  rewrite Hrt in Hload.
  exists pre, today, line, post, ev, b.
  split; [exact Hin|]. split; [reflexivity|]. split; [exact Hload|].
  now apply main_eq.
Qed.

End SaveAndLoad.

Lemma save_load_round_trip_witness :
  exists files',
    Bot.save_data (pickle := text_pickle) leap_day_book None no_files
    = (files', Bot.Done tt)
    /\ Bot.load_data (pickle := text_pickle) None files'
       = Bot.Done leap_day_book.
Proof.
  destruct (save_load_round_trip (pickle := text_pickle) leap_day_book None
              no_files text_pickle_round_trip eq_refl) as [Hload Hsave].
  destruct (Hsave eq_refl) as [files' H].
  exists files'. split; [exact H|]. exact (proj1 (Hload files' H)).
Defined.

Lemma next_session_resumes_witness :
  let inputs := [ Bot.Line (Datetime.mkdate 2025 3 1) "add Bob 1234567890";
                  Bot.Line (Datetime.mkdate 2025 3 1) "close" ] in
  let saved := [("Ann"%string, ann_leap_day); ("Bob"%string, bob)] in
  exists files',
    snd (Bot.main (pickle := text_pickle) ann_files inputs)
    = Bot.Terminated files'
    /\ Bot.load_data (pickle := text_pickle) None files' = Bot.Done saved.
Proof.
  cbv zeta.
  set (inputs := [ Bot.Line (Datetime.mkdate 2025 3 1) "add Bob 1234567890";
                   Bot.Line (Datetime.mkdate 2025 3 1) "close" ]).
  set (saved := [("Ann"%string, ann_leap_day); ("Bob"%string, bob)]).
  set (files' := fst (Bot.save_data (pickle := text_pickle) saved None
                        ann_files)).
  assert (Hend : snd (Bot.main (pickle := text_pickle) ann_files inputs)
                 = Bot.Terminated files') by (vm_compute; reflexivity).
  assert (Hfst : fst (Bot.main (pickle := text_pickle) ann_files inputs)
                 = [Bot.Print (Bot.Text "Welcome to the assistant bot!");
                    Bot.Print (Bot.Text "Contact added.")]
                   ++ [Bot.Save saved] ++ [Bot.Print (Bot.Text "Good bye!")])
    by (vm_compute; reflexivity).
  destruct (next_session_resumes (pickle := text_pickle) ann_files files'
              inputs [] text_pickle_round_trip eq_refl Hend)
    as (pre & today & line & post & ev & b & _ & Hev & Hload & _).
  exists files'. split; [exact Hend|].
  rewrite Hfst in Hev.
  change (Bot.Print (Bot.Text "Welcome to the assistant bot!")
            :: ev ++ [Bot.Save b; Bot.Print (Bot.Text "Good bye!")])
    with ((Bot.Print (Bot.Text "Welcome to the assistant bot!") :: ev)
            ++ [Bot.Save b] ++ [Bot.Print (Bot.Text "Good bye!")]) in Hev.
  rewrite !app_assoc in Hev.
  apply app_inj_tail in Hev. destruct Hev as [Hev _].
  apply app_inj_tail in Hev. destruct Hev as [_ Hb].
  injection Hb as <-. exact Hload.
Defined.
